(** * The LIO task loader ([cmscontrib/loaders/lio.py])

    A shallow embedding of the task-import pipeline of the Latvian
    Informatics Olympiad loader: the point-file parser
    ([parse_point_file]), the classification of archive member names by
    the regular expression of [get_task], the extraction loop that builds
    the testcases, and the final per-group check.

    Conventions of the embedding.
    - A Python [str] is a [string]; a character is a code point below 256,
      on which Python's character classes ([str.isspace], the decimal
      digits accepted by [int] and by [\d]) are written out.
    - A [dict] is a [gmap]; a dict with the two possible keys ['input'] and
      ['output'] is a record of two options.
    - An exception is a value of [exn]; code that may raise returns a
      [result], and statements are sequenced with the bind of that monad,
      so that the first exception raised is the one returned.
    - The point file is given by the list that [f.readlines()] returns (one
      string per line, line terminator included); the archive by its
      member list in archive order. *)

From Stdlib Require Import ZArith Ascii String.
From stdpp Require Import gmap strings list fin_maps sorting pretty.

Local Open Scope Z_scope.
#[local] Set Warnings "-clear-no-such-hyp".

(** ** Exceptions and results *)

Inductive exn : Type :=
  | LioLoaderException (msg : string)
  | IndexError
  | ValueError
  | KeyError
  | UnicodeDecodeError.

Inductive result (A : Type) : Type :=
  | Ok (a : A)
  | Raise (e : exn).
Arguments Ok {A} a.
Arguments Raise {A} e.

Global Instance exn_eq_dec : EqDecision exn.
Proof. solve_decision. Defined.

Global Instance result_ret : MRet result := @Ok.
Global Instance result_bind : MBind result := λ A B f m,
  match m with
  | Ok a => f a
  | Raise e => Raise e
  end.
Global Instance result_fmap : FMap result := λ A B f m,
  match m with
  | Ok a => Ok (f a)
  | Raise e => Raise e
  end.

(** A [for] loop whose body may raise: the loop state is threaded through
    the iterations and the first exception leaves the loop. *)
Fixpoint foldM {A B : Type} (f : B → A → result B) (b : B) (l : list A)
  : result B :=
  match l with
  | [] => Ok b
  | x :: l' => b' ← f b x; foldM f b' l'
  end.

(** ** Python string primitives *)

(** [str.isspace] on one character (code points below 256). *)
Definition isspace (c : ascii) : bool :=
  match c with
  | "009" | "010" | "011" | "012" | "013"
  | "028" | "029" | "030" | "031" | " "
  | "133" | "160" => true
  | _ => false
  end%char.

(** Value of a decimal digit, for [int] and for [\d]: the code points 48
    to 57 are the digits 0 to 9. *)
Definition digit_value (c : ascii) : option Z :=
  let n := N_of_ascii c in
  if ((48 <=? n) && (n <=? 57))%N then Some (Z.of_N n - 48) else None.

Definition isdigit (c : ascii) : bool := bool_decide (is_Some (digit_value c)).

(** The class [[a-z]]. *)
Definition islower_az (c : ascii) : bool :=
  let n := N_of_ascii c in ((97 <=? n) && (n <=? 122))%N.

Fixpoint lstrip (s : string) : string :=
  match s with
  | "" => ""
  | String c s' => if isspace c then lstrip s' else s
  end.

Fixpoint rstrip (s : string) : string :=
  match s with
  | "" => ""
  | String c s' =>
      match rstrip s' with
      | "" => if isspace c then "" else String c ""
      | r => String c r
      end
  end.

(** [s.strip()] *)
Definition strip (s : string) : string := rstrip (lstrip s).

(** [s.replace("-", " ")] *)
Fixpoint replace_dash (s : string) : string :=
  match s with
  | "" => ""
  | String c s' =>
      String (if decide (c = "-"%char) then " "%char else c) (replace_dash s')
  end.

(** [s.split()]: the maximal runs of non-whitespace characters.  [cur] is
    the run being read, in reverse. *)
Fixpoint split_go (cur : string) (s : string) : list string :=
  match s with
  | "" => match cur with "" => [] | _ => [String.rev cur] end
  | String c s' =>
      if isspace c
      then match cur with
           | "" => split_go "" s'
           | _ => String.rev cur :: split_go "" s'
           end
      else split_go (String c cur) s'
  end.

Definition split (s : string) : list string := split_go "" s.

(** Digits of an integer literal: decimal digits, single underscores
    allowed between two digits.  [prev] tells whether the previous
    character was a digit. *)
Fixpoint int_digits (acc : Z) (prev : bool) (s : string) : option Z :=
  match s with
  | "" => if prev then Some acc else None
  | String c s' =>
      match digit_value c with
      | Some d => int_digits (10 * acc + d) true s'
      | None =>
          if decide (c = "_"%char) then
            if prev then int_digits acc false s' else None
          else None
      end
  end.

(** The default of [sys.get_int_max_str_digits()]: the largest number of
    digits that [int] converts from a decimal string. *)
Definition int_max_str_digits : nat := 4300.

(** The number of decimal digits in a string. *)
Fixpoint count_digits (s : string) : nat :=
  match s with
  | "" => 0%nat
  | String c s' => ((if isdigit c then 1 else 0) + count_digits s')%nat
  end.

(** [int(s)] for a string [s]: surrounding whitespace is dropped, a sign
    may precede the digits; anything else is a [ValueError], and so is a
    literal of more than [int_max_str_digits] digits (leading zeros count,
    the sign and the underscores do not). *)
Definition int (s : string) : result Z :=
  let t := strip s in
  let parsed :=
    match t with
    | String "+" r => int_digits 0 false r
    | String "-" r => Z.opp <$> int_digits 0 false r
    | _ => int_digits 0 false t
    end in
  match parsed with
  | Some z =>
      if (count_digits t <=? int_max_str_digits)%nat then Ok z
      else Raise ValueError
  | None => Raise ValueError
  end.

(** [l[i]] for a list and a non-negative constant index. *)
Definition index {A : Type} (l : list A) (i : nat) : result A :=
  match l !! i with
  | Some x => Ok x
  | None => Raise IndexError
  end.

(** [str(n)] of an integer. *)
Definition str (n : Z) : string := pretty n.

(** ** The point-file parser *)

Definition DUPLICATED : string := "Duplicated groups in point file".
Definition MISSING : string := "Missing group from point file".
Definition BAD_SUM : string := "Points for all groups doesn't sum up to 100".

(** The three integers read from one line:
    [vars = line.replace("-", " ").split()], then [int(vars[0])],
    [int(vars[1])], [int(vars[2])] in this order. *)
Definition parse_line (line : string) : result (Z * Z * Z) :=
  let vars := split (replace_dash line) in
  a ← index vars 0 ≫= int;
  b ← index vars 1 ≫= int;
  points ← index vars 2 ≫= int;
  Ok (a, b, points).

(** Body of [for group in range(a, b+1)]. *)
Definition assign_group (points : Z) (d : gmap Z Z) (group : Z)
  : result (gmap Z Z) :=
  if decide (is_Some (d !! group))
  then Raise (LioLoaderException DUPLICATED)
  else Ok (<[group := points]> d).

(** [range(a, b)] *)
Definition range (a b : Z) : list Z := seqZ a (b - a).

Definition assign_range (d : gmap Z Z) (abp : Z * Z * Z) : result (gmap Z Z) :=
  let '(a, b, points) := abp in
  foldM (assign_group points) d (range a (b + 1)).

(** Body of [for line in content]. *)
Definition process_line (d : gmap Z Z) (line : string) : result (gmap Z Z) :=
  abp ← parse_line line; assign_range d abp.

(** [sum(d.values())] *)
Definition sum_values (d : gmap Z Z) : Z :=
  foldr Z.add 0 (snd <$> map_to_list d).

Definition check_group_present (d : gmap Z Z) (_ : unit) (group : Z)
  : result unit :=
  if decide (is_Some (d !! group)) then Ok ()
  else Raise (LioLoaderException MISSING).

(** The first loop of [parse_point_file], over
    [content = [line.strip() for line in f.readlines()]]. *)
Definition read_points (lines : list string) : result (gmap Z Z) :=
  let content := strip <$> lines in
  foldM process_line ∅ content.

(** [parse_point_file], from the lines returned by [f.readlines()]. *)
Definition parse_point_file (lines : list string) : result (gmap Z Z) :=
  points_per_group ← read_points lines;
  _ ← foldM (check_group_present points_per_group) ()
        (range 0 (Z.of_nat (size points_per_group)));
  if decide (sum_values points_per_group ≠ 100)
  then Raise (LioLoaderException BAD_SUM)
  else Ok points_per_group.

Definition nl : string := String "010" "".

(** ** Classification of archive member names *)

(** The longest prefix of [s] in the class [p], and what follows it: how a
    greedy [p+] or [p*] consumes its input. *)
Fixpoint span (p : ascii → bool) (s : string) : string * string :=
  match s with
  | "" => ("", "")
  | String c s' =>
      if p c then let '(a, b) := span p s' in (String c a, b) else ("", s)
  end.

(** [$] without [re.MULTILINE]: the end of the string, or just before a
    newline that ends the string. *)
Definition at_end (s : string) : bool := bool_decide (s = "" ∨ s = nl).

(** A match object: its three groups. *)
Record Match : Type := { group1 : string; group2 : string; group3 : string }.

(** The pattern of [matcher], matched at the start of [s]: a dot, group 1
    [(i|o)], group 2 [(\d+)], group 3 (any number of [[a-z]]), then [$].  The two greedy
    repetitions range over disjoint classes and [$] accepts none of their
    characters, so giving back characters never helps: the greedy choice is
    the only candidate. *)
Definition match_here (s : string) : option Match :=
  match s with
  | String "." (String d rest) =>
      if bool_decide (d = "i"%char ∨ d = "o"%char) then
        let '(digits, r1) := span isdigit rest in
        let '(letters, r2) := span islower_az r1 in
        if bool_decide (digits ≠ "") && at_end r2
        then Some {| group1 := String d ""; group2 := digits;
                     group3 := letters |}
        else None
      else None
  | _ => None
  end.

(** [matcher.search(s)]: the match at the leftmost position that has one. *)
Fixpoint search (s : string) : option Match :=
  match match_here s with
  | Some m => Some m
  | None =>
      match s with
      | "" => None
      | String _ s' => search s'
      end
  end.

(** [c in s] for a character [c]. *)
Fixpoint contains (c : ascii) (s : string) : bool :=
  match s with
  | "" => false
  | String c' s' => bool_decide (c' = c) || contains c s'
  end.

(** ** The task import *)

(** Modelled from the spec: the score mode is one of a fixed three-value
    enumeration, whose constants live in [cmscommon.constants], outside the
    sources at hand.  Any other value that the configuration may carry is
    [OtherScoreMode]. *)
Inductive ScoreMode : Type :=
  | SCORE_MODE_MAX
  | SCORE_MODE_MAX_SUBTASK
  | SCORE_MODE_MAX_TOKENED_LAST
  | OtherScoreMode.

(** What [get_task] reads from its environment: the keys of the YAML
    configuration that the modelled part uses ([None]: key absent), the exit
    status of the checker compilation when there is a checker, the lines of
    the point file and the members (name, bytes) of the test archive. *)
Record Conf : Type := {
  name : string;
  score_mode : option ScoreMode;
  checker : option Z;
  public_groups : option (list Z);
  point_file : list string;
  test_zip : list (string * string)
}.

(** The [testcase] dict of one (group, sub-index) bucket. *)
Record Bucket : Type := { input : option string; output : option string }.

Record Testcase : Type := {
  codename : string;
  public : bool;
  input_digest : string;
  output_digest : string
}.

Record Dataset : Type := {
  score_type_parameters : list (Z * string);
  evaluation_param : string;
  testcases : gmap string Testcase
}.

Definition DIRECTORY : string := "Test zip archive contains a directory".
Definition UNSUPPORTED (task : string) : string :=
  "Unsupported file in test archive " +:+ task.
Definition INCOMPLETE (group : Z) (test_in_group : string) : string :=
  "Input or output file not found for test " +:+ str group +:+ test_in_group.
Definition NO_TESTCASES (i : Z) : string :=
  "No testcases for group " +:+ str i.

(** [zip.namelist()] *)
Definition namelist (zip : list (string * string)) : list string := zip.*1.

(** [zip.open(name)]: the bytes of the member of that name; of the last one
    when several members share the name. *)
Definition zip_open (zip : list (string * string)) (member : string)
  : result string :=
  match list_find (λ e, e.1 = member) (reverse zip) with
  | Some (_, (_, bytes)) => Ok bytes
  | None => Raise KeyError
  end.

(** Universal newlines ([newline=None]): [\r\n] and [\r] are read as [\n]. *)
Fixpoint translate_newlines (s : string) : string :=
  match s with
  | "" => ""
  | String "013" s' =>
      match s' with
      | String "010" _ => translate_newlines s'
      | _ => String "010" (translate_newlines s')
      end
  | String c s' => String c (translate_newlines s')
  end.

Fixpoint all_chars (p : ascii → bool) (s : string) : bool :=
  match s with
  | "" => true
  | String c s' => p c && all_chars p s'
  end.

Definition is_ascii (c : ascii) : bool := (N_of_ascii c <? 128)%N.

(** [io.TextIOWrapper(f, encoding='ascii', newline=None).read()] followed by
    [.encode('ascii')]. *)
Definition read_ascii (bytes : string) : result string :=
  if all_chars is_ascii bytes then Ok (translate_newlines bytes)
  else Raise UnicodeDecodeError.

(** [file_cacher.put_file_content(content, description)]: the store is
    content-addressed, a digest is represented by the content it names. *)
Definition put_file_content (content : string) : string := content.

(** [f"{n:0{width}}"]: sign-aware zero padding to at least [width]
    characters. *)
Fixpoint zeros (k : nat) : string :=
  match k with O => "" | S k' => String "0" (zeros k') end.

Definition format_zero (width : nat) (n : Z) : string :=
  if decide (n < 0)
  then let digits := str (- n) in
       "-" +:+ zeros (width - 1 - String.length digits) +:+ digits
  else let digits := str n in
       zeros (width - String.length digits) +:+ digits.

(** Body of [for test_filename in zip.namelist()]. *)
Definition collect_file (task : string) (test_files : gmap Z (gmap string Bucket))
    (test_filename : string) : result (gmap Z (gmap string Bucket)) :=
  if contains "/" test_filename || contains "\" test_filename
  then Raise (LioLoaderException DIRECTORY)
  else
    match search test_filename with
    | None => Raise (LioLoaderException (UNSUPPORTED task))
    | Some m =>
        let is_input := bool_decide (group1 m = "i") in
        group ← int (group2 m);
        let test_in_group := group3 m in
        let of_group := default ∅ (test_files !! group) in
        let testcase :=
          default {| input := None; output := None |}
                  (of_group !! test_in_group) in
        let testcase :=
          if is_input
          then {| input := Some test_filename; output := output testcase |}
          else {| input := input testcase; output := Some test_filename |} in
        Ok (<[group := <[test_in_group := testcase]> of_group]> test_files)
    end.

(** [max(l)] *)
Definition py_max (l : list Z) : result Z :=
  match l with
  | [] => Raise ValueError
  | x :: l' => Ok (foldl Z.max x l')
  end.

(** [l[i] += 1] with Python's indexing: a negative index counts from the
    end, an index outside the list raises [IndexError]. *)
Definition list_position {A : Type} (l : list A) (i : Z) : result nat :=
  let len := Z.of_nat (length l) in
  if decide (0 ≤ i < len) then Ok (Z.to_nat i)
  else if decide (- len ≤ i < 0) then Ok (Z.to_nat (len + i))
  else Raise IndexError.

Definition increment (l : list Z) (i : Z) : result (list Z) :=
  k ← list_position l i;
  x ← index l k;
  Ok (<[k := x + 1]> l).

(** Body of [for test_in_group in sorted(test_files[group].keys())]; the
    state is [tests_per_group] and [args["testcases"]]. *)
Definition extract_test (c : Conf) (width : nat) (group : Z)
    (of_group : gmap string Bucket)
    (st : list Z * gmap string Testcase) (test_in_group : string)
  : result (list Z * gmap string Testcase) :=
  let '(tests_per_group, tcs) := st in
  tests_per_group ← increment tests_per_group group;
  testcase ← match of_group !! test_in_group with
             | Some t => Ok t
             | None => Raise KeyError
             end;
  match input testcase, output testcase with
  | Some input_name, Some output_name =>
      input_digest ← put_file_content <$> (zip_open (test_zip c) input_name ≫= read_ascii);
      output_digest ← put_file_content <$> (zip_open (test_zip c) output_name ≫= read_ascii);
      let cn := format_zero width group +:+ test_in_group in
      let is_public := bool_decide (group ∈ default [0; 1] (public_groups c)) in
      Ok (tests_per_group,
          <[cn := {| codename := cn; public := is_public;
                     input_digest := input_digest;
                     output_digest := output_digest |}]> tcs)
  | _, _ => Raise (LioLoaderException (INCOMPLETE group test_in_group))
  end.

(** [d.keys()] and [sorted(d.keys())] *)
Definition keys {K V : Type} `{Countable K} (d : gmap K V) : list K :=
  (map_to_list d).*1.

Definition sorted_groups {V : Type} (d : gmap Z V) : list Z :=
  merge_sort Z.le (keys d).

Definition sorted_labels {V : Type} (d : gmap string V) : list string :=
  merge_sort String.le (keys d).

(** [d[k]] *)
Definition getitem {K V : Type} `{Countable K} (d : gmap K V) (k : K)
  : result V :=
  match d !! k with
  | Some v => Ok v
  | None => Raise KeyError
  end.

(** Body of [for group in sorted(test_files.keys())]. *)
Definition extract_group (c : Conf) (width : nat)
    (test_files : gmap Z (gmap string Bucket))
    (st : list Z * gmap string Testcase) (group : Z)
  : result (list Z * gmap string Testcase) :=
  of_group ← getitem test_files group;
  foldM (extract_test c width group of_group) st (sorted_labels of_group).

(** The first loop of the [with] block: the members are collected into
    [test_files]. *)
Definition collect_test_files (task : string) (names : list string)
  : result (gmap Z (gmap string Bucket)) :=
  foldM (collect_file task) ∅ names.

(** The second loop of the [with] block, from
    [max_group_digit_length = len(str(max(test_files.keys())))] on. *)
Definition extract_tests (c : Conf) (test_files : gmap Z (gmap string Bucket))
    (tests_per_group : list Z) : result (list Z * gmap string Testcase) :=
  largest ← py_max (keys test_files);
  let max_group_digit_length := String.length (str largest) in
  foldM (extract_group c max_group_digit_length test_files)
        (tests_per_group, ∅) (sorted_groups test_files).

(** Body of [for i in range(len(tests_per_group))]. *)
Definition check_group (tests_per_group : list Z) (_ : unit) (i : Z)
  : result unit :=
  k ← list_position tests_per_group i;
  x ← index tests_per_group k;
  if decide (x = 0) then Raise (LioLoaderException (NO_TESTCASES i))
  else Ok ().

Definition check_tests_per_group (tests_per_group : list Z) : result unit :=
  foldM (check_group tests_per_group) ()
        (range 0 (Z.of_nat (length tests_per_group))).

(** One entry of [score_type_parameters]: [[points_per_group[i], f"{i:03}"]]. *)
Definition score_parameter (points_per_group : gmap Z Z) (i : Z)
  : result (Z * string) :=
  points ← getitem points_per_group i; Ok (points, format_zero 3 i).

(** [get_task], from the check of the score mode on and reduced to what
    decides the dataset: the check of the score mode, the checker
    compilation, the point file, the archive and the final check, in the
    order of the source.  The other statements (the lookups of ['name']
    and ['title'], the statements, the limits, the calls of the file
    cacher and of the compiler) are not modelled: [get_task c] is the
    outcome of a call in which none of them raises.  A
    [LioLoaderException] is raised by the nine [raise] statements of the
    file only, which are all modelled. *)
Definition get_task (c : Conf) : result Dataset :=
  _ ← match default SCORE_MODE_MAX_TOKENED_LAST (score_mode c) with
      | OtherScoreMode =>
          Raise (LioLoaderException "Unknown score mode provided")
      | _ => Ok ()
      end;
  evaluation_param ←
    match checker c with
    | Some code =>
        if decide (code ≠ 0)
        then Raise (LioLoaderException "Could not compile checker")
        else Ok "comparator"
    | None => Ok "diff"
    end;
  points_per_group ← parse_point_file (point_file c);
  score_type_parameters ←
    mapM (score_parameter points_per_group)
         (range 0 (Z.of_nat (size points_per_group)));
  let tests_per_group := replicate (size points_per_group) 0 in
  test_files ← collect_test_files (name c) (namelist (test_zip c));
  '(tests_per_group, tcs) ← extract_tests c test_files tests_per_group;
  _ ← check_tests_per_group tests_per_group;
  Ok {| score_type_parameters := score_type_parameters;
        evaluation_param := evaluation_param;
        testcases := tcs |}.

(** * Vocabulary of the properties *)

(** The line (as [f.readlines()] returns it) has the three integers. *)
Definition well_formed (line : string) : Prop :=
  ∃ abp, parse_line (strip line) = Ok abp.

(** The line assigns a point value to group [g]. *)
Definition assigns (line : string) (g : Z) : Prop :=
  ∃ a b points, parse_line (strip line) = Ok (a, b, points) ∧ a ≤ g ≤ b.

(** The exception of a group assigned twice. *)
Definition duplicated : exn := LioLoaderException DUPLICATED.

(** The language of the pattern of [matcher], found anywhere in the name:
    [s] is some base name (possibly empty), a dot, [i] or [o], one or more
    digits, zero or more letters of [[a-z]], and the end of the string
    (or a newline that ends it); [m] holds the three groups.  [base_ok]
    restricts the base name. *)
Definition matches_with (base_ok : string → Prop) (s : string) (m : Match)
  : Prop :=
  ∃ (base : string) (d : ascii) (digits letters tail : string),
    s = base +:+ String "." (String d (digits +:+ letters +:+ tail))
    ∧ base_ok base
    ∧ (d = "i" ∨ d = "o")%char
    ∧ digits ≠ "" ∧ all_chars isdigit digits = true
    ∧ all_chars islower_az letters = true
    ∧ (tail = "" ∨ tail = nl)
    ∧ m = {| group1 := String d ""; group2 := digits; group3 := letters |}.

(** The pattern of the source, used with [search]. *)
Definition matches_pattern : string → Match → Prop :=
  matches_with (λ _, True).

(** The pattern as the specification writes it, with [^.+] in front: the
    base name is not empty, and [.] does not match a newline. *)
Definition matches_spec_pattern : string → Match → Prop :=
  matches_with (λ base, base ≠ "" ∧ contains "010" base = false).

(** The bucket side that a member of the given direction fills. *)
Definition slot (test_files : gmap Z (gmap string Bucket)) (group : Z)
    (test_in_group : string) (is_input : bool) : option string :=
  bucket ← test_files !! group ≫= (.!! test_in_group);
  if is_input then input bucket else output bucket.

(** The next character, if there is one, is outside the class [p]: where a
    greedy repetition of [p] stops. *)
Definition stops (p : ascii → bool) (s : string) : Prop :=
  match s with
  | "" => True
  | String c _ => p c = false
  end.

(** The classification that [collect_file] computes from a name: direction
    (input?), group, sub-index label. *)
Definition classify (test_filename : string) : option (bool * Z * string) :=
  m ← search test_filename;
  match int (group2 m) with
  | Ok group => Some (bool_decide (group1 m = "i"), group, group3 m)
  | Raise _ => None
  end.

(** The name has no path separator. *)
Definition flat (test_filename : string) : Prop :=
  contains "/" test_filename = false ∧ contains "\" test_filename = false.

(** Both files of the bucket are named, are members of the archive and
    hold ASCII text. *)
Definition readable (c : Conf) (bucket : Bucket) : Prop :=
  ∃ input_name output_name input_content output_content,
    input bucket = Some input_name ∧ output bucket = Some output_name
    ∧ zip_open (test_zip c) input_name ≫= read_ascii = Ok input_content
    ∧ zip_open (test_zip c) output_name ≫= read_ascii = Ok output_content.

(** The name under which a test is stored:
    [f"{group:0{max_group_digit_length}}{test_in_group}"]. *)
Definition codename_of (width : nat) (group : Z) (label : string) : string :=
  format_zero width group +:+ label.

(** What the testcases dict holds: every testcase sits under its own
    codename. *)
Definition keyed_by_codename (tcs : gmap string Testcase) : Prop :=
  ∀ key tc, tcs !! key = Some tc → codename tc = key.

(** Every bucket of a group is complete and readable. *)
Definition all_readable (c : Conf) (of_group : gmap string Bucket) : Prop :=
  ∀ label bucket, of_group !! label = Some bucket → readable c bucket.

(** The score mode is one of the three known ones, and the checker, if
    any, compiled. *)
Definition config_accepted (c : Conf) : Prop :=
  default SCORE_MODE_MAX_TOKENED_LAST (score_mode c) ≠ OtherScoreMode
  ∧ (checker c = None ∨ checker c = Some 0).

(** The score type parameters of a dense point map. *)
Definition labelled_points (d : gmap Z Z) : list (Z * string) :=
  (λ i, (d !!! i, format_zero 3 i)) <$> range 0 (Z.of_nat (size d)).

(** The rest of [get_task] once the point file is parsed and the members
    are collected. *)
Definition finish (c : Conf) (d : gmap Z Z)
    (st : list Z * gmap string Testcase) : result Dataset :=
  _ ← check_tests_per_group st.1;
  Ok {| score_type_parameters := labelled_points d;
        evaluation_param := match checker c with
                            | Some _ => "comparator"
                            | None => "diff"
                            end;
        testcases := st.2 |}.

(** The number of tests (buckets) that the archive has for a group. *)
Definition tests_of (test_files : gmap Z (gmap string Bucket)) (group : Z)
  : Z :=
  Z.of_nat (size (default ∅ (test_files !! group))).

(** Example data: a configuration in which every optional key is absent. *)
Definition example_conf (lines : list string) (zip : list (string * string))
  : Conf :=
  {| name := "task"; score_mode := None; checker := None;
     public_groups := None; point_file := lines; test_zip := zip |}.

(** One complete test for each of the groups 0, 1 and 2. *)
Definition archive_012 : list (string * string) :=
  [("t.i0", "1" +:+ nl); ("t.o0", "2" +:+ nl);
   ("t.i1", "3" +:+ nl); ("t.o1", "4" +:+ nl);
   ("t.i2", "5" +:+ nl); ("t.o2", "6" +:+ nl)].

(** The same archive without the test of group 2. *)
Definition archive_01 : list (string * string) := take 4 archive_012.

(** The buckets of a group with one test, of empty sub-index label. *)
Definition one_test (input_name output_name : string)
  : gmap string Bucket :=
  {[ "" := {| input := Some input_name; output := Some output_name |} ]}.

(** What the first loop collects from [archive_012] and [archive_01]. *)
Definition test_files_012 : gmap Z (gmap string Bucket) :=
  {[ 0 := one_test "t.i0" "t.o0"; 1 := one_test "t.i1" "t.o1";
     2 := one_test "t.i2" "t.o2" ]}.

Definition test_files_01 : gmap Z (gmap string Bucket) :=
  {[ 0 := one_test "t.i0" "t.o0"; 1 := one_test "t.i1" "t.o1" ]}.

(** An archive whose largest group index has two digits. *)
Definition archive_3b_12 : list (string * string) :=
  [("x.i3b", "1" +:+ nl); ("x.o3b", "2" +:+ nl);
   ("x.i12", "3" +:+ nl); ("x.o12", "4" +:+ nl)].

(** ** Vocabulary of the further properties *)

(** The line gives [points] points to group [g]. *)
Definition gives (line : string) (g points : Z) : Prop :=
  ∃ a b, parse_line (strip line) = Ok (a, b, points) ∧ a ≤ g ≤ b.

(** No group is assigned by two different lines. *)
Definition disjoint_lines (lines : list string) : Prop :=
  ∀ (i j : nat) li lj g,
    i ≠ j → lines !! i = Some li → lines !! j = Some lj →
    assigns li g → ¬ assigns lj g.

(** The testcase that the extraction loop builds for a bucket: its
    codename, whether its group is public, and the normalised contents of
    its two files. *)
Definition expected_testcase (c : Conf) (width : nat) (group : Z)
    (label : string) (bucket : Bucket) : option Testcase :=
  input_name ← input bucket;
  output_name ← output bucket;
  match zip_open (test_zip c) input_name ≫= read_ascii,
        zip_open (test_zip c) output_name ≫= read_ascii with
  | Ok input_content, Ok output_content =>
      Some {| codename := codename_of width group label;
              public := bool_decide (group ∈ default [0; 1] (public_groups c));
              input_digest := input_content;
              output_digest := output_content |}
  | _, _ => None
  end.

(** A decimal representation without a superfluous zero in front. *)
Definition canonical (s : string) : Prop :=
  s = "0" ∨ ∃ c r, s = String c r ∧ c ≠ "0"%char.

(** Every testcase in the dict is the testcase of a bucket, stored under
    the codename of that bucket. *)
Definition from_buckets (c : Conf) (width : nat)
    (test_files : gmap Z (gmap string Bucket))
    (tcs : gmap string Testcase) : Prop :=
  ∀ key tc, tcs !! key = Some tc →
    ∃ g og label bucket,
      test_files !! g = Some og ∧ og !! label = Some bucket
      ∧ key = codename_of width g label
      ∧ expected_testcase c width g label bucket = Some tc.

(** ** Configuration helpers *)

(** [set_if_present(src_dict, trg_dict, key, conv, default)]: the target
    after the call.  [conv] may raise; [default=None] is [None]. *)
Definition set_if_present {V : Type} (src_dict trg_dict : gmap string V)
    (key : string) (conv : V → result V) (default : option V)
  : result (gmap string V) :=
  match src_dict !! key with
  | Some v => v' ← conv v; Ok (<[key := v']> trg_dict)
  | None =>
      match default with
      | Some dflt => Ok (<[key := dflt]> trg_dict)
      | None => Ok trg_dict
      end
  end.

(** ** Paths (POSIX [os.path]) *)

Definition is_sep (c : ascii) : bool := bool_decide (c = "/"%char).

(** [s.startswith('/')] and [s.endswith('/')] *)
Definition startswith_sep (s : string) : bool :=
  match s with
  | String c _ => is_sep c
  | "" => false
  end.

Fixpoint endswith_sep (s : string) : bool :=
  match s with
  | "" => false
  | String c s' =>
      match s' with
      | "" => is_sep c
      | _ => endswith_sep s'
      end
  end.

(** [os.path.join(a, b)]: an absolute [b] replaces [a]; otherwise [b] is
    appended, after a separator unless [a] is empty or ends with one. *)
Definition path_join (a b : string) : string :=
  if startswith_sep b then b
  else if bool_decide (a = "") || endswith_sep a then a +:+ b
  else a +:+ "/" +:+ b.

(** [p[:p.rfind('/') + 1]]: the path up to and including its last
    separator. *)
Fixpoint head_of (p : string) : string :=
  match p with
  | "" => ""
  | String c p' =>
      if contains "/" p' then String c (head_of p')
      else if is_sep c then "/" else ""
  end.

(** [s.rstrip('/')] *)
Fixpoint rstrip_sep (s : string) : string :=
  match s with
  | "" => ""
  | String c s' =>
      match rstrip_sep s' with
      | "" => if is_sep c then "" else String c ""
      | r => String c r
      end
  end.

(** [os.path.dirname(p)]: the head, without its trailing separators unless
    it consists of separators only. *)
Definition dirname (p : string) : string :=
  let head := head_of p in
  if bool_decide (head ≠ "") && negb (all_chars is_sep head)
  then rstrip_sep head else head.

(** [LioContestLoader.get_task_loader], for a contest file at [path] whose
    [tasks] entry maps a task name to null ([None]) or to a dict, of which
    the ['config'] key is kept ([Some None]: the dict has no such key).
    The result is the path given to the task loader. *)
Definition get_task_loader (path : string)
    (tasks : gmap string (option (option string))) (taskname : string)
  : result string :=
  let contest_dir := dirname path in
  let task_yaml_path := path_join taskname "task.yaml" in
  entry ← getitem tasks taskname;
  let task_yaml_path :=
    match entry with
    | Some settings => default task_yaml_path settings
    | None => task_yaml_path
    end in
  Ok (path_join contest_dir task_yaml_path).

(** [LioTaskLoader.__init__]: the directory of the task file; and the path
    of the point file in [get_task] ([conf.get('point_file', 'punkti.txt')]
    joined to it). *)
Definition task_dir (path : string) : string := dirname path.

Definition point_file_path (path : string) (point_file_key : option string)
  : string :=
  path_join (task_dir path) (default "punkti.txt" point_file_key).

(** ** The archive in another order *)

(** [test_files] after the body of the first loop has run for a member of
    this name, direction, group and sub-index label. *)
Definition put (test_files : gmap Z (gmap string Bucket)) (n : string)
    (k : bool * Z * string) : gmap Z (gmap string Bucket) :=
  let of_group := default ∅ (test_files !! k.1.2) in
  let testcase :=
    default {| input := None; output := None |} (of_group !! k.2) in
  let testcase :=
    if k.1.1 then {| input := Some n; output := output testcase |}
    else {| input := input testcase; output := Some n |} in
  <[k.1.2 := <[k.2 := testcase]> of_group]> test_files.

(** The same task with another test archive. *)
Definition with_test_zip (c : Conf) (zip : list (string * string)) : Conf :=
  {| name := name c; score_mode := score_mode c; checker := checker c;
     public_groups := public_groups c; point_file := point_file c;
     test_zip := zip |}.

(** * Properties *)

(** ** The primitives on small inputs *)

Example split_line :
  split (replace_dash (strip ("  3-5 10  first subtask" +:+ nl)))
  = ["3"; "5"; "10"; "first"; "subtask"].
Proof. reflexivity. Qed.

Example int_literals :
  int "007" = Ok 7 ∧ int "+1_0" = Ok 10 ∧ int " 12 " = Ok 12
  ∧ int "1__0" = Raise ValueError ∧ int "ten" = Raise ValueError
  ∧ int "" = Raise ValueError.
Proof. by vm_compute. Qed.

Example int_digit_limit :
  int (zeros 4300) = Ok 0
  ∧ int (zeros 4300 +:+ "1") = Raise ValueError
  ∧ collect_file "task" ∅ ("x.i" +:+ zeros 4400 +:+ "1") = Raise ValueError.
Proof. by vm_compute. Qed.

Example search_names :
  search "a.b.o12abc" = Some {| group1 := "o"; group2 := "12"; group3 := "abc" |}
  ∧ search ("a.i1" +:+ nl) = Some {| group1 := "i"; group2 := "1"; group3 := "" |}
  ∧ search "a.i" = None ∧ search "a.i1A" = None ∧ search "a.i1.x" = None.
Proof. by vm_compute. Qed.

Example format_zero_widths :
  format_zero 3 7 = "007" ∧ format_zero 2 150 = "150"
  ∧ format_zero 4 (-3) = "-003" ∧ str 0 = "0".
Proof. by vm_compute. Qed.

Example parse_point_file_gap :
  parse_point_file ["1-1 100" +:+ nl] = Raise (LioLoaderException MISSING).
Proof. vm_compute. reflexivity. Qed.

(** A complete import: the later of two inputs of one bucket is the one
    that is read. *)
Example import_uses_later_member :
  testcases <$> get_task (example_conf ["0-0 100" +:+ nl]
                   [("a.i0", "first"); ("b.i0", "second"); ("a.o0", "out")])
  = Ok {[ "0" := {| codename := "0"; public := true;
                    input_digest := "second"; output_digest := "out" |} ]}.
Proof. vm_compute. reflexivity. Qed.

(** ** Loops *)

Lemma bind_Ok {A B : Type} (m : result A) (f : A → result B) (b : B) :
  m ≫= f = Ok b ↔ ∃ a, m = Ok a ∧ f a = Ok b.
Proof.
  destruct m as [a|e]; simpl; split.
  - intros Hf. by exists a.
  - by intros (a' & [= <-] & Hf).
  - done.
  - by intros (a' & [=] & _).
Qed.

Lemma foldM_app {A B : Type} (f : B → A → result B) (b : B) (l1 l2 : list A) :
  foldM f b (l1 ++ l2) = foldM f b l1 ≫= λ b', foldM f b' l2.
Proof.
  revert b. induction l1 as [|x l1 IH]; intros b; simpl; [done|].
  destruct (f b x) as [b'|e]; simpl; [apply IH|done].
Qed.

(** A loop that only checks: it succeeds exactly when every check does. *)
Lemma foldM_unit_Ok {A : Type} (f : unit → A → result unit) (l : list A) :
  foldM f () l = Ok () ↔ ∀ x, x ∈ l → f () x = Ok ().
Proof.
  induction l as [|x l IH]; simpl.
  - split; [|done]. intros _ x Hx. by apply elem_of_nil in Hx.
  - destruct (f () x) as [[]|e] eqn:Hfx; simpl.
    + rewrite IH. split.
      * intros Hl y [->|Hy]%elem_of_cons; auto.
      * intros Hl y Hy. apply Hl. by right.
    + split; [done|]. intros Hl. specialize (Hl x (list_elem_of_here _ _)).
      congruence.
Qed.

(** ** The point map of a parsed file is dense and sums to 100 *)

Lemma elem_of_range (a b k : Z) : k ∈ range a b ↔ a ≤ k < b.
Proof. unfold range. rewrite elem_of_seqZ. lia. Qed.

Lemma foldr_add_Permutation (l1 l2 : list Z) :
  l1 ≡ₚ l2 → foldr Z.add 0 l1 = foldr Z.add 0 l2.
Proof. induction 1; simpl; lia. Qed.

(** A dict of [n] keys that holds every key of [range(n)] holds no other. *)
Lemma dense_keys (d : gmap Z Z) :
  (∀ k, 0 ≤ k < Z.of_nat (size d) → is_Some (d !! k)) →
  dom d = list_to_set (range 0 (Z.of_nat (size d))).
Proof.
  intros Hall. symmetry. apply set_subseteq_size_eq.
  - intros k. rewrite elem_of_list_to_set, elem_of_range, elem_of_dom.
    apply Hall.
  - rewrite size_dom, size_list_to_set by (unfold range; apply NoDup_seqZ).
    unfold range. rewrite length_seqZ. lia.
Qed.

Lemma dense_map_to_list (d : gmap Z Z) :
  (∀ k, is_Some (d !! k) ↔ 0 ≤ k < Z.of_nat (size d)) →
  map_to_list d ≡ₚ (λ i, (i, d !!! i)) <$> range 0 (Z.of_nat (size d)).
Proof.
  intros Hdom. apply NoDup_Permutation.
  - apply NoDup_map_to_list.
  - apply NoDup_fmap_2; [by intros i j [= ->]|]. unfold range. apply NoDup_seqZ.
  - intros [k v]. rewrite elem_of_map_to_list, list_elem_of_fmap. split.
    + intros Hk. exists k. split.
      * f_equal. by rewrite (lookup_total_correct _ _ _ Hk).
      * apply elem_of_range, Hdom. by exists v.
    + intros (i & [= -> ->] & Hi%elem_of_range%Hdom). destruct Hi as [v Hv].
      by rewrite (lookup_total_correct _ _ _ Hv).
Qed.

(** What the two checks at the end of [parse_point_file] leave. *)
Lemma parse_point_file_inv (lines : list string) (d : gmap Z Z) :
  parse_point_file lines = Ok d →
  read_points lines = Ok d
  ∧ (∀ k, 0 ≤ k < Z.of_nat (size d) → is_Some (d !! k))
  ∧ sum_values d = 100.
Proof.
  unfold parse_point_file. intros (d' & Hread & Hrest)%bind_Ok.
  apply bind_Ok in Hrest as ([] & Hpresent & Hsum).
  destruct (decide (sum_values d' ≠ 100)) as [|Hs]; [done|].
  injection Hsum as ->. apply dec_stable in Hs.
  rewrite foldM_unit_Ok in Hpresent. split_and!; [done| |done].
  intros k Hk%elem_of_range%Hpresent. unfold check_group_present in Hk.
  by destruct (decide (is_Some (d !! k))).
Qed.

(** C1.  Whenever [parse_point_file] returns a point map, the keys of the
    map are exactly the group indices [0, ..., N-1], where [N] is the number
    of keys (no gaps, no other key), and the point values sum to exactly
    100: both as [sum(d.values())] and as the sum of [d[0], ..., d[N-1]]. *)
Theorem parse_point_file_dense_sum_100 (lines : list string) (d : gmap Z Z) :
  parse_point_file lines = Ok d →
  let N := Z.of_nat (size d) in
  (∀ k, is_Some (d !! k) ↔ 0 ≤ k < N)
  ∧ dom d = list_to_set (range 0 N)
  ∧ sum_values d = 100
  ∧ foldr Z.add 0 ((λ i, d !!! i) <$> range 0 N) = 100.
Proof.
  intros (_ & Hall & Hs)%parse_point_file_inv.
  pose proof (dense_keys d Hall) as Hdom.
  assert (Hiff : ∀ k, is_Some (d !! k) ↔ 0 ≤ k < Z.of_nat (size d)).
  { intros k. by rewrite <-elem_of_dom, Hdom, elem_of_list_to_set, elem_of_range. }
  simpl. split_and!; [done..|].
  rewrite <-Hs. unfold sum_values.
  rewrite (foldr_add_Permutation _ _
             (fmap_Permutation snd _ _ (dense_map_to_list d Hiff))).
  by rewrite <-list_fmap_compose.
Qed.

Example parse_point_file_dense_sum_100_witness :
  parse_point_file ["0-1 30" +:+ nl; "2-2 40" +:+ nl]
  = Ok {[0 := 30; 1 := 30; 2 := 40]}
  ∧ (∀ k, is_Some (({[0 := 30; 1 := 30; 2 := 40]} : gmap Z Z) !! k)
          ↔ 0 ≤ k < 3)
  ∧ sum_values {[0 := 30; 1 := 30; 2 := 40]} = 100.
Proof.
  assert (Hd : parse_point_file ["0-1 30" +:+ nl; "2-2 40" +:+ nl]
               = Ok {[0 := 30; 1 := 30; 2 := 40]})
    by (vm_compute; reflexivity).
  destruct (parse_point_file_dense_sum_100 _ _ Hd) as (Hkeys & _ & Hsum & _).
  split_and!; [exact Hd|exact Hkeys|exact Hsum].
Defined.

(** ** Duplicate groups *)

Lemma assign_group_taken (points : Z) (d : gmap Z Z) (g : Z) :
  is_Some (d !! g) → assign_group points d g = Raise duplicated.
Proof. intros Hg. unfold assign_group. by rewrite decide_True. Qed.

Lemma assign_group_free (points : Z) (d : gmap Z Z) (g : Z) :
  ¬ is_Some (d !! g) → assign_group points d g = Ok (<[g:=points]> d).
Proof. intros Hg. unfold assign_group. by rewrite decide_False. Qed.

(** The loop over one range either meets a group that is already there, or
    adds all its groups, none of which was there. *)
Lemma assign_groups_result (points : Z) (l : list Z) (d : gmap Z Z) :
  foldM (assign_group points) d l = Raise duplicated
  ∨ ∃ d', foldM (assign_group points) d l = Ok d'
          ∧ (∀ g, is_Some (d !! g) → is_Some (d' !! g))
          ∧ (∀ g, g ∈ l → is_Some (d' !! g))
          ∧ (∀ g, g ∈ l → d !! g = None).
Proof.
  revert d. induction l as [|x l IH]; intros d; simpl.
  - right. exists d. split_and!; [done..| |]; intros g Hg; inversion Hg.
  - destruct (decide (is_Some (d !! x))) as [Hx|Hx].
    { left. by rewrite assign_group_taken. }
    rewrite assign_group_free by done. simpl.
    destruct (IH (<[x:=points]> d)) as [->|(d' & -> & Hold & Hnew & Hfresh)];
      [by left|right].
    exists d'. split_and!; [done| | |].
    + intros g Hg. apply Hold. rewrite lookup_insert_is_Some'. tauto.
    + intros g [->|Hg]%elem_of_cons; [|by auto].
      apply Hold. rewrite lookup_insert_is_Some'. tauto.
    + intros g [->|Hg]%elem_of_cons.
      * by apply eq_None_not_Some.
      * specialize (Hfresh g Hg). apply lookup_insert_None in Hfresh. tauto.
Qed.

Lemma process_line_result (d : gmap Z Z) (line : string) (a b points : Z) :
  parse_line line = Ok (a, b, points) →
  process_line d line = Raise duplicated
  ∨ ∃ d', process_line d line = Ok d'
          ∧ (∀ g, is_Some (d !! g) → is_Some (d' !! g))
          ∧ (∀ g, a ≤ g ≤ b → is_Some (d' !! g))
          ∧ (∀ g, a ≤ g ≤ b → d !! g = None).
Proof.
  intros Hline. unfold process_line. rewrite Hline. simpl.
  destruct (assign_groups_result points (range a (b + 1)) d)
    as [->|(d' & -> & Hold & Hnew & Hfresh)]; [by left|right].
  exists d'. split_and!; [done..| |]; intros g Hg.
  - apply Hnew, elem_of_range. lia.
  - apply Hfresh, elem_of_range. lia.
Qed.

(** A later line that assigns a group which is already in the dict. *)
Lemma read_points_collision (content : list string) (d : gmap Z Z)
    (line : string) (a b points g : Z) :
  Forall (λ l, ∃ abp, parse_line l = Ok abp) content →
  line ∈ content → parse_line line = Ok (a, b, points) → a ≤ g ≤ b →
  is_Some (d !! g) →
  foldM process_line d content = Raise duplicated.
Proof.
  intros Hwf Hin Hline Hg. revert d.
  induction Hwf as [|l content [[[a' b'] p'] Hl] Hwf IH]; intros d Hd.
  { by apply elem_of_nil in Hin. }
  simpl.
  destruct (process_line_result d l a' b' p' Hl)
    as [->|(d' & -> & Hold & Hnew & Hfresh)]; [done|]. simpl.
  apply elem_of_cons in Hin as [<-|Hin].
  - rewrite Hl in Hline. injection Hline as -> -> ->.
    rewrite (Hfresh g Hg) in Hd. by destruct Hd.
  - by apply IH; [|apply Hold].
Qed.

(** Two lines that assign the same group. *)
Lemma read_points_duplicate (content : list string) (d : gmap Z Z)
    (i j : nat) (li lj : string) (g : Z) :
  Forall (λ l, ∃ abp, parse_line l = Ok abp) content →
  (i < j)%nat → content !! i = Some li → content !! j = Some lj →
  (∃ a b p, parse_line li = Ok (a, b, p) ∧ a ≤ g ≤ b) →
  (∃ a b p, parse_line lj = Ok (a, b, p) ∧ a ≤ g ≤ b) →
  foldM process_line d content = Raise duplicated.
Proof.
  intros Hwf Hij Hi Hj Hgi (aj & bj & pj & Hlj & Hgj). revert d i j Hij Hi Hj.
  induction Hwf as [|l content [[[a' b'] p'] Hl] Hwf IH]; intros d i j Hij Hi Hj.
  { by rewrite lookup_nil in Hi. }
  simpl.
  destruct (process_line_result d l a' b' p' Hl)
    as [->|(d' & -> & Hold & Hnew & Hfresh)]; [done|]. simpl.
  destruct j as [|j]; [lia|]. simpl in Hj.
  destruct i as [|i]; simpl in Hi.
  - injection Hi as ->. destruct Hgi as (ai & bi & pi & Hli & Hgi).
    rewrite Hl in Hli. injection Hli as -> -> ->.
    eapply read_points_collision; eauto using list_elem_of_lookup_2.
  - apply (IH d' i j); [lia|done..].
Qed.

(** Group 0 is given by two lines, yet the file is not rejected for that:
    the blank line between them is reached first and raises [IndexError].
    With the blank line last, the same lines raise the duplicate-group
    exception: the order of the lines decides. *)
Example duplicate_behind_blank_line_counterexample :
  assigns ("0-0 50" +:+ nl) 0
  ∧ parse_point_file ["0-0 50" +:+ nl; nl; "0-0 50" +:+ nl]
    = Raise IndexError
  ∧ parse_point_file ["0-0 50" +:+ nl; "0-0 50" +:+ nl; nl]
    = Raise (LioLoaderException DUPLICATED).
Proof.
  split_and!; [|vm_compute; reflexivity..].
  exists 0, 0, 50. split; [vm_compute; reflexivity|lia].
Qed.

(** C7 (amended).  In a point file whose lines all carry their three
    integers, if two different lines assign a point value to the same
    group, then [parse_point_file] raises the exception with the message
    "Duplicated groups in point file"; and it does so for every order in
    which the lines of the file may be arranged. *)
Theorem duplicate_group_always_rejected (lines lines' : list string)
    (i j : nat) (li lj : string) (g : Z) :
  (∀ line, line ∈ lines → well_formed line) →
  i ≠ j → lines !! i = Some li → lines !! j = Some lj →
  assigns li g → assigns lj g →
  lines' ≡ₚ lines →
  parse_point_file lines' = Raise (LioLoaderException DUPLICATED).
Proof.
  intros Hwf Hij Hi Hj Hgi Hgj Hperm.
  assert (Hwf' : Forall (λ l, ∃ abp, parse_line l = Ok abp) (strip <$> lines')).
  { apply Forall_fmap, Forall_forall. intros line Hline. apply Hwf.
    by rewrite <-Hperm. }
  symmetry in Hperm. apply Permutation_inj in Hperm as [_ (f & Hinj & Hf)].
  rewrite Hf in Hi, Hj.
  assert (Hne : f i ≠ f j) by (intros Heq; by apply Hinj in Heq).
  unfold parse_point_file, read_points.
  assert (foldM process_line ∅ (strip <$> lines') = Raise duplicated) as ->;
    [|done].
  destruct (decide (f i < f j)%nat).
  - apply (read_points_duplicate _ _ (f i) (f j) (strip li) (strip lj) g);
      [done..| | | |]; rewrite ?list_lookup_fmap, ?Hi, ?Hj; done.
  - apply (read_points_duplicate _ _ (f j) (f i) (strip lj) (strip li) g);
      [done|lia| | | |]; rewrite ?list_lookup_fmap, ?Hi, ?Hj; done.
Qed.

Example duplicate_group_always_rejected_witness :
  parse_point_file ["1-1 50" +:+ nl; "0-1 50" +:+ nl]
  = Raise (LioLoaderException DUPLICATED).
Proof.
  apply (duplicate_group_always_rejected
           ["0-1 50" +:+ nl; "1-1 50" +:+ nl] _ 0 1
           ("0-1 50" +:+ nl) ("1-1 50" +:+ nl) 1).
  - intros line [->|[->|[]%elem_of_nil]%elem_of_cons]%elem_of_cons;
      eexists; vm_compute; reflexivity.
  - lia.
  - reflexivity.
  - reflexivity.
  - exists 0, 1, 50. split; [vm_compute; reflexivity|lia].
  - exists 1, 1, 50. split; [vm_compute; reflexivity|lia].
  - apply perm_swap.
Defined.

(** ** Lines with fewer than three tokens *)

Lemma lstrip_blank (s : string) : all_chars isspace s = true → lstrip s = "".
Proof.
  induction s as [|c s IH]; simpl; [done|].
  intros [Hc Hs]%andb_prop. rewrite Hc. by apply IH.
Qed.

Lemma strip_blank (s : string) : all_chars isspace s = true → strip s = "".
Proof. intros Hs. unfold strip. by rewrite lstrip_blank. Qed.

(** What the loop of [parse_point_file] does at a line, when the lines
    before it raised nothing. *)
Lemma parse_point_file_raises_at (pre post : list string) (line : string)
    (d : gmap Z Z) (e : exn) :
  read_points pre = Ok d → process_line d (strip line) = Raise e →
  parse_point_file (pre ++ line :: post) = Raise e.
Proof.
  unfold parse_point_file, read_points. intros Hpre Hline.
  rewrite fmap_app, foldM_app, Hpre. simpl. by rewrite Hline.
Qed.

(** A file with a blank line does not always end with [IndexError]: a
    group given twice before the blank line raises the duplicate-group
    exception, a [LioLoaderException], and a token that is no integer
    raises [ValueError]. *)
Example blank_line_behind_defect_counterexample :
  all_chars isspace nl = true
  ∧ parse_point_file ["0-0 50" +:+ nl; "0-0 50" +:+ nl; nl]
    = Raise (LioLoaderException DUPLICATED)
  ∧ parse_point_file ["zz" +:+ nl; nl] = Raise ValueError.
Proof. split_and!; vm_compute; reflexivity. Qed.

(** C10 (amended).  A blank or whitespace-only line of the point file
    leaves an empty token list, and the file is never parsed successfully:
    blank lines are not skipped.  When the lines before it were read
    without an exception, [parse_point_file] raises [IndexError] at that
    line (not a [LioLoaderException]). *)
Theorem blank_line_index_error (pre post : list string) (line : string) :
  all_chars isspace line = true →
  split (replace_dash (strip line)) = []
  ∧ (∀ d, parse_point_file (pre ++ line :: post) ≠ Ok d)
  ∧ (∀ d, read_points pre = Ok d →
          parse_point_file (pre ++ line :: post) = Raise IndexError).
Proof.
  intros Hblank. pose proof (strip_blank line Hblank) as Hstrip.
  assert (Hraise : ∀ d, read_points pre = Ok d →
            parse_point_file (pre ++ line :: post) = Raise IndexError).
  { intros d Hd. apply (parse_point_file_raises_at _ _ _ d); [done|].
    by rewrite Hstrip. }
  split_and!; [by rewrite Hstrip|  |done].
  intros d Hd. destruct (read_points pre) as [d0|e] eqn:Hpre.
  - rewrite (Hraise d0) in Hd; done.
  - unfold parse_point_file, read_points in Hd, Hpre.
    rewrite fmap_app, foldM_app, Hpre in Hd. done.
Qed.

Example blank_line_index_error_witness :
  parse_point_file ["0-0 100" +:+ nl; nl; "1-1 0" +:+ nl] = Raise IndexError.
Proof.
  destruct (blank_line_index_error ["0-0 100" +:+ nl] ["1-1 0" +:+ nl] nl)
    as (_ & _ & Hfile); [reflexivity|].
  apply (Hfile {[0 := 100]}). vm_compute. reflexivity.
Defined.




(** ** Member names and the pattern *)

Ltac ascii_cases c := destruct c as [[] [] [] [] [] [] [] []].

Lemma append_nil (s : string) : "" +:+ s = s.
Proof. done. Qed.

Lemma append_cons (c : ascii) (s t : string) :
  String c s +:+ t = String c (s +:+ t).
Proof. done. Qed.

Lemma all_chars_app (p : ascii → bool) (s t : string) :
  all_chars p (s +:+ t) = all_chars p s && all_chars p t.
Proof.
  induction s as [|c s IH]; [done|].
  rewrite append_cons. simpl. by rewrite IH, andb_assoc.
Qed.

Lemma all_chars_impl (p q : ascii → bool) (s : string) :
  (∀ c, p c = true → q c = true) →
  all_chars p s = true → all_chars q s = true.
Proof.
  intros Hpq. induction s as [|c s IH]; simpl; [done|].
  intros [Hc Hs]%andb_prop. by rewrite (Hpq c Hc), IH.
Qed.

Lemma contains_app (c : ascii) (s t : string) :
  contains c (s +:+ t) = contains c s || contains c t.
Proof.
  induction s as [|c' s IH]; [done|].
  rewrite append_cons. simpl. by rewrite IH, orb_assoc.
Qed.

Lemma all_chars_contains (p : ascii → bool) (c : ascii) (s : string) :
  p c = false → all_chars p s = true → contains c s = false.
Proof.
  intros Hc. induction s as [|c' s IH]; simpl; [done|].
  intros [Hc' Hs]%andb_prop. rewrite (IH Hs), orb_false_r.
  apply bool_decide_eq_false. intros ->. congruence.
Qed.

Lemma span_spec (p : ascii → bool) (s a b : string) :
  span p s = (a, b) → s = a +:+ b ∧ all_chars p a = true ∧ stops p b.
Proof.
  revert a b. induction s as [|c s IH]; intros a b; simpl.
  - by intros [= <- <-].
  - destruct (p c) eqn:Hc.
    + destruct (span p s) as [a' b']. intros [= <- <-].
      destruct (IH a' b' eq_refl) as (-> & Ha & Hb).
      rewrite append_cons. simpl. by rewrite Hc, Ha.
    + intros [= <- <-]. by rewrite append_nil.
Qed.

Lemma span_app (p : ascii → bool) (a b : string) :
  all_chars p a = true → stops p b → span p (a +:+ b) = (a, b).
Proof.
  intros Ha Hb. induction a as [|c a IH].
  - rewrite append_nil. destruct b as [|c b]; simpl in *; [done|].
    by rewrite Hb.
  - simpl in Ha. apply andb_prop in Ha as [Hc Ha].
    rewrite append_cons. simpl. by rewrite Hc, (IH Ha).
Qed.

Lemma at_end_spec (s : string) : at_end s = true ↔ s = "" ∨ s = nl.
Proof. unfold at_end. apply bool_decide_eq_true. Qed.

Lemma match_here_sound (s : string) (m : Match) :
  match_here s = Some m →
  ∃ d digits letters tail,
    s = String "." (String d (digits +:+ letters +:+ tail))
    ∧ (d = "i" ∨ d = "o")%char
    ∧ digits ≠ "" ∧ all_chars isdigit digits = true
    ∧ all_chars islower_az letters = true
    ∧ (tail = "" ∨ tail = nl)
    ∧ m = {| group1 := String d ""; group2 := digits; group3 := letters |}.
Proof.
  destruct s as [|c [|d rest]]; [done| |].
  { ascii_cases c; done. }
  assert (c = "."%char ∨ match_here (String c (String d rest)) = None)
    as [-> | ->]; [ascii_cases c; auto| |done].
  simpl. case_bool_decide as Hd; [|done].
  destruct (span isdigit rest) as [digits r1] eqn:Hdigits.
  destruct (span islower_az r1) as [letters tail] eqn:Hletters.
  apply span_spec in Hdigits as (-> & Hdigits & _).
  apply span_spec in Hletters as (-> & Hletters & _).
  destruct (bool_decide (digits ≠ "")) eqn:Hne; [|done].
  destruct (at_end tail) eqn:Htail; [|done].
  apply bool_decide_eq_true in Hne. apply at_end_spec in Htail.
  intros [= <-]. by exists d, digits, letters, tail.
Qed.

Lemma isdigit_not_lower (c : ascii) : isdigit c = true → islower_az c = false.
Proof. ascii_cases c; done. Qed.

Lemma match_here_complete (d : ascii) (digits letters tail : string) :
  (d = "i" ∨ d = "o")%char →
  digits ≠ "" → all_chars isdigit digits = true →
  all_chars islower_az letters = true →
  tail = "" ∨ tail = nl →
  match_here (String "." (String d (digits +:+ letters +:+ tail)))
  = Some {| group1 := String d ""; group2 := digits; group3 := letters |}.
Proof.
  intros Hd Hne Hdigits Hletters Htail. simpl.
  rewrite bool_decide_eq_true_2 by done.
  assert (stops islower_az tail) by (by destruct Htail as [-> | ->]).
  assert (stops isdigit tail) by (by destruct Htail as [-> | ->]).
  rewrite (span_app isdigit digits (letters +:+ tail)); [|done|].
  - rewrite (span_app islower_az letters tail) by done.
    rewrite bool_decide_eq_true_2 by done.
    by rewrite (proj2 (at_end_spec tail) Htail).
  - destruct letters as [|c letters]; [by rewrite append_nil|].
    rewrite append_cons. simpl in *.
    apply andb_prop in Hletters as [Hc _].
    destruct (isdigit c) eqn:Hdc; [|done].
    apply isdigit_not_lower in Hdc. congruence.
Qed.

Lemma search_sound (s : string) (m : Match) :
  search s = Some m → matches_pattern s m.
Proof.
  induction s as [|c s IH].
  - intros Hm. simpl in Hm. done.
  - intros Hm. unfold search in Hm. fold search in Hm.
    destruct (match_here (String c s)) as [m'|] eqn:Hhere.
    + injection Hm as ->.
      apply match_here_sound in Hhere
        as (d & digits & letters & tail & Hs & Hrest).
      exists "", d, digits, letters, tail. by rewrite append_nil.
    + destruct (IH Hm) as (base & d & digits & letters & tail & -> & Hrest).
      exists (String c base), d, digits, letters, tail.
      by rewrite append_cons.
Qed.

(** No match starts before the dot of a match: what a match covers after
    its own dot holds no dot. *)
Lemma search_complete (s : string) (m : Match) :
  matches_pattern s m → search s = Some m.
Proof.
  intros (base & d & digits & letters & tail & -> & _ & Hd & Hne & Hdigits
          & Hletters & Htail & ->).
  induction base as [|c base IH].
  - rewrite append_nil. unfold search. fold search.
    by rewrite match_here_complete.
  - rewrite append_cons. unfold search. fold search.
    destruct (match_here _) as [m'|] eqn:Hhere; [exfalso|done].
    apply match_here_sound in Hhere
      as (d' & digits' & letters' & tail' & Hs & Hd' & _ & Hdigits'
          & Hletters' & Htail' & _).
    injection Hs as _ Hs.
    assert (Hdot : contains "." (base +:+
              String "." (String d (digits +:+ letters +:+ tail))) = true).
    { rewrite contains_app. simpl. apply orb_true_r. }
    rewrite Hs in Hdot. simpl in Hdot. rewrite !contains_app in Hdot.
    rewrite (all_chars_contains isdigit "." digits') in Hdot by done.
    rewrite (all_chars_contains islower_az "." letters') in Hdot by done.
    assert (contains "." tail' = false) as Htl
      by (by destruct Htail' as [-> | ->]).
    rewrite Htl in Hdot.
    by destruct Hd' as [-> | ->].
Qed.

Lemma search_None (s : string) :
  search s = None ↔ ¬ ∃ m, matches_pattern s m.
Proof.
  split.
  - intros Hs [m Hm%search_complete]. congruence.
  - intros Hno. destruct (search s) as [m|] eqn:Hs; [|done].
    destruct Hno. exists m. by apply search_sound.
Qed.

(** [int] of a string of digits. *)
Lemma isdigit_not_space (c : ascii) : isdigit c = true → isspace c = false.
Proof. ascii_cases c; done. Qed.

Lemma rstrip_no_space (s : string) :
  all_chars (λ c, negb (isspace c)) s = true → rstrip s = s.
Proof.
  induction s as [|c s IH]; simpl; [done|].
  intros [Hc Hs]%andb_prop. rewrite (IH Hs).
  destruct s; [|done]. by apply negb_true_iff in Hc as ->.
Qed.

Lemma strip_digits (s : string) : all_chars isdigit s = true → strip s = s.
Proof.
  intros Hs. unfold strip.
  assert (lstrip s = s) as ->.
  { destruct s as [|c s]; simpl in *; [done|].
    apply andb_prop in Hs as [Hc _]. by rewrite isdigit_not_space. }
  apply rstrip_no_space. eapply all_chars_impl; [|done].
  intros c Hc. by rewrite isdigit_not_space.
Qed.

Lemma digit_value_nonneg (c : ascii) (v : Z) :
  digit_value c = Some v → 0 ≤ v.
Proof.
  unfold digit_value.
  destruct ((48 <=? N_of_ascii c)%N && _) eqn:Hc; [|done].
  apply andb_prop in Hc as [Hlo%N.leb_le _]. intros [= <-]. lia.
Qed.

Lemma int_digits_digits (s : string) (acc : Z) (prev : bool) :
  all_chars isdigit s = true → s ≠ "" ∨ prev = true → 0 ≤ acc →
  ∃ z, int_digits acc prev s = Some z ∧ 0 ≤ z.
Proof.
  revert acc prev. induction s as [|c s IH]; intros acc prev Hs Hne Hacc.
  - destruct Hne as [|Hprev]; [done|]. rewrite Hprev. by exists acc.
  - simpl in *. apply andb_prop in Hs as [Hc Hs].
    apply bool_decide_eq_true in Hc as [v Hv]. rewrite Hv.
    apply IH; [done|by right|].
    pose proof (digit_value_nonneg c v Hv). lia.
Qed.

Lemma count_digits_digits (s : string) :
  all_chars isdigit s = true → count_digits s = String.length s.
Proof.
  induction s as [|c s IH]; simpl; [done|].
  intros [-> Hs]%andb_prop. by rewrite IH.
Qed.

(** A string of digits is converted to a non-negative integer, unless it
    has more digits than the limit. *)
Lemma int_digits_string (s : string) :
  all_chars isdigit s = true → s ≠ "" →
  ∃ z, 0 ≤ z
       ∧ int s = if (String.length s <=? int_max_str_digits)%nat then Ok z
                 else Raise ValueError.
Proof.
  intros Hs Hne. unfold int. rewrite (strip_digits s Hs).
  rewrite (count_digits_digits s Hs).
  destruct (int_digits_digits s 0 false Hs) as (z & Hz & Hpos); [by left|done|].
  exists z. split; [done|].
  destruct s as [|c s]; [done|]. simpl in Hs.
  apply andb_prop in Hs as [Hc _].
  assert (c ≠ "+"%char ∧ c ≠ "-"%char) as [Hplus Hminus]
    by (split; intros ->; done).
  assert (match String c s with
          | String "+" r => int_digits 0 false r
          | String "-" r => Z.opp <$> int_digits 0 false r
          | _ => int_digits 0 false (String c s)
          end = int_digits 0 false (String c s)) as ->.
  { clear -Hplus Hminus. ascii_cases c; done. }
  by rewrite Hz.
Qed.

Lemma slot_insert (test_files : gmap Z (gmap string Bucket)) (group : Z)
    (label : string) (bucket : Bucket) (group' : Z) (label' : string)
    (is_input : bool) :
  slot (<[group := <[label := bucket]> (default ∅ (test_files !! group))]>
          test_files) group' label' is_input
  = if decide (group = group' ∧ label = label')
    then (if is_input then input bucket else output bucket)
    else slot test_files group' label' is_input.
Proof.
  unfold slot. destruct (decide (group = group')) as [<-|Hg].
  - rewrite lookup_insert_eq. simpl.
    destruct (decide (label = label')) as [<-|Hl].
    + rewrite lookup_insert_eq. simpl. by rewrite decide_True.
    + rewrite lookup_insert_ne by done. rewrite decide_False by tauto.
      destruct (test_files !! group); simpl; [done|].
      by rewrite lookup_empty.
  - rewrite lookup_insert_ne by done. by rewrite decide_False by tauto.
Qed.

Lemma slot_default (test_files : gmap Z (gmap string Bucket)) (group : Z)
    (label : string) (is_input : bool) :
  slot test_files group label is_input
  = (if is_input then input else output)
      (default {| input := None; output := None |}
               (default ∅ (test_files !! group) !! label)).
Proof.
  unfold slot. destruct (test_files !! group) as [of_group|]; simpl.
  - destruct (of_group !! label); simpl; by destruct is_input.
  - rewrite lookup_empty. by destruct is_input.
Qed.

Lemma search_int (s : string) (m : Match) :
  search s = Some m →
  ∃ z, 0 ≤ z
       ∧ int (group2 m)
         = if (String.length (group2 m) <=? int_max_str_digits)%nat
           then Ok z else Raise ValueError.
Proof.
  intros (base & d & digits & letters & tail & _ & _ & _ & Hne & Hdigits
          & _ & _ & ->)%search_sound.
  by apply int_digits_string.
Qed.

(** One step of the first loop, on a flat name that matches. *)
Lemma collect_file_classified (task : string)
    (test_files : gmap Z (gmap string Bucket)) (n : string)
    (is_input : bool) (group : Z) (label : string) :
  flat n → classify n = Some (is_input, group, label) →
  ∃ test_files', collect_file task test_files n = Ok test_files'
    ∧ ∀ group' label' is_input',
        slot test_files' group' label' is_input'
        = if decide (group = group' ∧ label = label' ∧ is_input = is_input')
          then Some n else slot test_files group' label' is_input'.
Proof.
  intros [Hslash Hback] Hclass. unfold classify in Hclass.
  unfold collect_file. rewrite Hslash, Hback. simpl.
  destruct (search n) as [m|]; [|done]. simpl in Hclass.
  destruct (int (group2 m)) as [g|]; [|done]. injection Hclass as <- <- <-.
  simpl. eexists. split; [done|].
  intros group' label' is_input'. rewrite slot_insert.
  destruct (decide (g = group' ∧ group3 m = label')) as [[<- <-]|Hne].
  - destruct (bool_decide (group1 m = "i")), is_input'; simpl;
      first [by rewrite decide_True
            |rewrite decide_False by (by intros (_ & _ & [=]));
             by rewrite slot_default].
  - by rewrite decide_False by (intros (? & ? & _); tauto).
Qed.

Lemma classify_matches (n : string) (m : Match) :
  matches_pattern n m →
  (String.length (group2 m) ≤ int_max_str_digits)%nat →
  ∃ group, int (group2 m) = Ok group ∧ 0 ≤ group
           ∧ classify n = Some (bool_decide (group1 m = "i"), group, group3 m).
Proof.
  intros Hm%search_complete Hlen%Nat.leb_le.
  destruct (search_int n m Hm) as (g & Hpos & Hg). rewrite Hlen in Hg.
  exists g. unfold classify. rewrite Hm. simpl. by rewrite Hg.
Qed.

(** A matching name whose digit run is longer than the limit: [int] raises
    [ValueError], and so does the body of the loop. *)
Lemma collect_file_too_long (task : string)
    (test_files : gmap Z (gmap string Bucket)) (n : string) (m : Match) :
  flat n → matches_pattern n m →
  (int_max_str_digits < String.length (group2 m))%nat →
  int (group2 m) = Raise ValueError
  ∧ collect_file task test_files n = Raise ValueError.
Proof.
  intros [Hslash Hback] Hm%search_complete Hlen%Nat.leb_gt.
  destruct (search_int n m Hm) as (g & _ & Hg). rewrite Hlen in Hg.
  split; [done|]. unfold collect_file. rewrite Hslash, Hback, Hm. simpl.
  by rewrite Hg.
Qed.

(** The member [.i01] has an empty base name: it does not match the pattern
    that starts with [^.+], yet no error is raised for it; it is taken as
    the input of group 1 with the empty sub-index label. *)
Example empty_base_name_counterexample :
  flat ".i01"
  ∧ (¬ ∃ m, matches_spec_pattern ".i01" m)
  ∧ collect_file "task" ∅ ".i01"
    = Ok {[ 1 := {[ "" := {| input := Some ".i01"; output := None |} ]} ]}
  ∧ collect_file "task" ∅ ".i01"
    ≠ Raise (LioLoaderException (UNSUPPORTED "task")).
Proof.
  split_and!; [done| |vm_compute; reflexivity|by vm_compute].
  intros (m & base & d & digits & letters & tail & Hs & [Hne _] & _).
  destruct base as [|c0 [|c1 [|c2 [|c3 [|c4 base]]]]];
    [done|by injection Hs..].
Qed.

(** C4 (amended).  For every member name without a path separator, the
    loop raises the "Unsupported file" exception if and only if the name
    does not match the pattern of the source, searched anywhere in the
    name: a base name that may be empty, a dot, [i] or [o], one or more
    digits, zero or more letters of [[a-z]], the end of the name.  A
    matching name whose digit run is within the limit of [int] is put into
    the bucket side (direction, group, sub-index) given by the three
    groups, which are unique; for a longer digit run [int] raises
    [ValueError].  The names matching the pattern with [^.+] in front are
    among the matching ones. *)
Theorem unsupported_file_iff_no_match (task : string)
    (test_files : gmap Z (gmap string Bucket)) (n : string) :
  flat n →
  (collect_file task test_files n
     = Raise (LioLoaderException (UNSUPPORTED task))
   ↔ ¬ ∃ m, matches_pattern n m)
  ∧ (∀ m, matches_pattern n m →
       (String.length (group2 m) ≤ int_max_str_digits)%nat →
       ∃ group test_files',
         int (group2 m) = Ok group
         ∧ collect_file task test_files n = Ok test_files'
         ∧ slot test_files' group (group3 m) (bool_decide (group1 m = "i"))
           = Some n)
  ∧ (∀ m, matches_pattern n m →
       (int_max_str_digits < String.length (group2 m))%nat →
       collect_file task test_files n = Raise ValueError)
  ∧ (∀ m m', matches_pattern n m → matches_pattern n m' → m = m')
  ∧ (∀ m, matches_spec_pattern n m → matches_pattern n m).
Proof.
  intros Hflat. split_and!.
  - rewrite <-search_None. split.
    + intros Hraise. destruct (search n) as [m|] eqn:Hs; [exfalso|done].
      apply search_sound in Hs.
      destruct (decide (String.length (group2 m) ≤ int_max_str_digits)%nat)
        as [Hlen|Hlen].
      * destruct (classify_matches n m Hs Hlen) as (g & _ & _ & Hclass).
        destruct (collect_file_classified task test_files n _ _ _ Hflat Hclass)
          as (tf' & Htf' & _). congruence.
      * destruct (collect_file_too_long task test_files n m Hflat Hs)
          as [_ Hlong]; [lia|congruence].
    + intros Hs. destruct Hflat as [Hslash Hback].
      unfold collect_file. by rewrite Hslash, Hback, Hs.
  - intros m Hm Hlen.
    destruct (classify_matches n m Hm Hlen) as (g & Hg & _ & Hclass).
    destruct (collect_file_classified task test_files n _ _ _ Hflat Hclass)
      as (tf' & Htf' & Hslot).
    exists g, tf'. split_and!; [done..|].
    rewrite Hslot. by rewrite decide_True.
  - intros m Hm Hlen.
    by destruct (collect_file_too_long task test_files n m Hflat Hm Hlen).
  - intros m m' Hm%search_complete Hm'%search_complete. congruence.
  - intros m (base & d & digits & letters & tail & Hs & _ & Hrest).
    by exists base, d, digits, letters, tail.
Qed.

Example unsupported_file_iff_no_match_witness :
  ∃ test_files',
    collect_file "task" ∅ "a.b.o12abc" = Ok test_files'
    ∧ slot test_files' 12 "abc" false = Some "a.b.o12abc".
Proof.
  destruct (unsupported_file_iff_no_match "task" ∅ "a.b.o12abc")
    as (_ & Hclass & _); [done|].
  destruct (Hclass {| group1 := "o"; group2 := "12"; group3 := "abc" |})
    as (group & tf' & Hgroup & Htf' & Hslot).
  { exists "a.b", "o"%char, "12", "abc", "".
    split_and!; [reflexivity|done|by right|done|reflexivity|reflexivity
                |by left|reflexivity]. }
  { unfold int_max_str_digits. simpl. lia. }
  exists tf'. vm_compute in Hgroup. injection Hgroup as <-.
  split; [done|exact Hslot].
Defined.

(** ** Members that fall into the same bucket side *)

(** One step of the first loop: the side that the name classifies to is
    overwritten with the name, every other side is left as it was. *)
Lemma collect_file_step (task : string)
    (test_files : gmap Z (gmap string Bucket)) (n : string) :
  flat n → is_Some (classify n) →
  ∃ test_files', collect_file task test_files n = Ok test_files'
    ∧ ∀ group label is_input,
        slot test_files' group label is_input
        = if decide (classify n = Some (is_input, group, label))
          then Some n else slot test_files group label is_input.
Proof.
  intros Hflat [[[i g] l] Hclass].
  destruct (collect_file_classified task test_files n _ _ _ Hflat Hclass)
    as (tf' & Htf' & Hslot).
  exists tf'. split; [done|]. intros group label is_input.
  rewrite Hslot, Hclass.
  destruct (decide (g = group ∧ l = label ∧ i = is_input))
    as [(<- & <- & <-)|Hne].
  - by rewrite decide_True.
  - rewrite decide_False; [done|]. intros [= ? ? ?]. tauto.
Qed.

(** Only a flat name that classifies passes the body of the loop. *)
Lemma collect_file_Ok_flat (task : string)
    (test_files test_files' : gmap Z (gmap string Bucket)) (n : string) :
  collect_file task test_files n = Ok test_files' →
  flat n ∧ is_Some (classify n).
Proof.
  unfold collect_file, flat, classify.
  destruct (contains "/" n), (contains "\" n); try done.
  destruct (search n) as [m|]; [|done]. simpl.
  by destruct (int (group2 m)).
Qed.

(** A member of the list leaves its bucket in [test_files]. *)
Lemma collect_test_files_member (task : string) (names : list string)
    (test_files : gmap Z (gmap string Bucket))
    (n : string) (is_input : bool) (group : Z) (label : string) :
  collect_test_files task names = Ok test_files →
  n ∈ names → classify n = Some (is_input, group, label) →
  is_Some (test_files !! group).
Proof.
  intros Htf Hn Hclass.
  assert (is_Some (slot test_files group label is_input)) as [x Hx].
  { revert test_files Htf Hn. unfold collect_test_files.
    induction names as [|n' names IH] using rev_ind; intros tf Htf Hn.
    { by apply elem_of_nil in Hn. }
    rewrite foldM_app in Htf.
    apply bind_Ok in Htf as (tf1 & Htf1 & (tf2 & Hstep & [= <-])%bind_Ok).
    destruct (collect_file_Ok_flat _ _ _ _ Hstep) as [Hflat Hsearch].
    destruct (collect_file_step task tf1 n' Hflat Hsearch)
      as (tf' & Htf' & Hslot).
    rewrite Htf' in Hstep. injection Hstep as ->. rewrite Hslot.
    destruct (decide (classify n' = _)) as [|Hne]; [done|].
    apply elem_of_app in Hn as [Hn|Hn]; [by apply IH|].
    apply list_elem_of_singleton in Hn as ->. by destruct Hne. }
  unfold slot in Hx. destruct (test_files !! group); [done|]. by simpl in Hx.
Qed.

(** C9.  The first loop raises nothing exactly when every name is flat
    and classifies, also when several names classify to the same (group,
    sub-index, direction); and whenever the loop ends, each side of each
    bucket holds the last name of the member list that classifies to it
    (e.g. of [a.i01] and [b.i01], the later one): an earlier name is
    overwritten and not kept anywhere. *)
Theorem later_member_overwrites (task : string) (names : list string) :
  ((∀ n, n ∈ names → flat n ∧ is_Some (classify n)) ↔
     ∃ test_files, collect_test_files task names = Ok test_files)
  ∧ (∀ test_files, collect_test_files task names = Ok test_files →
       ∀ group label is_input,
         slot test_files group label is_input
         = last (filter (λ n, classify n = Some (is_input, group, label))
                        names)).
Proof.
  unfold collect_test_files. induction names as [|n names IH] using rev_ind.
  - split; [split; [by exists ∅|by intros _ n ?%elem_of_nil]|].
    intros tf [= <-] group label is_input.
    unfold slot. by rewrite lookup_empty.
  - destruct IH as [IHok IHslot]. rewrite foldM_app. simpl. split; [split|].
    + intros Hall.
      destruct (proj1 IHok) as [tf Htf].
      { intros n' Hn'. apply Hall, elem_of_app. by left. }
      rewrite Htf. simpl.
      destruct (Hall n) as [Hflat Hclass];
        [apply elem_of_app; right; apply list_elem_of_here|].
      destruct (collect_file_step task tf n Hflat Hclass) as (tf' & -> & _).
      by exists tf'.
    + intros [tf' Htf'].
      destruct (foldM (collect_file task) ∅ names) as [tf|] eqn:Htf; [|done].
      simpl in Htf'.
      destruct (collect_file task tf n) as [tf1|] eqn:Hstep; [|done].
      intros n' [Hn'|Hn']%elem_of_app.
      * apply (proj2 IHok); [by exists tf|done].
      * apply list_elem_of_singleton in Hn' as ->.
        by apply (collect_file_Ok_flat _ _ _ _ Hstep).
    + intros tf' Htf' group label is_input.
      destruct (foldM (collect_file task) ∅ names) as [tf|] eqn:Htf; [|done].
      simpl in Htf'.
      destruct (collect_file task tf n) as [tf1|] eqn:Hstep; [|done].
      injection Htf' as ->.
      destruct (collect_file_Ok_flat _ _ _ _ Hstep) as [Hflat Hclass].
      destruct (collect_file_step task tf n Hflat Hclass)
        as (tf'' & Htf'' & Hslot).
      rewrite Htf'' in Hstep. injection Hstep as ->.
      rewrite Hslot, filter_app, (IHslot tf eq_refl).
      rewrite filter_cons, filter_nil.
      destruct (decide (classify n = _)).
      * by rewrite last_snoc.
      * by rewrite app_nil_r.
Qed.

Example later_member_overwrites_witness :
  ∃ test_files,
    collect_test_files "task" ["a.i01"; "b.i01"] = Ok test_files
    ∧ slot test_files 1 "" true = Some "b.i01".
Proof.
  destruct (later_member_overwrites "task" ["a.i01"; "b.i01"])
    as [Hok Hslot].
  destruct (proj1 Hok) as [tf Htf].
  { intros n [->|[->|[]%elem_of_nil]%elem_of_cons]%elem_of_cons;
      (split; [done|eexists; vm_compute; reflexivity]). }
  exists tf. split; [done|]. rewrite (Hslot tf Htf). vm_compute. reflexivity.
Defined.

(** ** The extraction loop *)

Arguments extract_test : simpl never.
Arguments extract_group : simpl never.

Lemma foldM_invariant {A B : Type} (P : B → Prop) (f : B → A → result B)
    (l : list A) (b b' : B) :
  (∀ b x b', x ∈ l → P b → f b x = Ok b' → P b') →
  P b → foldM f b l = Ok b' → P b'.
Proof.
  revert b. induction l as [|x l IH]; intros b Hstep Hb; simpl.
  - by intros [= <-].
  - intros (b1 & Hx & Hl)%bind_Ok. apply (IH b1); [|by eauto using list_elem_of_here|done].
    intros b2 y b3 Hy. apply Hstep. by right.
Qed.

Lemma increment_in_range (l : list Z) (i : Z) :
  0 ≤ i < Z.of_nat (length l) →
  ∃ x, l !! Z.to_nat i = Some x
       ∧ increment l i = Ok (<[Z.to_nat i := x + 1]> l).
Proof.
  intros Hi. unfold increment, list_position. rewrite decide_True by done.
  simpl. destruct (lookup_lt_is_Some_2 l (Z.to_nat i)) as [x Hx]; [lia|].
  exists x. split; [done|]. unfold index. by rewrite Hx.
Qed.

(** An index at or beyond the length of the list: [IndexError]. *)
Lemma increment_beyond (l : list Z) (i : Z) :
  Z.of_nat (length l) ≤ i → increment l i = Raise IndexError.
Proof.
  intros Hi. unfold increment, list_position.
  rewrite decide_False by lia. by rewrite decide_False by lia.
Qed.

Lemma increment_length (l l' : list Z) (i : Z) :
  increment l i = Ok l' → length l' = length l.
Proof.
  unfold increment. intros (k & _ & (x & _ & [= <-])%bind_Ok)%bind_Ok.
  apply length_insert.
Qed.

Lemma extract_test_readable (c : Conf) (width : nat) (group : Z)
    (of_group : gmap string Bucket) (counts : list Z)
    (tcs : gmap string Testcase) (label : string) (bucket : Bucket) :
  0 ≤ group < Z.of_nat (length counts) →
  of_group !! label = Some bucket → readable c bucket →
  ∃ x tc, counts !! Z.to_nat group = Some x
    ∧ codename tc = format_zero width group +:+ label
    ∧ extract_test c width group of_group (counts, tcs) label
      = Ok (<[Z.to_nat group := x + 1]> counts, <[codename tc := tc]> tcs).
Proof.
  intros Hgroup Hbucket (i & o & ci & co & Hi & Ho & Hci & Hco).
  destruct (increment_in_range counts group Hgroup) as (x & Hx & Hincr).
  exists x. unfold extract_test. rewrite Hincr, Hbucket. simpl.
  rewrite Hi, Ho, Hci. simpl. rewrite Hco. simpl.
  by eexists {| codename := _ |}.
Qed.

Lemma extract_test_beyond (c : Conf) (width : nat) (group : Z)
    (of_group : gmap string Bucket) (counts : list Z)
    (tcs : gmap string Testcase) (label : string) :
  Z.of_nat (length counts) ≤ group →
  extract_test c width group of_group (counts, tcs) label = Raise IndexError.
Proof.
  intros Hgroup. unfold extract_test. by rewrite increment_beyond.
Qed.

Lemma extract_test_inv (c : Conf) (width : nat) (group : Z)
    (of_group : gmap string Bucket) (counts counts' : list Z)
    (tcs tcs' : gmap string Testcase) (label : string) :
  extract_test c width group of_group (counts, tcs) label = Ok (counts', tcs') →
  increment counts group = Ok counts'
  ∧ ∃ tc, codename tc = format_zero width group +:+ label
          ∧ tcs' = <[codename tc := tc]> tcs.
Proof.
  unfold extract_test.
  intros (counts1 & Hincr & (bucket & _ & Hrest)%bind_Ok)%bind_Ok.
  destruct (input bucket) as [i|]; [|done].
  destruct (output bucket) as [o|]; [|done].
  apply bind_Ok in Hrest as (ci & _ & (co & _ & [= <- <-])%bind_Ok).
  split; [done|]. by eexists {| codename := _ |}.
Qed.

Lemma elem_of_keys {K V : Type} `{Countable K} (d : gmap K V) (k : K) :
  k ∈ keys d ↔ is_Some (d !! k).
Proof.
  unfold keys. rewrite list_elem_of_fmap. split.
  - intros ([k' v] & -> & Hkv%elem_of_map_to_list). by exists v.
  - intros [v Hv]. exists (k, v). by rewrite elem_of_map_to_list.
Qed.

Lemma elem_of_sorted_groups {V : Type} (d : gmap Z V) (g : Z) :
  g ∈ sorted_groups d ↔ is_Some (d !! g).
Proof. unfold sorted_groups. by rewrite merge_sort_Permutation, elem_of_keys. Qed.

Lemma elem_of_sorted_labels {V : Type} (d : gmap string V) (label : string) :
  label ∈ sorted_labels d ↔ is_Some (d !! label).
Proof. unfold sorted_labels. by rewrite merge_sort_Permutation, elem_of_keys. Qed.

Lemma keyed_by_codename_insert (tcs : gmap string Testcase) (tc : Testcase) :
  keyed_by_codename tcs → keyed_by_codename (<[codename tc := tc]> tcs).
Proof.
  intros Htcs key tc'. rewrite lookup_insert_Some.
  intros [[<- <-]|[_ Hkey]]; [done|by apply Htcs].
Qed.

(** The inner loop adds the codenames of the labels it runs over. *)
Lemma extract_labels_keys (c : Conf) (width : nat) (group : Z)
    (of_group : gmap string Bucket) (labels : list string)
    (counts counts' : list Z) (tcs tcs' : gmap string Testcase) :
  foldM (extract_test c width group of_group) (counts, tcs) labels
    = Ok (counts', tcs') →
  (keyed_by_codename tcs → keyed_by_codename tcs')
  ∧ ∀ key, is_Some (tcs' !! key)
           ↔ is_Some (tcs !! key)
             ∨ ∃ label, label ∈ labels ∧ key = codename_of width group label.
Proof.
  revert counts tcs. induction labels as [|label labels IH]; intros counts tcs.
  - intros [= <- <-]. split; [done|]. intros key. split; [by left|].
    intros [|(label & []%elem_of_nil & _)]; done.
  - simpl. intros ([counts1 tcs1] & Hstep & Hrest)%bind_Ok.
    apply extract_test_inv in Hstep as (_ & tc & Htc & ->).
    destruct (IH _ _ Hrest) as [Hkeyed Hkeys]. split.
    + intros Htcs. by apply Hkeyed, keyed_by_codename_insert.
    + intros key. rewrite Hkeys, lookup_insert_is_Some', Htc.
      unfold codename_of. setoid_rewrite elem_of_cons. naive_solver.
Qed.

(** The outer loop adds the codenames of the buckets of the groups it runs
    over. *)
Lemma extract_groups_keys (c : Conf) (width : nat)
    (test_files : gmap Z (gmap string Bucket)) (groups : list Z)
    (counts counts' : list Z) (tcs tcs' : gmap string Testcase) :
  foldM (extract_group c width test_files) (counts, tcs) groups
    = Ok (counts', tcs') →
  (keyed_by_codename tcs → keyed_by_codename tcs')
  ∧ ∀ key, is_Some (tcs' !! key)
           ↔ is_Some (tcs !! key)
             ∨ ∃ group of_group label,
                 group ∈ groups ∧ test_files !! group = Some of_group
                 ∧ is_Some (of_group !! label)
                 ∧ key = codename_of width group label.
Proof.
  revert counts tcs. induction groups as [|group groups IH]; intros counts tcs.
  - intros [= <- <-]. split; [done|]. intros key. split; [by left|].
    intros [|(g & og & label & []%elem_of_nil & _)]; done.
  - simpl. intros ([counts1 tcs1] & Hstep & Hrest)%bind_Ok.
    unfold extract_group, getitem in Hstep.
    destruct (test_files !! group) as [of_group|] eqn:Hgroup; [|done].
    simpl in Hstep. apply extract_labels_keys in Hstep as [Hkeyed1 Hkeys1].
    destruct (IH _ _ Hrest) as [Hkeyed Hkeys]. split; [by auto|].
    intros key. rewrite Hkeys, Hkeys1. setoid_rewrite elem_of_cons.
    setoid_rewrite elem_of_sorted_labels. split.
    + intros [[?|(label & ? & ?)]|(g & og & label & ? & ?)]; [by left|..].
      * right. exists group, of_group, label. auto.
      * right. exists g, og, label. tauto.
    + intros [?|(g & og & label & [->|?] & Hg & ? & ?)]; [by do 2 left|..].
      * left; right. exists label. by simplify_eq.
      * right. by exists g, og, label.
Qed.

Lemma foldl_max_spec (l : list Z) (x : Z) :
  (foldl Z.max x l = x ∨ foldl Z.max x l ∈ l)
  ∧ x ≤ foldl Z.max x l ∧ ∀ y, y ∈ l → y ≤ foldl Z.max x l.
Proof.
  revert x. induction l as [|z l IH]; intros x; simpl.
  - split_and!; [by left|lia|]. by intros y ?%elem_of_nil.
  - destruct (IH (x `max` z)) as ([Hmax|Hmax] & Hle & Hall).
    + rewrite Hmax. split_and!; [|lia|].
      * destruct (Z.max_spec x z) as [[_ ->]|[_ ->]];
          [right; apply list_elem_of_here|by left].
      * intros y [->|Hy%Hall]%elem_of_cons; lia.
    + split_and!; [right; by right|lia|].
      intros y [->|Hy%Hall]%elem_of_cons; lia.
Qed.

(** [max(l)] is an element of [l] that bounds [l]. *)
Lemma py_max_spec (l : list Z) (largest : Z) :
  py_max l = Ok largest → largest ∈ l ∧ ∀ y, y ∈ l → y ≤ largest.
Proof.
  destruct l as [|x l]; [done|]. simpl. intros [= <-].
  destruct (foldl_max_spec l x) as ([Hmax|Hmax] & Hle & Hall).
  - rewrite Hmax. split; [apply list_elem_of_here|].
    intros y [->|Hy%Hall]%elem_of_cons; lia.
  - split; [by right|]. intros y [->|Hy%Hall]%elem_of_cons; lia.
Qed.

(** ** Codenames *)

Lemma append_assoc (s t u : string) : (s +:+ t) +:+ u = s +:+ t +:+ u.
Proof.
  induction s as [|c s IH]; [done|]. rewrite !append_cons. by rewrite IH.
Qed.

Lemma length_append (s t : string) :
  String.length (s +:+ t) = (String.length s + String.length t)%nat.
Proof.
  induction s as [|c s IH]; [done|]. rewrite append_cons. simpl. by rewrite IH.
Qed.

Lemma length_zeros (k : nat) : String.length (zeros k) = k.
Proof. induction k as [|k IH]; simpl; [done|]. by rewrite IH. Qed.

(** The decimal representation does not get shorter as the number grows. *)
Lemma length_pretty_N_go_ge (x : N) (s : string) :
  (String.length s ≤ String.length (pretty_N_go x s))%nat.
Proof.
  revert s. induction (N.lt_wf_0 x) as [x _ IH]; intros s.
  destruct (decide (x = 0)%N) as [->|Hx]; [by rewrite pretty_N_go_0|].
  rewrite pretty_N_go_step by lia.
  etrans; [|apply IH; apply N.div_lt; lia]. simpl. lia.
Qed.

Lemma length_pretty_N_go_mono (x y : N) (s t : string) :
  (x ≤ y)%N → String.length s = String.length t →
  (String.length (pretty_N_go x s) ≤ String.length (pretty_N_go y t))%nat.
Proof.
  revert x s t. induction (N.lt_wf_0 y) as [y _ IH]; intros x s t Hxy Hst.
  destruct (decide (x = 0)%N) as [->|Hx].
  - rewrite pretty_N_go_0, Hst. apply length_pretty_N_go_ge.
  - rewrite (pretty_N_go_step x), (pretty_N_go_step y) by lia.
    apply IH; [apply N.div_lt; lia| |simpl; by rewrite Hst].
    by apply N.Div0.div_le_mono.
Qed.

Lemma str_nonneg (g : Z) : 0 ≤ g → str g = pretty (Z.to_N g).
Proof. intros Hg. by destruct g. Qed.

Lemma length_str_mono (g h : Z) :
  0 ≤ g ≤ h → (String.length (str g) ≤ String.length (str h))%nat.
Proof.
  intros Hgh. rewrite !str_nonneg by lia.
  assert (Z.to_N g ≤ Z.to_N h)%N as Hle by lia.
  revert Hle. generalize (Z.to_N g) (Z.to_N h). clear. intros x y Hxy.
  unfold pretty, pretty_N.
  destruct (decide (x = 0)%N) as [->|Hx], (decide (y = 0)%N) as [->|Hy];
    [done| |lia|by apply length_pretty_N_go_mono].
  rewrite pretty_N_go_step by lia.
  etrans; [|apply length_pretty_N_go_ge]. simpl. lia.
Qed.

(** Zero padding of a non-negative group index to the width of the largest
    one gives exactly that many characters. *)
Lemma format_zero_nonneg (width : nat) (g : Z) :
  0 ≤ g →
  format_zero width g = zeros (width - String.length (str g)) +:+ str g.
Proof. intros Hg. unfold format_zero. by rewrite decide_False by lia. Qed.

Lemma length_format_zero (g largest : Z) :
  0 ≤ g ≤ largest →
  String.length (format_zero (String.length (str largest)) g)
  = String.length (str largest).
Proof.
  intros Hg. rewrite format_zero_nonneg by lia.
  rewrite length_append, length_zeros.
  pose proof (length_str_mono g largest Hg). lia.
Qed.

(** C5.  When the extraction loop ends, with [largest] the largest group
    index among the members and [width] the number of its decimal digits,
    the testcases are exactly the buckets of the archive, each stored under
    (and carrying) the codename made of its group index, zero-padded on the
    left to [width] characters, followed by its sub-index label.  Group 3
    with label [b] gives [03b] when the largest group is 12 and [003b] when
    it is 150. *)
Theorem codename_zero_padded (c : Conf)
    (test_files : gmap Z (gmap string Bucket))
    (counts counts' : list Z) (tcs : gmap string Testcase) :
  extract_tests c test_files counts = Ok (counts', tcs) →
  ∃ largest,
    py_max (keys test_files) = Ok largest
    ∧ is_Some (test_files !! largest)
    ∧ (∀ group, is_Some (test_files !! group) → group ≤ largest)
    ∧ let width := String.length (str largest) in
      (∀ group of_group label,
         test_files !! group = Some of_group → is_Some (of_group !! label) →
         ∃ tc, tcs !! codename_of width group label = Some tc
               ∧ codename tc = codename_of width group label)
      ∧ (∀ key tc, tcs !! key = Some tc →
           codename tc = key
           ∧ ∃ group of_group label,
               test_files !! group = Some of_group
               ∧ is_Some (of_group !! label)
               ∧ key = codename_of width group label)
      ∧ (∀ group label, 0 ≤ group ≤ largest →
           codename_of width group label
           = zeros (width - String.length (str group)) +:+ str group +:+ label
           ∧ String.length (format_zero width group) = width)
      ∧ codename_of (String.length (str 12)) 3 "b" = "03b"
      ∧ codename_of (String.length (str 150)) 3 "b" = "003b".
Proof.
  unfold extract_tests. intros (largest & Hmax & Hloop)%bind_Ok.
  exists largest. destruct (py_max_spec _ _ Hmax) as [Hin Hle].
  apply extract_groups_keys in Hloop as [Hkeyed Hkeys].
  assert (Hkeyed' : keyed_by_codename tcs).
  { apply Hkeyed. intros key tc. by rewrite lookup_empty. }
  split_and!; [done|by apply elem_of_keys| | | | |done..].
  - intros group Hgroup. by apply Hle, elem_of_keys.
  - intros group of_group label Hgroup Hlabel.
    destruct (proj2 (Hkeys (codename_of (String.length (str largest))
                                        group label))) as [tc Htc].
    { right. exists group, of_group, label.
      rewrite elem_of_sorted_groups, Hgroup. eauto. }
    exists tc. split; [done|]. by apply Hkeyed'.
  - intros key tc Htc. split; [by apply Hkeyed'|].
    destruct (proj1 (Hkeys key)) as [Hempty|(g & og & label & _ & ? & ? & ?)];
      [by exists tc| |by exists g, og, label].
    rewrite lookup_empty in Hempty. by destruct Hempty.
  - intros group label Hgroup. split; [|by apply length_format_zero].
    unfold codename_of. rewrite format_zero_nonneg by lia.
    apply append_assoc.
Qed.

(** ** Groups of the archive and groups of the point file *)

Lemma collect_file_inv (task : string)
    (test_files test_files' : gmap Z (gmap string Bucket)) (n : string) :
  collect_file task test_files n = Ok test_files' →
  ∃ m group bucket,
    search n = Some m ∧ int (group2 m) = Ok group ∧ 0 ≤ group
    ∧ test_files'
      = <[group := <[group3 m := bucket]> (default ∅ (test_files !! group))]>
          test_files.
Proof.
  unfold collect_file.
  destruct (contains "/" n || contains "\" n); [done|].
  destruct (search n) as [m|] eqn:Hm; [|done].
  destruct (search_int n m Hm) as (group & Hpos & Hgroup).
  destruct (String.length (group2 m) <=? int_max_str_digits)%nat;
    rewrite Hgroup; [|done].
  simpl. intros [= <-]. by eexists m, group, _.
Qed.

(** The groups collected from the names are non-negative and none of them
    is without a bucket. *)
Lemma collect_test_files_groups (task : string) (names : list string)
    (test_files : gmap Z (gmap string Bucket)) :
  collect_test_files task names = Ok test_files →
  ∀ group of_group, test_files !! group = Some of_group →
                    0 ≤ group ∧ of_group ≠ ∅.
Proof.
  unfold collect_test_files. intros Hfold.
  eapply (foldM_invariant
            (λ tf : gmap Z (gmap string Bucket),
               ∀ group of_group, tf !! group = Some of_group →
                                 0 ≤ group ∧ of_group ≠ ∅));
    [| |exact Hfold].
  - intros tf n tf' _ Htf (m & g & bucket & _ & _ & Hpos & ->)%collect_file_inv.
    intros group of_group. rewrite lookup_insert_Some.
    intros [(<- & <-)|[_ Hgroup]]; [|by eauto].
    split; [done|apply insert_non_empty].
  - intros group of_group. by rewrite lookup_empty.
Qed.

Lemma sorted_labels_non_empty {V : Type} (d : gmap string V) :
  d ≠ ∅ → sorted_labels d ≠ [].
Proof.
  intros (label & v & Hv)%map_choose Hnil.
  assert (label ∈ sorted_labels d) as Hin
    by (apply elem_of_sorted_labels; by exists v).
  rewrite Hnil in Hin. by apply elem_of_nil in Hin.
Qed.

(** The inner loop on a group of the point file whose buckets are all
    complete and readable: the count of the group grows by the number of
    labels, nothing else changes in [tests_per_group]. *)
Lemma extract_labels_in_range (c : Conf) (width : nat) (group : Z)
    (of_group : gmap string Bucket) (labels : list string)
    (counts : list Z) (tcs : gmap string Testcase) (x : Z) :
  0 ≤ group < Z.of_nat (length counts) →
  counts !! Z.to_nat group = Some x →
  (∀ label, label ∈ labels →
     ∃ bucket, of_group !! label = Some bucket ∧ readable c bucket) →
  ∃ tcs',
    foldM (extract_test c width group of_group) (counts, tcs) labels
    = Ok (<[Z.to_nat group := x + Z.of_nat (length labels)]> counts, tcs').
Proof.
  revert counts tcs x.
  induction labels as [|label labels IH]; intros counts tcs x Hgroup Hx Hall.
  - exists tcs. simpl. rewrite Z.add_0_r. by rewrite list_insert_id.
  - destruct (Hall label) as (bucket & Hbucket & Hread);
      [apply list_elem_of_here|].
    destruct (extract_test_readable c width group of_group counts tcs label
                bucket Hgroup Hbucket Hread) as (x' & tc & Hx' & _ & Hstep).
    rewrite Hx in Hx'. injection Hx' as <-.
    simpl. rewrite Hstep. simpl.
    destruct (IH (<[Z.to_nat group := x + 1]> counts)
                 (<[codename tc := tc]> tcs) (x + 1)) as [tcs' Htcs'].
    + by rewrite length_insert.
    + apply list_lookup_insert_eq. lia.
    + intros label' Hlabel'. apply Hall. by right.
    + exists tcs'. rewrite Htcs', list_insert_insert_eq. do 3 f_equal. lia.
Qed.

(** The inner loop on a group that is not in the point file. *)
Lemma extract_labels_beyond (c : Conf) (width : nat) (group : Z)
    (of_group : gmap string Bucket) (labels : list string)
    (counts : list Z) (tcs : gmap string Testcase) :
  labels ≠ [] → Z.of_nat (length counts) ≤ group →
  foldM (extract_test c width group of_group) (counts, tcs) labels
  = Raise IndexError.
Proof.
  intros Hne Hgroup. destruct labels as [|label labels]; [done|].
  simpl. by rewrite extract_test_beyond.
Qed.

Lemma extract_group_in_range (c : Conf) (width : nat)
    (test_files : gmap Z (gmap string Bucket)) (group : Z)
    (of_group : gmap string Bucket)
    (counts : list Z) (tcs : gmap string Testcase) (x : Z) :
  0 ≤ group < Z.of_nat (length counts) →
  counts !! Z.to_nat group = Some x →
  test_files !! group = Some of_group → all_readable c of_group →
  ∃ tcs',
    extract_group c width test_files (counts, tcs) group
    = Ok (<[Z.to_nat group := x + Z.of_nat (size of_group)]> counts, tcs').
Proof.
  intros Hgroup Hx Hof Hread. unfold extract_group, getitem. rewrite Hof.
  simpl.
  destruct (extract_labels_in_range c width group of_group
              (sorted_labels of_group) counts tcs x Hgroup Hx) as [tcs' Htcs'].
  { intros label [bucket Hbucket]%elem_of_sorted_labels. eauto. }
  exists tcs'. rewrite Htcs'. do 4 f_equal. unfold sorted_labels, keys.
  by rewrite merge_sort_Permutation, length_fmap, length_map_to_list.
Qed.

(** The outer loop reaches a group that is not in the point file. *)
Lemma extract_groups_beyond (c : Conf) (width : nat)
    (test_files : gmap Z (gmap string Bucket)) (before after : list Z)
    (group : Z) (of_group : gmap string Bucket)
    (counts : list Z) (tcs : gmap string Testcase) :
  (∀ g, g ∈ before →
     0 ≤ g < Z.of_nat (length counts)
     ∧ ∃ og, test_files !! g = Some og ∧ all_readable c og) →
  Z.of_nat (length counts) ≤ group →
  test_files !! group = Some of_group → of_group ≠ ∅ →
  foldM (extract_group c width test_files) (counts, tcs)
        (before ++ group :: after)
  = Raise IndexError.
Proof.
  intros Hbefore Hgroup Hof Hne. revert counts tcs Hbefore Hgroup.
  induction before as [|g before IH]; intros counts tcs Hbefore Hgroup; simpl.
  - unfold extract_group, getitem. rewrite Hof. simpl.
    rewrite extract_labels_beyond; [done| |done].
    by apply sorted_labels_non_empty.
  - destruct (Hbefore g) as (Hg & og & Hog & Hread); [apply list_elem_of_here|].
    destruct (lookup_lt_is_Some_2 counts (Z.to_nat g)) as [x Hx]; [lia|].
    destruct (extract_group_in_range c width test_files g og counts tcs x
                Hg Hx Hog Hread) as [tcs' ->].
    simpl. apply IH; rewrite ?length_insert; [|done].
    intros g' Hg'. apply Hbefore. by right.
Qed.

Lemma first_beyond (bound : Z) (l : list Z) (x : Z) :
  x ∈ l → bound ≤ x →
  ∃ before y after,
    l = before ++ y :: after ∧ bound ≤ y ∧ ∀ z, z ∈ before → z < bound.
Proof.
  induction l as [|z l IH]; [by intros ?%elem_of_nil|].
  intros Hx Hbound. destruct (decide (bound ≤ z)) as [Hz|Hz].
  - exists [], z, l. split_and!; [done..|]. by intros ? ?%elem_of_nil.
  - apply elem_of_cons in Hx as [->|Hx]; [done|].
    destruct (IH Hx Hbound) as (before & y & after & -> & Hy & Hbefore).
    exists (z :: before), y, after. split_and!; [done..|].
    intros z' [->|Hz']%elem_of_cons; [lia|by apply Hbefore].
Qed.

(** ** The import as a whole *)

Lemma mapM_score_parameter (d : gmap Z Z) (l : list Z) :
  (∀ k, k ∈ l → is_Some (d !! k)) →
  mapM (score_parameter d) l = Ok ((λ i, (d !!! i, format_zero 3 i)) <$> l).
Proof.
  induction l as [|k l IH]; intros Hl; [done|].
  destruct (Hl k) as [v Hv]; [apply list_elem_of_here|].
  change (mapM (score_parameter d) (k :: l))
    with (y ← score_parameter d k; ks ← mapM (score_parameter d) l;
          mret (y :: ks)).
  rewrite IH by (intros k' Hk'; apply Hl; by right).
  unfold score_parameter, getitem. rewrite Hv. simpl.
  by rewrite (lookup_total_correct _ _ _ Hv).
Qed.

Lemma get_task_stages (c : Conf) (d : gmap Z Z)
    (test_files : gmap Z (gmap string Bucket)) :
  config_accepted c →
  parse_point_file (point_file c) = Ok d →
  collect_test_files (name c) (namelist (test_zip c)) = Ok test_files →
  get_task c
  = extract_tests c test_files (replicate (size d) 0) ≫= finish c d.
Proof.
  intros [Hmode Hchecker] Hd Htf. unfold get_task, finish, labelled_points.
  destruct (default _ (score_mode c)); [| | |done]; simpl.
  all: rewrite Hd; simpl.
  all: rewrite mapM_score_parameter
         by (intros k Hk%elem_of_range;
             by apply (parse_point_file_inv _ _ Hd)).
  all: destruct Hchecker as [-> | ->]; simpl; rewrite Htf; simpl.
  all: destruct (extract_tests _ _ _) as [[counts tcs]|]; simpl; [|done].
  all: by destruct (check_tests_per_group counts).
Qed.

Lemma get_task_inv (c : Conf) (ds : Dataset) :
  get_task c = Ok ds →
  config_accepted c
  ∧ ∃ d test_files st,
      parse_point_file (point_file c) = Ok d
      ∧ collect_test_files (name c) (namelist (test_zip c)) = Ok test_files
      ∧ extract_tests c test_files (replicate (size d) 0) = Ok st
      ∧ finish c d st = Ok ds.
Proof.
  intros Hds.
  assert (Hconf : config_accepted c).
  { unfold get_task in Hds. split.
    - intros Hmode. by rewrite Hmode in Hds.
    - destruct (default _ (score_mode c)); simpl in Hds; [..|done].
      all: destruct (checker c) as [code|]; [|by left].
      all: right; destruct (decide (code ≠ 0)) as [|Hcode]; [done|].
      all: f_equal; by apply dec_stable in Hcode. }
  split; [done|].
  destruct (parse_point_file (point_file c)) as [d|] eqn:Hd.
  - destruct (collect_test_files (name c) (namelist (test_zip c)))
      as [tf|] eqn:Htf.
    + rewrite (get_task_stages c d tf Hconf Hd Htf) in Hds.
      apply bind_Ok in Hds as (st & Hst & Hfinish). by exists d, tf, st.
    + exfalso. unfold get_task in Hds. destruct Hconf as [_ Hchecker].
      destruct (default _ (score_mode c)); simpl in Hds; [..|done].
      all: destruct Hchecker as [Hc | Hc]; rewrite Hc in Hds; simpl in Hds.
      all: rewrite Hd in Hds; simpl in Hds.
      all: destruct (mapM _ _); simpl in Hds; [|done].
      all: by rewrite Htf in Hds.
  - exfalso. unfold get_task in Hds. destruct Hconf as [_ Hchecker].
    destruct (default _ (score_mode c)); simpl in Hds; [..|done].
    all: destruct Hchecker as [Hc | Hc]; rewrite Hc in Hds; simpl in Hds.
    all: by rewrite Hd in Hds.
Qed.

(** The extraction loop meets a group that the point file does not have. *)
Lemma extract_tests_beyond (c : Conf)
    (test_files : gmap Z (gmap string Bucket)) (counts : list Z)
    (group : Z) (of_group : gmap string Bucket) :
  (∀ g og, test_files !! g = Some og → 0 ≤ g ∧ og ≠ ∅) →
  (∀ g og, test_files !! g = Some og → g < Z.of_nat (length counts) →
           all_readable c og) →
  test_files !! group = Some of_group → Z.of_nat (length counts) ≤ group →
  extract_tests c test_files counts = Raise IndexError.
Proof.
  intros Hgroups Hread Hgroup Hbeyond. unfold extract_tests.
  destruct (py_max (keys test_files)) as [largest|] eqn:Hmax.
  2:{ unfold py_max in Hmax. destruct (keys test_files) eqn:Hkeys; [|done].
      assert (group ∈ keys test_files) as Hin
        by (apply elem_of_keys; by exists of_group).
      rewrite Hkeys in Hin. by apply elem_of_nil in Hin. }
  simpl.
  destruct (first_beyond (Z.of_nat (length counts))
              (sorted_groups test_files) group)
    as (before & y & after & Hsplit & Hy & Hbefore); [|done|].
  { apply elem_of_sorted_groups. by exists of_group. }
  assert (Hall : ∀ g, g ∈ sorted_groups test_files →
                      ∃ og, test_files !! g = Some og).
  { intros g [og Hog]%elem_of_sorted_groups. by exists og. }
  rewrite Hsplit in Hall |- *.
  destruct (Hall y) as [oy Hoy]; [apply elem_of_app; right; apply list_elem_of_here|].
  apply (extract_groups_beyond _ _ _ _ _ _ oy); [|done..|by apply (Hgroups y)].
  intros g Hg. destruct (Hall g) as [og Hog]; [apply elem_of_app; by left|].
  pose proof (Hbefore g Hg). destruct (Hgroups g og Hog) as [Hpos _].
  split; [lia|]. exists og. split; [done|]. by apply (Hread g).
Qed.

(** The archive has members of group 5 and the point file one group only,
    yet the import ends with a [LioLoaderException]: group 0 comes first
    in the second loop, and its bucket has no output. *)
Example extra_group_behind_incomplete_counterexample :
  let c := example_conf ["0-0 100" +:+ nl]
                        [("t.i0", "1"); ("t.i5", "2"); ("t.o5", "3")] in
  parse_point_file (point_file c) = Ok {[0 := 100]}
  ∧ classify "t.i5" = Some (true, 5, "")
  ∧ get_task c = Raise (LioLoaderException (INCOMPLETE 0 "")).
Proof. split_and!; vm_compute; reflexivity. Qed.

(** C8 (amended).  When the score mode and the checker let the import
    proceed, the point file is parsed into [N] groups, the member names are
    all collected, the buckets of the groups below [N] are complete and
    readable, and some member of the archive has a group index of [N] or
    more, the import raises no [LioLoaderException]: it ends with the
    [IndexError] of [tests_per_group[group] += 1]. *)
Theorem extra_group_index_error (c : Conf) (d : gmap Z Z)
    (test_files : gmap Z (gmap string Bucket))
    (n : string) (is_input : bool) (group : Z) (label : string) :
  config_accepted c →
  parse_point_file (point_file c) = Ok d →
  collect_test_files (name c) (namelist (test_zip c)) = Ok test_files →
  (∀ g og, test_files !! g = Some og → g < Z.of_nat (size d) →
           all_readable c og) →
  n ∈ namelist (test_zip c) → classify n = Some (is_input, group, label) →
  Z.of_nat (size d) ≤ group →
  get_task c = Raise IndexError
  ∧ ∀ msg, get_task c ≠ Raise (LioLoaderException msg).
Proof.
  intros Hconf Hd Htf Hread Hn Hclass Hgroup.
  assert (get_task c = Raise IndexError) as ->; [|done].
  rewrite (get_task_stages c d test_files Hconf Hd Htf).
  destruct (collect_test_files_member _ _ _ _ _ _ _ Htf Hn Hclass)
    as [of_group Hof].
  rewrite (extract_tests_beyond c test_files _ group of_group);
    rewrite ?length_replicate; try done.
  by apply (collect_test_files_groups (name c) (namelist (test_zip c))).
Qed.

(** ** Test counts and the final check *)

Arguments check_group : simpl never.

Lemma increment_inv (l l' : list Z) (i : Z) :
  0 ≤ i → increment l i = Ok l' →
  i < Z.of_nat (length l)
  ∧ ∃ x, l !! Z.to_nat i = Some x ∧ l' = <[Z.to_nat i := x + 1]> l.
Proof.
  intros Hi Hincr. destruct (decide (i < Z.of_nat (length l))) as [Hlt|Hge].
  - split; [done|].
    destruct (increment_in_range l i) as (x & Hx & Hl'); [lia|].
    exists x. split; [done|]. congruence.
  - rewrite increment_beyond in Hincr by lia. done.
Qed.

Lemma extract_labels_counts (c : Conf) (width : nat) (group : Z)
    (of_group : gmap string Bucket) (labels : list string)
    (counts counts' : list Z) (tcs tcs' : gmap string Testcase) :
  0 ≤ group → labels ≠ [] →
  foldM (extract_test c width group of_group) (counts, tcs) labels
    = Ok (counts', tcs') →
  ∃ x, counts !! Z.to_nat group = Some x
       ∧ counts' = <[Z.to_nat group := x + Z.of_nat (length labels)]> counts.
Proof.
  intros Hgroup. revert counts tcs.
  induction labels as [|label labels IH]; intros counts tcs Hne; [done|].
  simpl. intros ([counts1 tcs1] & Hstep & Hrest)%bind_Ok.
  apply extract_test_inv in Hstep as (Hincr & _).
  apply increment_inv in Hincr as (Hlt & x & Hx & ->); [|done].
  exists x. split; [done|]. destruct labels as [|label' labels].
  - by injection Hrest as <- <-.
  - destruct (IH _ _ ltac:(done) Hrest) as (x' & Hx' & ->).
    rewrite list_lookup_insert_eq in Hx' by lia. injection Hx' as <-.
    rewrite list_insert_insert_eq. f_equal. simpl length. lia.
Qed.

(** After the outer loop, each count has grown by the number of buckets of
    its group, for the groups the loop ran over. *)
Lemma extract_groups_counts (c : Conf) (width : nat)
    (test_files : gmap Z (gmap string Bucket)) (groups : list Z)
    (counts counts' : list Z) (tcs tcs' : gmap string Testcase) :
  NoDup groups →
  (∀ g, g ∈ groups → ∃ og, test_files !! g = Some og ∧ 0 ≤ g ∧ og ≠ ∅) →
  foldM (extract_group c width test_files) (counts, tcs) groups
    = Ok (counts', tcs') →
  length counts' = length counts
  ∧ ∀ (i : nat) x, counts !! i = Some x →
      counts' !! i
      = Some (x + if decide (Z.of_nat i ∈ groups)
                  then tests_of test_files (Z.of_nat i) else 0).
Proof.
  revert counts tcs.
  induction groups as [|g groups IH]; intros counts tcs Hnodup Hall.
  - intros [= <- <-]. split; [done|]. intros i x Hx.
    rewrite decide_False by (by intros ?%elem_of_nil). by rewrite Z.add_0_r.
  - apply NoDup_cons in Hnodup as [Hg Hnodup].
    simpl. intros ([counts1 tcs1] & Hstep & Hrest)%bind_Ok.
    destruct (Hall g) as (og & Hog & Hpos & Hne); [apply list_elem_of_here|].
    unfold extract_group, getitem in Hstep. rewrite Hog in Hstep.
    simpl in Hstep.
    apply extract_labels_counts in Hstep as (x0 & Hx0 & ->);
      [|done|by apply sorted_labels_non_empty].
    destruct (IH _ _ Hnodup (λ g' Hg', Hall g' (list_elem_of_further _ _ _ Hg'))
                 Hrest) as [Hlen Hcounts].
    rewrite length_insert in Hlen. split; [done|]. intros i x Hx.
    assert (length (sorted_labels og) = size og) as Hsize.
    { unfold sorted_labels, keys.
      by rewrite merge_sort_Permutation, length_fmap, length_map_to_list. }
    destruct (decide (i = Z.to_nat g)) as [->|Hi].
    + rewrite (Hcounts (Z.to_nat g) (x0 + Z.of_nat (length (sorted_labels og)))).
      2:{ apply list_lookup_insert_eq. by apply lookup_lt_Some in Hx0. }
      rewrite Z2Nat.id by done. rewrite decide_False by done.
      rewrite decide_True by apply list_elem_of_here.
      unfold tests_of. rewrite Hog. simpl. rewrite Hx0 in Hx.
      injection Hx as <-. f_equal. lia.
    + rewrite (Hcounts i x) by (by rewrite list_lookup_insert_ne).
      do 2 f_equal. destruct (decide (Z.of_nat i ∈ groups)) as [Hin|Hin].
      * rewrite decide_True; [done|by right].
      * rewrite decide_False; [done|].
        intros [Heq|?]%elem_of_cons; [|done]. lia.
Qed.

Lemma NoDup_sorted_groups {V : Type} (d : gmap Z V) : NoDup (sorted_groups d).
Proof.
  unfold sorted_groups, keys. rewrite merge_sort_Permutation.
  apply NoDup_fst_map_to_list.
Qed.

(** [tests_per_group] after the extraction loop: the number of buckets of
    each group of the point file. *)
Lemma extract_tests_counts (c : Conf)
    (test_files : gmap Z (gmap string Bucket)) (N : nat)
    (st : list Z * gmap string Testcase) :
  (∀ g og, test_files !! g = Some og → 0 ≤ g ∧ og ≠ ∅) →
  extract_tests c test_files (replicate N 0) = Ok st →
  length st.1 = N
  ∧ ∀ i : nat, (i < N)%nat →
      st.1 !! i = Some (tests_of test_files (Z.of_nat i)).
Proof.
  intros Hgroups. unfold extract_tests. destruct st as [counts tcs].
  intros (largest & _ & Hloop)%bind_Ok.
  apply extract_groups_counts in Hloop as [Hlen Hcounts];
    [|apply NoDup_sorted_groups|].
  2:{ intros g [og Hog]%elem_of_sorted_groups. exists og.
      split; [done|]. by apply (Hgroups g). }
  rewrite length_replicate in Hlen. split; [done|]. intros i Hi. simpl.
  rewrite (Hcounts i 0) by (by apply lookup_replicate_2). f_equal.
  destruct (decide (Z.of_nat i ∈ _)) as [|Hin]; [lia|].
  rewrite elem_of_sorted_groups in Hin. unfold tests_of.
  destruct (test_files !! Z.of_nat i); [by destruct Hin|done].
Qed.

(** The extraction loop ends when the groups are those of the point file
    and every bucket is complete and readable. *)
Lemma extract_groups_succeed (c : Conf) (width : nat)
    (test_files : gmap Z (gmap string Bucket)) (groups : list Z)
    (counts : list Z) (tcs : gmap string Testcase) :
  (∀ g, g ∈ groups →
     0 ≤ g < Z.of_nat (length counts)
     ∧ ∃ og, test_files !! g = Some og ∧ all_readable c og) →
  ∃ st, foldM (extract_group c width test_files) (counts, tcs) groups = Ok st.
Proof.
  revert counts tcs.
  induction groups as [|g groups IH]; intros counts tcs Hall; [by eexists|].
  destruct (Hall g) as (Hg & og & Hog & Hread); [apply list_elem_of_here|].
  destruct (lookup_lt_is_Some_2 counts (Z.to_nat g)) as [x Hx]; [lia|].
  destruct (extract_group_in_range c width test_files g og counts tcs x
              Hg Hx Hog Hread) as [tcs' Hstep].
  simpl. rewrite Hstep. simpl. apply IH. intros g' Hg'.
  rewrite length_insert. apply Hall. by right.
Qed.

Lemma check_group_in_range (counts : list Z) (i : nat) (x : Z) :
  counts !! i = Some x →
  check_group counts () (Z.of_nat i)
  = if decide (x = 0)
    then Raise (LioLoaderException (NO_TESTCASES (Z.of_nat i))) else Ok ().
Proof.
  intros Hx. pose proof (lookup_lt_Some _ _ _ Hx).
  unfold check_group, list_position. rewrite decide_True by lia. simpl.
  unfold index. by rewrite Nat2Z.id, Hx.
Qed.

Lemma check_tests_per_group_Ok (counts : list Z) :
  (∀ i x, counts !! i = Some x → x ≠ 0) →
  check_tests_per_group counts = Ok ().
Proof.
  intros Hall. unfold check_tests_per_group. apply foldM_unit_Ok.
  intros k Hk%elem_of_range.
  destruct (lookup_lt_is_Some_2 counts (Z.to_nat k)) as [x Hx]; [lia|].
  rewrite <-(Z2Nat.id k) by lia. rewrite (check_group_in_range _ _ x Hx).
  rewrite decide_False; [done|]. by apply (Hall (Z.to_nat k)).
Qed.

(** The check stops at the first group that has no test. *)
Lemma check_tests_per_group_first (counts : list Z) (i : nat) :
  counts !! i = Some 0 →
  (∀ j x, (j < i)%nat → counts !! j = Some x → x ≠ 0) →
  check_tests_per_group counts
  = Raise (LioLoaderException (NO_TESTCASES (Z.of_nat i))).
Proof.
  intros Hi Hbefore. pose proof (lookup_lt_Some _ _ _ Hi) as Hlen.
  unfold check_tests_per_group, range.
  replace (Z.of_nat (length counts) - 0)
    with (Z.of_nat i + (Z.of_nat (length counts) - Z.of_nat i)) by lia.
  rewrite seqZ_app by lia. rewrite foldM_app.
  assert (foldM (check_group counts) () (seqZ 0 (Z.of_nat i)) = Ok ()) as ->.
  { apply foldM_unit_Ok. intros k Hk%elem_of_seqZ.
    destruct (lookup_lt_is_Some_2 counts (Z.to_nat k)) as [x Hx]; [lia|].
    rewrite <-(Z2Nat.id k) by lia. rewrite (check_group_in_range _ _ x Hx).
    rewrite decide_False; [done|]. apply (Hbefore (Z.to_nat k)); [lia|done]. }
  simpl. rewrite Z.add_0_l, seqZ_cons by lia. simpl.
  by rewrite (check_group_in_range _ _ 0 Hi).
Qed.

Lemma parse_point_file_non_empty (lines : list string) (d : gmap Z Z) :
  parse_point_file lines = Ok d → (0 < size d)%nat.
Proof.
  intros (_ & _ & Hsum)%parse_point_file_inv.
  destruct (decide (size d = 0%nat)) as [Hsize|]; [|lia].
  apply map_size_empty_iff in Hsize as ->. by vm_compute in Hsum.
Qed.

(** The import succeeds when the archive has complete, readable tests for
    exactly the groups of the point file. *)
Lemma get_task_succeeds (c : Conf) (d : gmap Z Z)
    (test_files : gmap Z (gmap string Bucket)) :
  config_accepted c →
  parse_point_file (point_file c) = Ok d →
  collect_test_files (name c) (namelist (test_zip c)) = Ok test_files →
  (∀ g, is_Some (test_files !! g) ↔ 0 ≤ g < Z.of_nat (size d)) →
  (∀ g og, test_files !! g = Some og → all_readable c og) →
  ∃ ds, get_task c = Ok ds ∧ score_type_parameters ds = labelled_points d.
Proof.
  intros Hconf Hd Htf Hdom Hread.
  pose proof (collect_test_files_groups _ _ _ Htf) as Hgroups.
  pose proof (parse_point_file_non_empty _ _ Hd) as Hsize.
  assert (∃ st, extract_tests c test_files (replicate (size d) 0) = Ok st)
    as [st Hst].
  { unfold extract_tests.
    destruct (py_max (keys test_files)) as [largest|] eqn:Hmax.
    - simpl. apply extract_groups_succeed.
      intros g [og Hog]%elem_of_sorted_groups. rewrite length_replicate.
      split; [apply Hdom; by exists og|]. exists og. split; [done|].
      by apply (Hread g).
    - unfold py_max in Hmax. destruct (keys test_files) eqn:Hkeys; [|done].
      assert (0 ∈ keys test_files) as Hin
        by (apply elem_of_keys, Hdom; lia).
      rewrite Hkeys in Hin. by apply elem_of_nil in Hin. }
  destruct (extract_tests_counts c test_files (size d) st Hgroups Hst)
    as [Hlen Hcounts].
  rewrite (get_task_stages c d test_files Hconf Hd Htf), Hst. simpl.
  unfold finish. rewrite check_tests_per_group_Ok; [by eexists|].
  intros i x Hx. pose proof (lookup_lt_Some _ _ _ Hx) as Hi.
  rewrite Hcounts in Hx by lia. injection Hx as <-. unfold tests_of.
  destruct (proj2 (Hdom (Z.of_nat i))) as [og Hog]; [lia|].
  rewrite Hog. simpl. destruct (Hgroups _ _ Hog) as [_ Hne].
  apply map_size_non_empty_iff in Hne. lia.
Qed.

(** The lines [0-1 30] and [2-2 70] give 30 points to each of the groups 0
    and 1 and 70 to group 2: 130 in all, and the import stops at the point
    file.  With 40 points for group 2 the import succeeds, and the labels
    have three digits. *)
Example point_sum_130_counterexample :
  get_task (example_conf ["0-1 30" +:+ nl; "2-2 70" +:+ nl] archive_012)
  = Raise (LioLoaderException BAD_SUM)
  ∧ (¬ ∃ ds,
       get_task (example_conf ["0-1 30" +:+ nl; "2-2 70" +:+ nl] archive_012)
       = Ok ds)
  ∧ ∀ ds,
      get_task (example_conf ["0-1 30" +:+ nl; "2-2 40" +:+ nl] archive_012)
      = Ok ds →
      score_type_parameters ds = [(30, "000"); (30, "001"); (40, "002")]
      ∧ score_type_parameters ds ≠ [(30, "0"); (30, "1"); (40, "2")].
Proof.
  split_and!; [vm_compute; reflexivity| |].
  - intros [ds Hds]. vm_compute in Hds. discriminate.
  - intros ds Hds. vm_compute in Hds. injection Hds as <-. simpl.
    split; [reflexivity|discriminate].
Qed.

(** C2 (amended).  With the point file [0-1 30], [2-2 40] (each group of a
    range gets the points of its line, 100 in all) and an archive whose
    members are complete, readable tests for exactly the groups 0, 1 and 2,
    the import succeeds and the score type parameters are
    [[30,"000"], [30,"001"], [40,"002"]]: one pair per group in ascending
    order, the label being the group index zero-padded to three digits. *)
Theorem score_type_parameters_three_digit_labels (c : Conf)
    (test_files : gmap Z (gmap string Bucket)) :
  config_accepted c →
  strip <$> point_file c = ["0-1 30"; "2-2 40"] →
  collect_test_files (name c) (namelist (test_zip c)) = Ok test_files →
  (∀ g, is_Some (test_files !! g) ↔ 0 ≤ g ≤ 2) →
  (∀ g og, test_files !! g = Some og → all_readable c og) →
  ∃ ds, get_task c = Ok ds
        ∧ score_type_parameters ds = [(30, "000"); (30, "001"); (40, "002")].
Proof.
  intros Hconf Hlines Htf Hdom Hread.
  assert (parse_point_file (point_file c) = Ok {[0 := 30; 1 := 30; 2 := 40]})
    as Hd.
  { unfold parse_point_file, read_points. rewrite Hlines.
    vm_compute. reflexivity. }
  destruct (get_task_succeeds c _ test_files Hconf Hd Htf) as (ds & Hds & Hp);
    [|done|].
  - intros g. rewrite Hdom.
    change (size ({[0 := 30; 1 := 30; 2 := 40]} : gmap Z Z)) with 3%nat. lia.
  - exists ds. split; [done|]. rewrite Hp. vm_compute. reflexivity.
Qed.

Lemma test_files_012_groups (g : Z) :
  is_Some (test_files_012 !! g) ↔ 0 ≤ g ≤ 2.
Proof.
  unfold test_files_012.
  rewrite !lookup_insert_is_Some', lookup_singleton_is_Some. lia.
Qed.

Lemma one_test_readable (c : Conf) (i o ci co : string) :
  zip_open (test_zip c) i ≫= read_ascii = Ok ci →
  zip_open (test_zip c) o ≫= read_ascii = Ok co →
  all_readable c (one_test i o).
Proof.
  intros Hi Ho label bucket Hbucket. unfold one_test in Hbucket.
  apply lookup_singleton_Some in Hbucket as [<- <-].
  by exists i, o, ci, co.
Qed.

Lemma test_files_012_readable (lines : list string) (g : Z)
    (og : gmap string Bucket) :
  test_files_012 !! g = Some og →
  all_readable (example_conf lines archive_012) og.
Proof.
  unfold test_files_012. rewrite !lookup_insert_Some, lookup_singleton_Some.
  intros [[_ <-]|[_ [[_ <-]|[_ [_ <-]]]]];
    eapply one_test_readable; vm_compute; reflexivity.
Qed.

Lemma test_files_01_readable (lines : list string) (g : Z)
    (og : gmap string Bucket) :
  test_files_01 !! g = Some og →
  all_readable (example_conf lines archive_01) og.
Proof.
  unfold test_files_01. rewrite !lookup_insert_Some, lookup_singleton_Some.
  intros [[_ <-]|[_ [_ <-]]];
    eapply one_test_readable; vm_compute; reflexivity.
Qed.

Example score_type_parameters_three_digit_labels_witness :
  ∃ ds,
    get_task (example_conf ["0-1 30" +:+ nl; "2-2 40" +:+ nl] archive_012)
    = Ok ds
    ∧ score_type_parameters ds = [(30, "000"); (30, "001"); (40, "002")].
Proof.
  apply (score_type_parameters_three_digit_labels _ test_files_012).
  - split; [done|by left].
  - vm_compute. reflexivity.
  - vm_compute. reflexivity.
  - apply test_files_012_groups.
  - apply test_files_012_readable.
Defined.

(** With the point file [0-1 30], [2-2 70] the import never reaches the
    check of the test counts: also when the archive has no test for group
    2, the exception raised is the one of the point sum.  And when the
    groups 1 and 2 are both without a test, the exception names group 1
    only. *)
Example empty_group_example_counterexample :
  get_task (example_conf ["0-1 30" +:+ nl; "2-2 70" +:+ nl] archive_01)
  = Raise (LioLoaderException BAD_SUM)
  ∧ get_task (example_conf ["0-1 30" +:+ nl; "2-2 70" +:+ nl] archive_01)
    ≠ Raise (LioLoaderException (NO_TESTCASES 2))
  ∧ tests_of {[ 0 := one_test "t.i0" "t.o0" ]} 2 = 0
  ∧ get_task (example_conf ["0-0 40" +:+ nl; "1-2 30" +:+ nl]
                           (take 2 archive_012))
    = Raise (LioLoaderException (NO_TESTCASES 1))
  ∧ get_task (example_conf ["0-0 40" +:+ nl; "1-2 30" +:+ nl]
                           (take 2 archive_012))
    ≠ Raise (LioLoaderException (NO_TESTCASES 2)).
Proof.
  split_and!; [vm_compute; reflexivity| |vm_compute; reflexivity
              |vm_compute; reflexivity|].
  - intros Hraise. vm_compute in Hraise. discriminate.
  - intros Hraise. vm_compute in Hraise. discriminate.
Qed.

(** An archive without any member does not reach the check either: the
    largest group index is asked of no key at all. *)
Example no_member_at_all :
  get_task (example_conf ["0-0 100" +:+ nl] []) = Raise ValueError.
Proof. vm_compute. reflexivity. Qed.

(** C6 (amended).  Once the extraction loop has ended, [tests_per_group]
    holds for each group of [0..N-1] (N the size of the point map) the
    number of tests the archive has for it, and the groups are checked in
    ascending order: the import fails with the "No testcases for group"
    exception naming the smallest group whose count is zero (e.g. group 2
    for the point file [0-1 30], [2-2 40] and an archive with tests for the
    groups 0 and 1 only); if every group has at least one test, the check
    passes and the import returns the dataset. *)
Theorem empty_group_rejected (c : Conf) (d : gmap Z Z)
    (test_files : gmap Z (gmap string Bucket))
    (st : list Z * gmap string Testcase) :
  config_accepted c →
  parse_point_file (point_file c) = Ok d →
  collect_test_files (name c) (namelist (test_zip c)) = Ok test_files →
  extract_tests c test_files (replicate (size d) 0) = Ok st →
  (∀ i : nat, (i < size d)%nat →
     st.1 !! i = Some (tests_of test_files (Z.of_nat i)))
  ∧ (∀ i : nat, (i < size d)%nat →
       tests_of test_files (Z.of_nat i) = 0 →
       (∀ j : nat, (j < i)%nat → tests_of test_files (Z.of_nat j) ≠ 0) →
       get_task c = Raise (LioLoaderException (NO_TESTCASES (Z.of_nat i))))
  ∧ ((∀ i : nat, (i < size d)%nat → tests_of test_files (Z.of_nat i) ≠ 0) →
       ∃ ds, get_task c = Ok ds).
Proof.
  intros Hconf Hd Htf Hst.
  pose proof (collect_test_files_groups _ _ _ Htf) as Hgroups.
  destruct (extract_tests_counts c test_files (size d) st Hgroups Hst)
    as [Hlen Hcounts].
  rewrite (get_task_stages c d test_files Hconf Hd Htf), Hst. simpl.
  unfold finish. split_and!; [done| |].
  - intros i Hi Hzero Hbefore.
    rewrite (check_tests_per_group_first _ i); [done| |].
    + by rewrite Hcounts, Hzero.
    + intros j x Hj. rewrite Hcounts by lia. intros [= <-].
      by apply Hbefore.
  - intros Hall. rewrite check_tests_per_group_Ok; [by eexists|].
    intros i x Hx. pose proof (lookup_lt_Some _ _ _ Hx) as Hi.
    rewrite Hcounts in Hx by lia. injection Hx as <-. apply Hall. lia.
Qed.

Example empty_group_rejected_witness :
  get_task (example_conf ["0-1 30" +:+ nl; "2-2 40" +:+ nl] archive_01)
  = Raise (LioLoaderException "No testcases for group 2").
Proof.
  pose (c := example_conf ["0-1 30" +:+ nl; "2-2 40" +:+ nl] archive_01).
  destruct (extract_tests c test_files_01 (replicate 3 0)) as [st|e] eqn:Hst.
  2:{ vm_compute in Hst. discriminate. }
  destruct (empty_group_rejected c {[0 := 30; 1 := 30; 2 := 40]}
              test_files_01 st) as (_ & Hfirst & _).
  - split; [done|by left].
  - vm_compute. reflexivity.
  - vm_compute. reflexivity.
  - exact Hst.
  - apply (Hfirst 2%nat).
    + vm_compute. lia.
    + vm_compute. reflexivity.
    + intros j Hj. assert (j = 0 ∨ j = 1)%nat as [-> | ->] by lia;
        vm_compute; discriminate.
Defined.

Example extra_group_index_error_witness :
  get_task (example_conf ["0-1 50" +:+ nl] archive_012) = Raise IndexError.
Proof.
  apply (extra_group_index_error
           (example_conf ["0-1 50" +:+ nl] archive_012)
           {[0 := 50; 1 := 50]} test_files_012 "t.i2" true 2 "").
  - split; [done|by left].
  - vm_compute. reflexivity.
  - vm_compute. reflexivity.
  - intros g og Hog _. by apply (test_files_012_readable _ g).
  - vm_compute. do 4 right. left.
  - vm_compute. reflexivity.
  - vm_compute. discriminate.
Defined.

Example codename_zero_padded_witness :
  ∃ counts tcs tc,
    extract_tests (example_conf [] archive_3b_12)
      {[ 3 := {[ "b" := {| input := Some "x.i3b"; output := Some "x.o3b" |} ]};
         12 := one_test "x.i12" "x.o12" ]}
      (replicate 13 0) = Ok (counts, tcs)
    ∧ tcs !! "03b" = Some tc ∧ codename tc = "03b".
Proof.
  destruct (extract_tests _ _ _) as [[counts tcs]|e] eqn:Hst.
  2:{ vm_compute in Hst. discriminate. }
  destruct (codename_zero_padded _ _ _ _ _ Hst)
    as (largest & Hmax & _ & _ & Hbuckets & _).
  vm_compute in Hmax. injection Hmax as <-.
  destruct (Hbuckets 3
              {[ "b" := {| input := Some "x.i3b"; output := Some "x.o3b" |} ]}
              "b") as (tc & Htc & Hcodename); [done..|].
  by exists counts, tcs, tc.
Defined.

(** * Further properties *)

(** ** Outcomes of the point-file parser *)

Lemma check_group_present_raises (d : gmap Z Z) (l : list Z) (e : exn) :
  foldM (check_group_present d) () l = Raise e →
  e = LioLoaderException MISSING.
Proof.
  induction l as [|k l IH]; simpl; [done|].
  destruct (check_group_present d () k) as [[]|e'] eqn:Hk; simpl; [done|].
  intros [= <-]. unfold check_group_present in Hk.
  destruct (decide (is_Some (d !! k))); [done|]. by injection Hk as <-.
Qed.

(** X1.  When the lines are read without an exception but some index below
    the number of groups read is not among them (a gap, or groups that do
    not start at 0), [parse_point_file] raises the "Missing group"
    exception, whatever the points sum to. *)
Theorem gap_raises_missing_group (lines : list string) (d : gmap Z Z)
    (k : Z) :
  read_points lines = Ok d →
  0 ≤ k < Z.of_nat (size d) → d !! k = None →
  parse_point_file lines = Raise (LioLoaderException MISSING).
Proof.
  intros Hd Hk Hnone. unfold parse_point_file. rewrite Hd. simpl.
  destruct (foldM (check_group_present d) () _) as [[]|e] eqn:Hcheck.
  - rewrite foldM_unit_Ok in Hcheck.
    specialize (Hcheck k (proj2 (elem_of_range _ _ _) Hk)).
    unfold check_group_present in Hcheck. rewrite Hnone in Hcheck.
    rewrite decide_False in Hcheck by (by intros [? ?]). done.
  - by rewrite (check_group_present_raises _ _ _ Hcheck).
Qed.

Example gap_raises_missing_group_witness :
  parse_point_file ["0-0 50" +:+ nl; "2-2 50" +:+ nl]
  = Raise (LioLoaderException MISSING).
Proof.
  apply (gap_raises_missing_group _ {[0 := 50; 2 := 50]} 1);
    [vm_compute; reflexivity|vm_compute; split; [discriminate|reflexivity]
    |reflexivity].
Defined.

(** X2.  When the lines are read into a map without gap, the outcome is
    decided by the sum of the points alone: the map itself is returned
    when the sum is 100, and the "sum up to 100" exception is raised
    otherwise (99 and 101 included). *)
Theorem dense_map_decided_by_sum (lines : list string) (d : gmap Z Z) :
  read_points lines = Ok d →
  (∀ k, 0 ≤ k < Z.of_nat (size d) → is_Some (d !! k)) →
  parse_point_file lines
  = if decide (sum_values d = 100) then Ok d
    else Raise (LioLoaderException BAD_SUM).
Proof.
  intros Hd Hdense. unfold parse_point_file. rewrite Hd. simpl.
  assert (foldM (check_group_present d) ()
            (range 0 (Z.of_nat (size d))) = Ok ()) as ->.
  { apply foldM_unit_Ok. intros k Hk%elem_of_range. unfold check_group_present.
    by rewrite decide_True by auto. }
  simpl. destruct (decide (sum_values d = 100)) as [Hs|Hs].
  - rewrite decide_False; [done|]. by intros ?.
  - by rewrite decide_True.
Qed.

Example dense_map_decided_by_sum_witness :
  parse_point_file ["0-1 30" +:+ nl; "2-2 41" +:+ nl]
  = Raise (LioLoaderException BAD_SUM).
Proof.
  rewrite (dense_map_decided_by_sum _ {[0 := 30; 1 := 30; 2 := 41]}).
  - reflexivity.
  - vm_compute. reflexivity.
  - intros k Hk. change (Z.of_nat (size _)) with 3 in Hk.
    assert (k = 0 ∨ k = 1 ∨ k = 2) as [-> | [-> | ->]] by lia; by eexists.
Defined.

(** ** What the lines put into the point map *)

(** The loop over a range whose groups are all new. *)
Lemma assign_groups_fresh (points : Z) (l : list Z) (d : gmap Z Z) :
  (∀ g, g ∈ l → d !! g = None) → NoDup l →
  ∃ d', foldM (assign_group points) d l = Ok d'
        ∧ ∀ g, d' !! g = if decide (g ∈ l) then Some points else d !! g.
Proof.
  revert d. induction l as [|x l IH]; intros d Hfresh Hnodup.
  - exists d. split; [done|]. intros g.
    by rewrite decide_False by (by intros ?%elem_of_nil).
  - apply NoDup_cons in Hnodup as [Hx Hnodup].
    simpl. rewrite assign_group_free.
    2:{ rewrite (Hfresh x) by apply list_elem_of_here. by intros [? ?]. }
    simpl. destruct (IH (<[x:=points]> d)) as (d' & -> & Hd'); [|done|].
    { intros g Hg. rewrite lookup_insert_ne by (by intros ->).
      apply Hfresh. by right. }
    exists d'. split; [done|]. intros g. rewrite Hd'.
    destruct (decide (g ∈ l)) as [Hg|Hg].
    + rewrite decide_True; [done|by right].
    + destruct (decide (g = x)) as [->|Hne].
      * rewrite lookup_insert_eq. rewrite decide_True; [done|].
        apply list_elem_of_here.
      * rewrite lookup_insert_ne by done. rewrite decide_False; [done|].
        by intros [?|?]%elem_of_cons.
Qed.

(** X3.  In a point file whose lines all carry their three integers and
    where no group is assigned by two different lines, the lines are read
    without an exception, and the map holds exactly what the lines give:
    group [g] has [p] points if and only if some line whose inclusive
    range contains [g] carries the point value [p]. *)
Theorem disjoint_lines_read (lines : list string) :
  (∀ line, line ∈ lines → well_formed line) →
  disjoint_lines lines →
  ∃ d, read_points lines = Ok d
       ∧ ∀ g p, d !! g = Some p ↔ ∃ line, line ∈ lines ∧ gives line g p.
Proof.
  unfold read_points. induction lines as [|x lines IH] using rev_ind.
  - intros _ _. exists ∅. split; [done|]. intros g p.
    rewrite lookup_empty. split; [done|].
    by intros (line & ?%elem_of_nil & _).
  - intros Hwf Hdisj.
    destruct IH as (d & Hd & Hcontent).
    { intros line Hline. apply Hwf, elem_of_app. by left. }
    { intros i j li lj g Hij Hi Hj. apply (Hdisj i j); [done|..];
        by apply lookup_app_l_Some. }
    rewrite fmap_app, foldM_app, Hd. simpl.
    destruct (Hwf x) as [[[a b] points] Hx];
      [apply elem_of_app; right; apply list_elem_of_here|].
    unfold process_line. rewrite Hx. simpl.
    destruct (assign_groups_fresh points (range a (b + 1)) d)
      as (d' & -> & Hd').
    { intros g Hg%elem_of_range.
      destruct (d !! g) as [p|] eqn:Hdg; [exfalso|done].
      apply Hcontent in Hdg as (line & Hline & a' & b' & Hparse & Hrange).
      apply list_elem_of_lookup in Hline as [i Hi].
      apply (Hdisj i (length lines) line x g).
      - apply lookup_lt_Some in Hi. lia.
      - by apply lookup_app_l_Some.
      - by rewrite list_lookup_middle.
      - by exists a', b', p.
      - exists a, b, points. split; [done|lia]. }
    { unfold range. apply NoDup_seqZ. }
    exists d'. split; [done|]. intros g p. rewrite Hd'.
    destruct (decide (g ∈ range a (b + 1))) as [Hg|Hg].
    + apply elem_of_range in Hg. split.
      * intros [= <-]. exists x. split; [apply elem_of_app; right;
                                         apply list_elem_of_here|].
        exists a, b. split; [done|lia].
      * intros (line & [Hline|Hline%list_elem_of_singleton]%elem_of_app
                & a' & b' & Hparse & Hrange).
        -- exfalso. apply list_elem_of_lookup in Hline as [i Hi].
           apply (Hdisj i (length lines) line x g).
           ++ apply lookup_lt_Some in Hi. lia.
           ++ by apply lookup_app_l_Some.
           ++ by rewrite list_lookup_middle.
           ++ by exists a', b', p.
           ++ exists a, b, points. split; [done|lia].
        -- subst line. rewrite Hx in Hparse. by injection Hparse as _ _ ->.
    + rewrite Hcontent. split.
      * intros (line & Hline & Hgives). exists line.
        split; [apply elem_of_app; by left|done].
      * intros (line & [Hline|Hline%list_elem_of_singleton]%elem_of_app
                & a' & b' & Hparse & Hrange).
        -- exists line. split; [done|]. by exists a', b'.
        -- subst line. rewrite Hx in Hparse. injection Hparse as -> -> ->.
           destruct Hg. apply elem_of_range. lia.
Qed.

Example disjoint_lines_read_witness :
  ∃ d, read_points ["0-1 30" +:+ nl; "2-2 40" +:+ nl] = Ok d
       ∧ d !! 1 = Some 30.
Proof.
  destruct (disjoint_lines_read ["0-1 30" +:+ nl; "2-2 40" +:+ nl])
    as (d & Hd & Hcontent).
  - intros line [->|[->|[]%elem_of_nil]%elem_of_cons]%elem_of_cons;
      eexists; vm_compute; reflexivity.
  - intros i j li lj g Hij Hi Hj (a & b & p & Hp & Hr) (a' & b' & p' & Hp' & Hr').
    destruct i as [|[|i]], j as [|[|j]]; simplify_eq/=;
      vm_compute in Hp, Hp'; simplify_eq; lia.
  - exists d. split; [done|]. apply Hcontent.
    exists ("0-1 30" +:+ nl). split; [apply list_elem_of_here|].
    exists 0, 1. split; [vm_compute; reflexivity|lia].
Defined.

(** ** Numbers of the point file *)

Lemma int_digits_nonneg (s : string) (acc : Z) (prev : bool) (z : Z) :
  0 ≤ acc → int_digits acc prev s = Some z → 0 ≤ z.
Proof.
  revert acc prev. induction s as [|c s IH]; intros acc prev Hacc; simpl.
  - destruct prev; [|done]. by intros [= <-].
  - destruct (digit_value c) as [v|] eqn:Hv.
    + pose proof (digit_value_nonneg c v Hv). apply IH. lia.
    + destruct (decide (c = "_"%char)); [|done]. destruct prev; [|done].
      by apply IH.
Qed.

Lemma contains_lstrip (c : ascii) (s : string) :
  contains c s = false → contains c (lstrip s) = false.
Proof.
  induction s as [|c' s IH]; simpl; [done|].
  intros [Hc' Hs]%orb_false_elim. destruct (isspace c'); [by apply IH|].
  simpl. by rewrite Hc', Hs.
Qed.

Lemma contains_rstrip (c : ascii) (s : string) :
  contains c s = false → contains c (rstrip s) = false.
Proof.
  induction s as [|c' s IH]; simpl; [done|].
  intros [Hc' Hs]%orb_false_elim. specialize (IH Hs).
  destruct (rstrip s) as [|c'' r].
  - destruct (isspace c'); [done|]. simpl. by rewrite Hc'.
  - simpl in *. by rewrite Hc', IH.
Qed.

(** Without a minus sign in the string, [int] gives no negative number. *)
Lemma int_nonneg (s : string) (z : Z) :
  contains "-" s = false → int s = Ok z → 0 ≤ z.
Proof.
  intros Hs. unfold int.
  assert (contains "-" (strip s) = false) as Ht
    by (by apply contains_rstrip, contains_lstrip).
  destruct (strip s) as [|c r] eqn:Hstrip; [done|].
  simpl in Ht. apply orb_false_elim in Ht as [Hc _].
  apply bool_decide_eq_false in Hc.
  destruct (decide (c = "+"%char)) as [->|Hplus].
  - destruct (int_digits 0 false r) as [z'|] eqn:Hz; [|done].
    destruct (_ <=? _)%nat; [|done].
    intros [= <-]. by apply (int_digits_nonneg r 0 false).
  - assert (match String c r with
            | String "+" r => int_digits 0 false r
            | String "-" r => Z.opp <$> int_digits 0 false r
            | _ => int_digits 0 false (String c r)
            end = int_digits 0 false (String c r)) as ->.
    { clear -Hplus Hc. ascii_cases c; done. }
    destruct (int_digits 0 false (String c r)) as [z'|] eqn:Hz; [|done].
    destruct (_ <=? _)%nat; [|done].
    intros [= <-]. by apply (int_digits_nonneg (String c r) 0 false).
Qed.

Lemma contains_rev_app (c : ascii) (s t : string) :
  contains c (String.rev_app s t) = contains c s || contains c t.
Proof.
  revert t. induction s as [|c' s IH]; intros t; simpl; [done|].
  rewrite IH. simpl. destruct (bool_decide (c' = c)), (contains c s); done.
Qed.

(** The tokens are made of characters of the line. *)
Lemma split_go_contains (c : ascii) (s cur t : string) :
  contains c cur = false → contains c s = false →
  t ∈ split_go cur s → contains c t = false.
Proof.
  revert cur. induction s as [|c' s IH]; intros cur Hcur Hs; simpl.
  - destruct cur as [|c0 cur]; [by intros ?%elem_of_nil|].
    intros ->%list_elem_of_singleton. unfold String.rev.
    by rewrite contains_rev_app, Hcur.
  - simpl in Hs. apply orb_false_elim in Hs as [Hc' Hs].
    destruct (isspace c').
    + destruct cur as [|c0 cur]; [by apply IH|].
      intros [->|Ht]%elem_of_cons; [|by apply (IH "")].
      unfold String.rev. by rewrite contains_rev_app, Hcur.
    + apply IH; [|done]. simpl. by rewrite Hc', Hcur.
Qed.

Lemma replace_dash_no_dash (s : string) :
  contains "-" (replace_dash s) = false.
Proof.
  induction s as [|c s IH]; simpl; [done|]. rewrite IH, orb_false_r.
  apply bool_decide_eq_false. by destruct (decide (c = "-"%char)) as [->|].
Qed.

(** A token of a line holds no minus sign, so it converts to no negative
    number. *)
Lemma token_nonneg (line t : string) (z : Z) :
  t ∈ split (replace_dash line) → int t = Ok z → 0 ≤ z.
Proof.
  intros Ht. apply int_nonneg.
  by apply (split_go_contains "-" (replace_dash line) "" t);
    [|apply replace_dash_no_dash|].
Qed.

(** The integers of a line are the conversions of its first three tokens. *)
Lemma parse_line_tokens (line : string) (a b points : Z) :
  parse_line line = Ok (a, b, points) →
  ∃ t0 t1 t2,
    split (replace_dash line) !! 0%nat = Some t0 ∧ int t0 = Ok a
    ∧ split (replace_dash line) !! 1%nat = Some t1 ∧ int t1 = Ok b
    ∧ split (replace_dash line) !! 2%nat = Some t2 ∧ int t2 = Ok points.
Proof.
  unfold parse_line, index.
  destruct (split (replace_dash line) !! 0%nat) as [t0|] eqn:H0; [|done].
  simpl. destruct (int t0) as [a'|] eqn:Ha; [|done]. simpl.
  destruct (split (replace_dash line) !! 1%nat) as [t1|] eqn:H1; [|done].
  simpl. destruct (int t1) as [b'|] eqn:Hb; [|done]. simpl.
  destruct (split (replace_dash line) !! 2%nat) as [t2|] eqn:H2; [|done].
  simpl. destruct (int t2) as [p'|] eqn:Hp; [|done]. simpl.
  intros [= <- <- <-]. by exists t0, t1, t2.
Qed.

(** X4.  The three integers read from a line are never negative: every
    minus sign of the line has become a separator before the tokens are
    converted. *)
Theorem parse_line_nonneg (line : string) (a b points : Z) :
  parse_line line = Ok (a, b, points) → 0 ≤ a ∧ 0 ≤ b ∧ 0 ≤ points.
Proof.
  intros (t0 & t1 & t2 & H0 & Ha & H1 & Hb & H2 & Hp)%parse_line_tokens.
  apply list_elem_of_lookup_2 in H0, H1, H2.
  split_and!.
  - by apply (token_nonneg line t0).
  - by apply (token_nonneg line t1).
  - by apply (token_nonneg line t2).
Qed.

Example parse_line_nonneg_witness :
  parse_line "3--5 -10" = Ok (3, 5, 10) ∧ 0 ≤ 3 ∧ 0 ≤ 5 ∧ 0 ≤ 10.
Proof.
  assert (parse_line "3--5 -10" = Ok (3, 5, 10)) as Hline
    by (vm_compute; reflexivity).
  split; [exact Hline|]. exact (parse_line_nonneg _ _ _ _ Hline).
Defined.

Lemma read_points_values_nonneg (lines : list string) (d : gmap Z Z) :
  read_points lines = Ok d → ∀ g p, d !! g = Some p → 0 ≤ p.
Proof.
  unfold read_points.
  apply (foldM_invariant (λ d : gmap Z Z, ∀ g p, d !! g = Some p → 0 ≤ p)).
  - intros d0 line d1 _ Hd0. unfold process_line.
    intros ([[a b] points] & Hline & Hassign)%bind_Ok.
    apply parse_line_tokens in Hline as (_ & _ & t2 & _ & _ & _ & _ & H2 & Hp).
    apply list_elem_of_lookup_2 in H2.
    pose proof (token_nonneg _ _ _ H2 Hp) as Hpoints.
    revert Hassign. unfold assign_range.
    apply (foldM_invariant
             (λ d : gmap Z Z, ∀ g p, d !! g = Some p → 0 ≤ p)); [|done].
    intros d2 group d3 _ Hd2. unfold assign_group.
    destruct (decide (is_Some (d2 !! group))); [done|]. intros [= <-] g p.
    rewrite lookup_insert_Some. intros [[_ <-]|[_ Hg]]; [done|by eauto].
  - intros g p. by rewrite lookup_empty.
Qed.

Lemma elem_le_sum (l : list Z) (x : Z) :
  Forall (λ y, 0 ≤ y) l → x ∈ l → x ≤ foldr Z.add 0 l.
Proof.
  induction 1 as [|y l Hy Hl IH]; [by intros ?%elem_of_nil|].
  assert (0 ≤ foldr Z.add 0 l) by (clear -Hl; induction Hl; simpl; lia).
  simpl. intros [->|Hx%IH]%elem_of_cons; lia.
Qed.

(** X5.  In the point map that [parse_point_file] returns, every group
    has between 0 and 100 points. *)
Theorem points_between_0_and_100 (lines : list string) (d : gmap Z Z)
    (g p : Z) :
  parse_point_file lines = Ok d → d !! g = Some p → 0 ≤ p ≤ 100.
Proof.
  intros (Hread & _ & Hsum)%parse_point_file_inv Hg.
  pose proof (read_points_values_nonneg _ _ Hread) as Hpos.
  split; [by apply (Hpos g)|]. rewrite <-Hsum. unfold sum_values.
  apply elem_le_sum.
  - apply Forall_fmap, Forall_forall. intros [k v] Hkv%elem_of_map_to_list.
    by apply (Hpos k).
  - apply list_elem_of_fmap. exists (g, p). by rewrite elem_of_map_to_list.
Qed.

Example points_between_0_and_100_witness : 0 ≤ 40 ≤ 100.
Proof.
  apply (points_between_0_and_100 ["0-1 30" +:+ nl; "2-2 40" +:+ nl]
           {[0 := 30; 1 := 30; 2 := 40]} 2 40);
    [vm_compute; reflexivity|reflexivity].
Defined.

(** X6.  A line whose range runs backwards (the second integer smaller
    than the first) assigns no group and raises nothing: the file is read
    and parsed as if the line were not there. *)
Theorem reversed_range_ignored (pre post : list string) (line : string)
    (a b points : Z) :
  parse_line (strip line) = Ok (a, b, points) → b < a →
  read_points (pre ++ line :: post) = read_points (pre ++ post)
  ∧ parse_point_file (pre ++ line :: post) = parse_point_file (pre ++ post).
Proof.
  intros Hline Hba.
  assert (read_points (pre ++ line :: post) = read_points (pre ++ post))
    as Hread.
  { unfold read_points. rewrite !fmap_app, !foldM_app. simpl.
    destruct (foldM process_line ∅ (strip <$> pre)) as [d|]; [|done].
    simpl. unfold process_line. rewrite Hline. simpl.
    unfold range. by rewrite seqZ_nil by lia. }
  split; [done|]. unfold parse_point_file. by rewrite Hread.
Qed.

Example reversed_range_ignored_witness :
  parse_point_file ["0-0 100" +:+ nl; "7-3 50" +:+ nl]
  = parse_point_file ["0-0 100" +:+ nl].
Proof.
  apply (reversed_range_ignored ["0-0 100" +:+ nl] [] ("7-3 50" +:+ nl)
           7 3 50); [vm_compute; reflexivity|lia].
Defined.

(** ** Surrounding whitespace *)

Lemma split_go_blank (w cur : string) :
  all_chars isspace w = true → split_go cur w = split_go cur "".
Proof.
  revert cur. induction w as [|c w IH]; intros cur; simpl; [done|].
  intros [Hc Hw]%andb_prop. rewrite Hc.
  destruct cur; by rewrite (IH "" Hw).
Qed.

Lemma replace_dash_blank (w : string) :
  all_chars isspace w = true → replace_dash w = w.
Proof.
  induction w as [|c w IH]; simpl; [done|].
  intros [Hc Hw]%andb_prop. rewrite (IH Hw).
  destruct (decide (c = "-"%char)) as [->|]; done.
Qed.

Lemma split_replace_lstrip (s : string) :
  split (replace_dash (lstrip s)) = split (replace_dash s).
Proof.
  unfold split. induction s as [|c s IH]; simpl; [done|].
  destruct (isspace c) eqn:Hc; [|done]. rewrite IH.
  destruct (decide (c = "-"%char)) as [->|]; [done|]. simpl. by rewrite Hc.
Qed.

Lemma rstrip_empty_blank (s : string) :
  rstrip s = "" → all_chars isspace s = true.
Proof.
  induction s as [|c s IH]; simpl; [done|].
  destruct (rstrip s) as [|c' r]; [|done].
  destruct (isspace c); [|done]. intros _. by rewrite IH.
Qed.

Lemma split_go_replace_rstrip (s cur : string) :
  split_go cur (replace_dash (rstrip s)) = split_go cur (replace_dash s).
Proof.
  revert cur. induction s as [|c s IH]; intros cur; [done|].
  simpl rstrip. destruct (rstrip s) as [|c2 r] eqn:Hr.
  - pose proof (rstrip_empty_blank s Hr) as Hblank.
    simpl replace_dash at 2. rewrite (replace_dash_blank s Hblank).
    destruct (isspace c) eqn:Hc.
    + destruct (decide (c = "-"%char)) as [->|]; [done|].
      simpl. rewrite Hc. destruct cur; by rewrite (split_go_blank s "").
    + simpl. destruct (isspace (if decide (c = "-"%char) then _ else c)).
      * destruct cur; by rewrite (split_go_blank s "").
      * by rewrite (split_go_blank s).
  - simpl. destruct (isspace (if decide (c = "-"%char) then _ else c)).
    + destruct cur; by rewrite <-(IH "").
    + by rewrite <-IH.
Qed.

(** X7.  Whitespace around a line (indentation, trailing blanks, the line
    terminator) never changes how the line is read: stripping the line
    before it is split has the same tokens as the line itself. *)
Theorem strip_changes_no_token (line : string) :
  split (replace_dash (strip line)) = split (replace_dash line)
  ∧ parse_line (strip line) = parse_line line.
Proof.
  assert (split (replace_dash (strip line)) = split (replace_dash line))
    as Hsplit.
  { unfold strip, split. rewrite split_go_replace_rstrip.
    apply split_replace_lstrip. }
  split; [done|]. unfold parse_line. by rewrite Hsplit.
Qed.

(** ** Members with a path separator *)

(** X8.  A member whose name contains [/] or a backslash is never
    collected: the loop raises the "contains a directory" exception at that
    name (whether or not the name matches the pattern) when the names
    before it raised nothing, and an import from such an archive never
    returns a dataset. *)
Theorem directory_member_rejected (c : Conf) (pre post : list string)
    (n : string) :
  contains "/" n || contains "\" n = true →
  (∀ test_files,
     collect_file (name c) test_files n = Raise (LioLoaderException DIRECTORY))
  ∧ (∀ test_files,
       collect_test_files (name c) pre = Ok test_files →
       collect_test_files (name c) (pre ++ n :: post)
       = Raise (LioLoaderException DIRECTORY))
  ∧ (namelist (test_zip c) = pre ++ n :: post → ∀ ds, get_task c ≠ Ok ds).
Proof.
  intros Hsep.
  assert (Hstep : ∀ tf, collect_file (name c) tf n
                        = Raise (LioLoaderException DIRECTORY)).
  { intros tf. unfold collect_file. by rewrite Hsep. }
  split_and!; [done| |].
  - intros tf Hpre. unfold collect_test_files in *.
    rewrite foldM_app, Hpre. simpl. by rewrite Hstep.
  - intros Hnames ds (_ & d & tf & st & _ & Htf & _)%get_task_inv.
    rewrite Hnames in Htf. unfold collect_test_files in Htf.
    rewrite foldM_app in Htf. apply bind_Ok in Htf as (tf1 & _ & Htf).
    simpl in Htf. by rewrite Hstep in Htf.
Qed.

Example directory_member_rejected_witness :
  collect_test_files "task" ["t.i0"; "dir/t.o0"; "t.i1"]
  = Raise (LioLoaderException DIRECTORY).
Proof.
  destruct (directory_member_rejected (example_conf [] []) ["t.i0"] ["t.i1"]
              "dir/t.o0") as (_ & Hloop & _); [reflexivity|].
  apply (Hloop {[ 0 := {[ "" := {| input := Some "t.i0"; output := None |} ]} ]}).
  vm_compute. reflexivity.
Defined.

(** ** Leading zeros of the group index *)

Lemma int_of_digits (s : string) :
  all_chars isdigit s = true → s ≠ "" →
  (String.length s ≤ int_max_str_digits)%nat →
  int s = match int_digits 0 false s with
          | Some z => Ok z
          | None => Raise ValueError
          end.
Proof.
  intros Hs Hne Hlen%Nat.leb_le. unfold int. rewrite (strip_digits s Hs).
  rewrite (count_digits_digits s Hs), Hlen.
  destruct s as [|c s]; [done|]. simpl in Hs.
  apply andb_prop in Hs as [Hc _].
  assert (c ≠ "+"%char ∧ c ≠ "-"%char) as [Hplus Hminus]
    by (split; intros ->; done).
  assert (match String c s with
          | String "+" r => int_digits 0 false r
          | String "-" r => Z.opp <$> int_digits 0 false r
          | _ => int_digits 0 false (String c s)
          end = int_digits 0 false (String c s)) as ->; [|done].
  clear -Hplus Hminus. ascii_cases c; done.
Qed.

Lemma int_digits_after_zeros (k : nat) (s : string) :
  int_digits 0 true (zeros k +:+ s) = int_digits 0 true s.
Proof. induction k as [|k IH]; [done|]. simpl zeros. by rewrite append_cons. Qed.

Lemma int_digits_first_digit (c : ascii) (s : string) (acc : Z) :
  isdigit c = true →
  int_digits acc false (String c s) = int_digits acc true (String c s).
Proof.
  intros [v Hv]%bool_decide_eq_true. simpl. by rewrite Hv.
Qed.

Lemma all_chars_zeros (k : nat) : all_chars isdigit (zeros k) = true.
Proof. induction k as [|k IH]; [done|]. simpl. by rewrite IH. Qed.

Lemma length_zeros_app (k : nat) (s : string) :
  String.length (zeros k +:+ s) = (k + String.length s)%nat.
Proof. by rewrite length_append, length_zeros. Qed.

Lemma int_leading_zeros (k : nat) (digits : string) :
  all_chars isdigit digits = true → digits ≠ "" →
  (k + String.length digits ≤ int_max_str_digits)%nat →
  int (zeros k +:+ digits) = int digits.
Proof.
  intros Hdigits Hne Hlen. rewrite !int_of_digits; [|done|done|lia| | |].
  - destruct digits as [|c digits]; [done|]. simpl in Hdigits.
    apply andb_prop in Hdigits as [Hc _].
    rewrite (int_digits_first_digit c digits 0 Hc).
    destruct k as [|k]; [by rewrite append_nil, int_digits_first_digit|].
    simpl zeros. rewrite append_cons.
    change (int_digits 0 false (String "0" ?s)) with (int_digits 0 true s).
    by rewrite int_digits_after_zeros.
  - by rewrite all_chars_app, all_chars_zeros.
  - destruct k; [by rewrite append_nil|done].
  - by rewrite length_zeros_app.
Qed.

Lemma append_nil_r (s : string) : s +:+ "" = s.
Proof.
  induction s as [|c s IH]; [done|]. rewrite append_cons. by rewrite IH.
Qed.

(** X9.  Leading zeros of the group index of a member name do not count:
    [x.i01] and [x.i1] are the same side of the same bucket, since the
    digits are converted with [int].  For every name of the form
    [base.(i|o)digits letters] and zeros put in front of the digits, the
    classification is the same, as long as the digit run stays within the
    number of digits that [int] converts. *)
Theorem leading_zeros_same_bucket (base : string) (d : ascii)
    (digits letters : string) (k : nat) :
  (d = "i" ∨ d = "o")%char →
  digits ≠ "" → all_chars isdigit digits = true →
  all_chars islower_az letters = true →
  (k + String.length digits ≤ int_max_str_digits)%nat →
  is_Some (classify (base +:+ String "." (String d (digits +:+ letters))))
  ∧ classify (base +:+ String "."
                (String d ((zeros k +:+ digits) +:+ letters)))
    = classify (base +:+ String "." (String d (digits +:+ letters))).
Proof.
  intros Hd Hne Hdigits Hletters Hlen.
  assert (Hm : ∀ ds, ds ≠ "" → all_chars isdigit ds = true →
    matches_pattern (base +:+ String "." (String d (ds +:+ letters)))
      {| group1 := String d ""; group2 := ds; group3 := letters |}).
  { intros ds Hds1 Hds2. exists base, d, ds, letters, "".
    split_and!; try done; [|by left]. by rewrite append_nil_r. }
  destruct (classify_matches _ _ (Hm digits Hne Hdigits))
    as (g & Hg & _ & Hclass); [simpl; lia|].
  destruct (classify_matches _ _ (Hm (zeros k +:+ digits)
              ltac:(destruct k; [by rewrite append_nil|done])
              ltac:(by rewrite all_chars_app, all_chars_zeros)))
    as (g' & Hg' & _ & Hclass'); [simpl; by rewrite length_zeros_app|].
  simpl in *. rewrite int_leading_zeros in Hg' by done.
  rewrite Hg in Hg'. injection Hg' as <-.
  rewrite Hclass, Hclass'. split; [by eexists|done].
Qed.

Example leading_zeros_same_bucket_witness :
  classify "x.i01" = classify "x.i1"
  ∧ classify "x.i1" = Some (true, 1, "").
Proof.
  destruct (leading_zeros_same_bucket "x" "i" "1" "" 1)
    as [_ Hsame]; [by left|done..| |].
  { unfold int_max_str_digits. simpl. lia. }
  split; [exact Hsame|vm_compute; reflexivity].
Defined.

(** ** Reading a test file *)

Lemma translate_newlines_cons (c : ascii) (s : string) :
  translate_newlines (String c s)
  = if decide (c = "013"%char) then
      match s with
      | String c2 _ =>
          if decide (c2 = "010"%char) then translate_newlines s
          else String "010" (translate_newlines s)
      | "" => String "010" ""
      end
    else String c (translate_newlines s).
Proof.
  destruct (decide (c = "013"%char)) as [->|Hc].
  - destruct s as [|c2 s2]; [done|].
    destruct (decide (c2 = "010"%char)) as [->|Hc2]; [done|].
    clear -Hc2. ascii_cases c2; done.
  - clear -Hc. ascii_cases c; done.
Qed.

Lemma translate_newlines_no_cr (s : string) :
  contains "013" (translate_newlines s) = false.
Proof.
  induction s as [|c s IH]; [done|]. rewrite translate_newlines_cons.
  destruct (decide (c = "013"%char)) as [->|Hc].
  - destruct s as [|c2 s2]; [done|].
    destruct (decide (c2 = "010"%char)); [done|]. simpl. exact IH.
  - simpl. rewrite IH, orb_false_r. by apply bool_decide_eq_false.
Qed.

Lemma translate_newlines_ascii (s : string) :
  all_chars is_ascii s = true →
  all_chars is_ascii (translate_newlines s) = true.
Proof.
  induction s as [|c s IH]; [done|]. simpl all_chars at 1.
  intros [Hc Hs]%andb_prop. rewrite translate_newlines_cons.
  destruct (decide (c = "013"%char)) as [->|_].
  - destruct s as [|c2 s2]; [done|].
    destruct (decide (c2 = "010"%char)); [by apply IH|].
    simpl. by apply IH.
  - simpl. by rewrite Hc, IH.
Qed.

Lemma translate_newlines_id (s : string) :
  contains "013" s = false → translate_newlines s = s.
Proof.
  induction s as [|c s IH]; [done|]. simpl contains.
  intros [Hc Hs]%orb_false_elim. apply bool_decide_eq_false in Hc.
  rewrite translate_newlines_cons, decide_False by done. by rewrite IH.
Qed.

Lemma translate_newlines_length (s : string) :
  (String.length (translate_newlines s) ≤ String.length s)%nat.
Proof.
  induction s as [|c s IH]; [done|]. rewrite translate_newlines_cons.
  destruct (decide (c = "013"%char)) as [->|_].
  - destruct s as [|c2 s2]; [done|].
    destruct (decide (c2 = "010"%char)); simpl in *; lia.
  - simpl. lia.
Qed.

(** X10.  What is stored for a test file: a file with a byte outside ASCII
    is refused with [UnicodeDecodeError]; otherwise the stored content is
    ASCII text without any carriage return and not longer than the file,
    it is the file itself when the file has no carriage return, and reading
    it again gives it back unchanged. *)
Theorem read_ascii_normalises (bytes : string) :
  (all_chars is_ascii bytes = false →
     read_ascii bytes = Raise UnicodeDecodeError)
  ∧ ∀ content, read_ascii bytes = Ok content →
      all_chars is_ascii content = true
      ∧ contains "013" content = false
      ∧ (String.length content ≤ String.length bytes)%nat
      ∧ (contains "013" bytes = false → content = bytes)
      ∧ read_ascii content = Ok content.
Proof.
  unfold read_ascii. split; [by intros ->|].
  destruct (all_chars is_ascii bytes) eqn:Hascii; [|done].
  intros content [= <-].
  pose proof (translate_newlines_no_cr bytes) as Hcr.
  pose proof (translate_newlines_ascii bytes Hascii) as Hascii'.
  split_and!; [done..|apply translate_newlines_length| |].
  - apply translate_newlines_id.
  - rewrite Hascii'. by rewrite (translate_newlines_id _ Hcr).
Qed.

Example read_ascii_normalises_witness :
  read_ascii ("1 2" +:+ String "013" nl +:+ "3" +:+ String "013" "")
  = Ok ("1 2" +:+ nl +:+ "3" +:+ nl)
  ∧ contains "013" ("1 2" +:+ nl +:+ "3" +:+ nl) = false.
Proof.
  assert (read_ascii ("1 2" +:+ String "013" nl +:+ "3" +:+ String "013" "")
          = Ok ("1 2" +:+ nl +:+ "3" +:+ nl)) as Hread
    by (vm_compute; reflexivity).
  destruct (read_ascii_normalises
              ("1 2" +:+ String "013" nl +:+ "3" +:+ String "013" ""))
    as [_ Hok].
  destruct (Hok _ Hread) as (_ & Hcr & _). by split.
Defined.

(** ** When the import succeeds *)

Lemma extract_test_Ok (c : Conf) (width : nat) (group : Z)
    (of_group : gmap string Bucket) (counts counts' : list Z)
    (tcs tcs' : gmap string Testcase) (label : string) :
  extract_test c width group of_group (counts, tcs) label = Ok (counts', tcs') →
  increment counts group = Ok counts'
  ∧ ∃ bucket tc,
      of_group !! label = Some bucket ∧ readable c bucket
      ∧ expected_testcase c width group label bucket = Some tc
      ∧ tcs' = <[codename_of width group label := tc]> tcs.
Proof.
  unfold extract_test.
  intros (counts1 & Hincr & (bucket & Hbucket & Hrest)%bind_Ok)%bind_Ok.
  destruct (of_group !! label) as [bucket'|] eqn:Hlabel; [|done].
  injection Hbucket as ->.
  destruct (input bucket) as [i|] eqn:Hi; [|done].
  destruct (output bucket) as [o|] eqn:Ho; [|done].
  destruct (zip_open (test_zip c) i ≫= read_ascii) as [ci|] eqn:Hci; [|done].
  destruct (zip_open (test_zip c) o ≫= read_ascii) as [co|] eqn:Hco; [|done].
  simpl in Hrest. injection Hrest as <- <-. split; [done|].
  eexists bucket, _. split_and!; [done| | |reflexivity].
  - by exists i, o, ci, co.
  - unfold expected_testcase. rewrite Hi, Ho. simpl. by rewrite Hci, Hco.
Qed.

Lemma extract_labels_readable (c : Conf) (width : nat) (group : Z)
    (of_group : gmap string Bucket) (labels : list string)
    (st st' : list Z * gmap string Testcase) :
  foldM (extract_test c width group of_group) st labels = Ok st' →
  ∀ label, label ∈ labels →
    ∃ bucket, of_group !! label = Some bucket ∧ readable c bucket.
Proof.
  revert st. induction labels as [|l labels IH]; intros st Hloop label.
  { by intros ?%elem_of_nil. }
  simpl in Hloop. apply bind_Ok in Hloop as ([counts1 tcs1] & Hstep & Hrest).
  destruct st as [counts tcs].
  apply extract_test_Ok in Hstep as (_ & bucket & tc & Hbucket & Hread & _).
  intros [->|Hlabel]%elem_of_cons; [by exists bucket|by eapply IH].
Qed.

(** Every group that the outer loop runs over is a group of the point
    file, and its buckets are complete and readable. *)
Lemma extract_groups_Ok_inv (c : Conf) (width : nat)
    (test_files : gmap Z (gmap string Bucket)) (groups : list Z)
    (counts : list Z) (tcs : gmap string Testcase)
    (st : list Z * gmap string Testcase) :
  (∀ g og, test_files !! g = Some og → 0 ≤ g ∧ og ≠ ∅) →
  foldM (extract_group c width test_files) (counts, tcs) groups = Ok st →
  ∀ g, g ∈ groups →
    g < Z.of_nat (length counts)
    ∧ ∃ og, test_files !! g = Some og ∧ all_readable c og.
Proof.
  intros Hgroups. revert counts tcs.
  induction groups as [|g0 groups IH]; intros counts tcs Hloop g.
  { by intros ?%elem_of_nil. }
  simpl in Hloop. apply bind_Ok in Hloop as ([counts1 tcs1] & Hstep & Hrest).
  unfold extract_group, getitem in Hstep.
  destruct (test_files !! g0) as [og|] eqn:Hog; [|done]. simpl in Hstep.
  destruct (Hgroups _ _ Hog) as [Hpos Hne].
  pose proof (extract_labels_readable _ _ _ _ _ _ _ Hstep) as Hread.
  apply extract_labels_counts in Hstep as (x & Hx & ->);
    [|done|by apply sorted_labels_non_empty].
  intros [->|Hg]%elem_of_cons.
  - split; [apply lookup_lt_Some in Hx; lia|]. exists og. split; [done|].
    intros label bucket Hbucket.
    destruct (Hread label) as (bucket' & Hbucket' & Hreadable).
    { apply elem_of_sorted_labels. by exists bucket. }
    by simplify_eq.
  - destruct (IH _ _ Hrest g Hg) as [Hlt Hrd].
    by rewrite length_insert in Hlt.
Qed.

Lemma check_tests_per_group_Ok_inv (counts : list Z) :
  check_tests_per_group counts = Ok () →
  ∀ (i : nat) x, counts !! i = Some x → x ≠ 0.
Proof.
  unfold check_tests_per_group. rewrite foldM_unit_Ok. intros Hall i x Hx.
  pose proof (lookup_lt_Some _ _ _ Hx) as Hi.
  specialize (Hall (Z.of_nat i)). rewrite (check_group_in_range _ _ x Hx) in Hall.
  destruct (decide (x = 0)) as [->|]; [|done].
  exfalso. assert (Z.of_nat i ∈ range 0 (Z.of_nat (length counts))) as Hin
    by (apply elem_of_range; lia).
  by specialize (Hall Hin).
Qed.

(** X11.  What a successful import implies: the score mode is a known
    one and the checker, if any, compiled; the point file parses to some
    [N] groups; every member name is collected; the groups that have tests
    in the archive are exactly [0, ..., N-1] (no group of the point file
    without a test, no test of a group outside the point file); and every
    bucket has both files, members of the archive holding ASCII text. *)
Theorem import_succeeds_only_if (c : Conf) (ds : Dataset) :
  get_task c = Ok ds →
  config_accepted c
  ∧ ∃ d test_files,
      parse_point_file (point_file c) = Ok d
      ∧ collect_test_files (name c) (namelist (test_zip c)) = Ok test_files
      ∧ (∀ g, is_Some (test_files !! g) ↔ 0 ≤ g < Z.of_nat (size d))
      ∧ (∀ g og, test_files !! g = Some og → all_readable c og).
Proof.
  intros (Hconf & d & tf & [counts tcs] & Hd & Htf & Hst & Hfin)%get_task_inv.
  split; [done|]. exists d, tf. split_and!; [done..| |].
  - pose proof (collect_test_files_groups _ _ _ Htf) as Hgroups.
    destruct (extract_tests_counts c tf (size d) _ Hgroups Hst)
      as [Hlen Hcounts].
    unfold extract_tests in Hst.
    apply bind_Ok in Hst as (largest & _ & Hloop).
    pose proof (extract_groups_Ok_inv _ _ _ _ _ _ _ Hgroups Hloop) as Hinv.
    unfold finish in Hfin.
    apply bind_Ok in Hfin as ([] & Hcheck & _). simpl in *.
    pose proof (check_tests_per_group_Ok_inv _ Hcheck) as Hnonzero.
    intros g. split.
    + intros [og Hog]. destruct (Hgroups _ _ Hog) as [Hpos _].
      destruct (Hinv g) as [Hlt _];
        [apply elem_of_sorted_groups; by exists og|].
      rewrite length_replicate in Hlt. lia.
    + intros Hg. destruct (tf !! g) as [og|] eqn:Hnone; [by exists og|].
      exfalso. apply (Hnonzero (Z.to_nat g) 0); [|done].
      rewrite Hcounts by lia. rewrite Z2Nat.id by lia.
      unfold tests_of. by rewrite Hnone.
  - pose proof (collect_test_files_groups _ _ _ Htf) as Hgroups.
    unfold extract_tests in Hst.
    apply bind_Ok in Hst as (largest & _ & Hloop).
    intros g og Hog.
    destruct (extract_groups_Ok_inv _ _ _ _ _ _ _ Hgroups Hloop g)
      as (_ & og' & Hog' & Hread);
      [apply elem_of_sorted_groups; by exists og|].
    by simplify_eq.
Qed.

Example import_succeeds_only_if_witness :
  let c := example_conf ["0-1 30" +:+ nl; "2-2 40" +:+ nl] archive_012 in
  ∃ ds d test_files,
    get_task c = Ok ds
    ∧ parse_point_file (point_file c) = Ok d
    ∧ collect_test_files (name c) (namelist (test_zip c)) = Ok test_files
    ∧ ∀ g, is_Some (test_files !! g) ↔ 0 ≤ g < Z.of_nat (size d).
Proof.
  intros c. destruct (get_task c) as [ds|e] eqn:Hds.
  2:{ vm_compute in Hds. discriminate. }
  destruct (import_succeeds_only_if c ds Hds)
    as (_ & d & tf & Hd & Htf & Hdom & _).
  exists ds, d, tf. exact (conj eq_refl (conj Hd (conj Htf Hdom))).
Defined.

(** ** Codenames do not collide *)

Lemma pretty_N_go_head (x : N) (s : string) :
  (0 < x)%N → ∃ c r, pretty_N_go x s = String c r ∧ c ≠ "0"%char.
Proof.
  revert s. induction (N.lt_wf_0 x) as [x _ IH]; intros s Hx.
  rewrite pretty_N_go_step by done.
  destruct (decide (x `div` 10 = 0)%N) as [Hdiv|Hdiv].
  - rewrite Hdiv, pretty_N_go_0. eexists _, _. split; [done|].
    apply N.div_small_iff in Hdiv; [|done].
    rewrite N.mod_small by done.
    assert (x = 1 ∨ x = 2 ∨ x = 3 ∨ x = 4 ∨ x = 5 ∨ x = 6 ∨ x = 7
            ∨ x = 8 ∨ x = 9)%N as Hcases by lia.
    destruct Hcases as [->|[->|[->|[->|[->|[->|[->|[->| ->]]]]]]]]; done.
  - apply IH; [apply N.div_lt; lia|by apply N.neq_0_lt_0].
Qed.

Lemma str_canonical (g : Z) : 0 ≤ g → canonical (str g).
Proof.
  intros Hg. destruct (decide (g = 0)) as [->|Hne]; [by left|right].
  rewrite str_nonneg by done. unfold pretty, pretty_N.
  rewrite decide_False by lia. apply pretty_N_go_head. lia.
Qed.

Lemma zeros_canonical_inj (k k' : nat) (s s' : string) :
  canonical s → canonical s' → zeros k +:+ s = zeros k' +:+ s' → s = s'.
Proof.
  intros Hs Hs'. revert k'. induction k as [|k IH]; intros [|k']; simpl.
  - by rewrite !append_nil.
  - rewrite append_nil, append_cons. intros ->.
    destruct Hs as [[= Hs]|(c & r & [= <- _] & Hc)]; [|done].
    destruct k'; [|done]. rewrite append_nil in Hs. subst s'.
    by destruct Hs' as [|(? & ? & ? & _)].
  - rewrite append_nil, append_cons. intros <-.
    destruct Hs' as [[= Hs']|(c & r & [= <- _] & Hc)]; [|done].
    destruct k; [|done]. rewrite append_nil in Hs'. subst s.
    by destruct Hs as [|(? & ? & ? & _)].
  - rewrite !append_cons. intros [= Heq]. by apply (IH k').
Qed.

Lemma append_inj_length (a a' b b' : string) :
  String.length a = String.length a' → a +:+ b = a' +:+ b' →
  a = a' ∧ b = b'.
Proof.
  revert a'. induction a as [|c a IH]; intros [|c' a']; simpl; try done.
  intros [= Hlen]. rewrite !append_cons. intros [= -> Heq].
  destruct (IH a' Hlen Heq) as [-> ->]. done.
Qed.

(** X12.  Within one archive, two buckets never get the same codename:
    for group indices between 0 and the largest one, padded to the width
    of the largest, equal codenames mean equal group and equal sub-index
    label (also when a label starts with digits). *)
Theorem codename_injective (largest g g' : Z) (label label' : string) :
  0 ≤ g ≤ largest → 0 ≤ g' ≤ largest →
  codename_of (String.length (str largest)) g label
  = codename_of (String.length (str largest)) g' label' →
  g = g' ∧ label = label'.
Proof.
  intros Hg Hg' Heq. unfold codename_of in Heq.
  apply append_inj_length in Heq as [Hnum ->];
    [|by rewrite !length_format_zero].
  split; [|done]. rewrite !format_zero_nonneg in Hnum by lia.
  apply zeros_canonical_inj in Hnum; [|apply str_canonical; lia..].
  by apply (inj pretty) in Hnum.
Qed.

Example codename_injective_witness :
  codename_of (String.length (str 12)) 1 "2" = "012"
  ∧ (codename_of (String.length (str 12)) 1 "2"
     = codename_of (String.length (str 12)) 12 "" → (1 : Z) = 12).
Proof.
  split; [vm_compute; reflexivity|].
  intros Heq. apply (codename_injective 12 1 12 "2" "" ltac:(lia) ltac:(lia) Heq).
Defined.

(** ** The testcases of a dataset *)

Lemma extract_groups_from_buckets (c : Conf) (width : nat)
    (test_files : gmap Z (gmap string Bucket)) (groups : list Z)
    (st st' : list Z * gmap string Testcase) :
  foldM (extract_group c width test_files) st groups = Ok st' →
  from_buckets c width test_files st.2 →
  from_buckets c width test_files st'.2.
Proof.
  intros Hloop Hst. revert Hloop.
  apply (foldM_invariant
           (λ st : list Z * gmap string Testcase,
              from_buckets c width test_files st.2)); [|done].
  clear. intros st g st' _ Hst. unfold extract_group, getitem.
  destruct (test_files !! g) as [og|] eqn:Hog; [|done]. simpl.
  apply (foldM_invariant
           (λ st : list Z * gmap string Testcase,
              from_buckets c width test_files st.2)); [|done].
  clear st st' Hst. intros [counts tcs] label [counts' tcs'] _ Hst.
  intros (_ & bucket & tc & Hbucket & _ & Htc & ->)%extract_test_Ok.
  simpl in *. intros key tc'. rewrite lookup_insert_Some.
  intros [[<- <-]|[_ Hkey]]; [|by apply Hst].
  by exists g, og, label, bucket.
Qed.

(** X13.  In the dataset of a successful import, every bucket of the
    archive has its testcase under the codename of the bucket, and that
    testcase carries this codename, is public exactly when its group is in
    [public_groups] (groups 0 and 1 when the key is absent), and holds the
    normalised contents of the input and output members named in the
    bucket. *)
Theorem testcases_of_buckets (c : Conf) (ds : Dataset) :
  get_task c = Ok ds →
  ∃ test_files largest,
    collect_test_files (name c) (namelist (test_zip c)) = Ok test_files
    ∧ py_max (keys test_files) = Ok largest
    ∧ ∀ g og label bucket,
        test_files !! g = Some og → og !! label = Some bucket →
        ∃ tc,
          testcases ds !! codename_of (String.length (str largest)) g label
          = Some tc
          ∧ expected_testcase c (String.length (str largest)) g label bucket
            = Some tc.
Proof.
  intros (Hconf & d & tf & [counts tcs] & Hd & Htf & Hst & Hfin)%get_task_inv.
  pose proof (collect_test_files_groups _ _ _ Htf) as Hgroups.
  unfold extract_tests in Hst. apply bind_Ok in Hst as (largest & Hmax & Hloop).
  exists tf, largest. split_and!; [done..|].
  unfold finish in Hfin. apply bind_Ok in Hfin as ([] & _ & [= <-]). simpl.
  destruct (py_max_spec _ _ Hmax) as [_ Hle].
  pose proof (extract_groups_from_buckets _ _ _ _ _ _ Hloop) as Hfrom.
  apply extract_groups_keys in Hloop as [_ Hkeys].
  intros g og label bucket Hog Hbucket.
  destruct (proj2 (Hkeys (codename_of (String.length (str largest)) g label)))
    as [tc Htc].
  { right. exists g, og, label. rewrite elem_of_sorted_groups, Hog, Hbucket.
    eauto. }
  exists tc. split; [done|].
  assert (from_buckets c (String.length (str largest)) tf tcs) as Hfrom'.
  { apply Hfrom. intros key tc'. simpl. by rewrite lookup_empty. }
  destruct (Hfrom' _ _ Htc)
    as (g' & og' & label' & bucket' & Hog' & Hbucket' & Hkey & Hexp).
  assert (0 ≤ g ≤ largest ∧ 0 ≤ g' ≤ largest) as [Hg Hg'].
  { split; (split; [by eapply Hgroups|]); apply Hle, elem_of_keys; eauto. }
  unfold codename_of in Hkey.
  apply append_inj_length in Hkey as [Hnum <-];
    [|by rewrite !length_format_zero].
  rewrite !format_zero_nonneg in Hnum by lia.
  apply zeros_canonical_inj in Hnum; [|apply str_canonical; lia..].
  apply (inj pretty) in Hnum as <-. by simplify_eq.
Qed.

Example testcases_of_buckets_witness :
  ∃ ds tc,
    get_task (example_conf ["0-1 30" +:+ nl; "2-2 40" +:+ nl] archive_012)
    = Ok ds
    ∧ testcases ds !! "2" = Some tc
    ∧ tc = {| codename := "2"; public := false;
              input_digest := "5" +:+ nl; output_digest := "6" +:+ nl |}.
Proof.
  destruct (get_task
              (example_conf ["0-1 30" +:+ nl; "2-2 40" +:+ nl] archive_012))
    as [ds|e] eqn:Hds.
  2:{ vm_compute in Hds. discriminate. }
  destruct (testcases_of_buckets _ ds Hds) as (tf & largest & Htf & Hmax & Hall).
  vm_compute in Htf. injection Htf as <-.
  vm_compute in Hmax. injection Hmax as <-.
  destruct (Hall 2 (one_test "t.i2" "t.o2") ""
              {| input := Some "t.i2"; output := Some "t.o2" |})
    as (tc & Htc & Hexp); [reflexivity..|].
  exists ds, tc. split_and!; [done|exact Htc|].
  vm_compute in Hexp. by injection Hexp as <-.
Defined.

(** ** The exceptions of the loader *)

(** A loop raises only what one of its iterations raises. *)
Lemma foldM_Raise {A B : Type} (f : B → A → result B) (l : list A) (b : B)
    (e : exn) :
  foldM f b l = Raise e → ∃ b' x, x ∈ l ∧ f b' x = Raise e.
Proof.
  revert b. induction l as [|x l IH]; intros b; simpl; [done|].
  destruct (f b x) as [b1|e1] eqn:Hx; simpl.
  - intros (b' & y & Hy & Hraise)%IH. exists b', y. split; [by right|done].
  - intros [= <-]. exists b, x. split; [apply list_elem_of_here|done].
Qed.

Lemma index_int_raises (vars : list string) (i : nat) (e : exn) :
  index vars i ≫= int = Raise e → e = IndexError ∨ e = ValueError.
Proof.
  unfold index. destruct (vars !! i) as [t|]; simpl; [|by intros [= <-]; left].
  unfold int. destruct (match strip t with "" => _ | _ => _ end);
    [destruct (_ <=? _)%nat|]; intros [= <-]; by right.
Qed.

Lemma parse_line_raises (line : string) (e : exn) :
  parse_line line = Raise e → e = IndexError ∨ e = ValueError.
Proof.
  unfold parse_line.
  destruct (index _ 0 ≫= int) as [a|e0] eqn:Ha; simpl.
  2:{ intros [= <-]. by apply index_int_raises in Ha. }
  destruct (index _ 1 ≫= int) as [b|e1] eqn:Hb; simpl.
  2:{ intros [= <-]. by apply index_int_raises in Hb. }
  destruct (index _ 2 ≫= int) as [p|e2] eqn:Hp; simpl; [done|].
  intros [= <-]. by apply index_int_raises in Hp.
Qed.

(** The three messages of [parse_point_file]. *)
Lemma parse_point_file_messages (lines : list string) (msg : string) :
  parse_point_file lines = Raise (LioLoaderException msg) →
  msg ∈ [DUPLICATED; MISSING; BAD_SUM].
Proof.
  unfold parse_point_file.
  destruct (read_points lines) as [d|e] eqn:Hread; simpl.
  - destruct (foldM (check_group_present d) () _) as [[]|e] eqn:Hcheck; simpl.
    + destruct (decide (sum_values d ≠ 100)); [|done].
      intros [= <-]. set_solver.
    + intros [= ->]. apply check_group_present_raises in Hcheck as [= <-].
      set_solver.
  - intros [= ->]. unfold read_points in Hread.
    apply foldM_Raise in Hread as (d & line & _ & Hline).
    unfold process_line in Hline.
    destruct (parse_line line) as [[[a b] p]|e] eqn:Hparse; simpl in Hline.
    + destruct (assign_groups_result p (range a (b + 1)) d)
        as [Hdup|(d' & Hd' & _)]; unfold assign_range in Hline.
      * rewrite Hdup in Hline. injection Hline as <-. set_solver.
      * by rewrite Hd' in Hline.
    + injection Hline as ->. by apply parse_line_raises in Hparse as [|].
Qed.

(** The two messages of the first loop over the archive, each with a name
    that has the defect. *)
Lemma collect_test_files_messages (task : string) (names : list string)
    (msg : string) :
  collect_test_files task names = Raise (LioLoaderException msg) →
  ∃ n, n ∈ names
       ∧ ((msg = DIRECTORY ∧ ¬ flat n)
          ∨ (msg = UNSUPPORTED task ∧ search n = None)).
Proof.
  unfold collect_test_files. intros (tf & n & Hn & Hraise)%foldM_Raise.
  exists n. split; [done|]. unfold collect_file, flat in *.
  destruct (contains "/" n) eqn:Hslash; simpl in Hraise.
  { injection Hraise as <-. left. split; [done|]. by intros [? _]. }
  destruct (contains "\" n) eqn:Hback; simpl in Hraise.
  { injection Hraise as <-. left. split; [done|]. by intros [_ ?]. }
  destruct (search n) as [m|]; [|injection Hraise as <-; by right].
  unfold int in Hraise.
  destruct (match strip (group2 m) with "" => _ | _ => _ end);
    [destruct (_ <=? _)%nat|]; done.
Qed.

Lemma increment_raises (l : list Z) (i : Z) (e : exn) :
  increment l i = Raise e → e = IndexError.
Proof.
  unfold increment, list_position, index.
  destruct (decide (0 ≤ i < _)); simpl.
  - destruct (l !! _); simpl; [done|by intros [= <-]].
  - destruct (decide (_ ≤ i < 0)); simpl; [|by intros [= <-]].
    destruct (l !! _); simpl; [done|by intros [= <-]].
Qed.

Lemma zip_read_raises (zip : list (string * string)) (member : string)
    (e : exn) :
  zip_open zip member ≫= read_ascii = Raise e →
  e = KeyError ∨ e = UnicodeDecodeError.
Proof.
  unfold zip_open. destruct (list_find _ _) as [[? [? bytes]]|]; simpl.
  - unfold read_ascii. destruct (all_chars is_ascii bytes); [done|].
    intros [= <-]. by right.
  - intros [= <-]. by left.
Qed.

(** The one message of the second loop: it names a bucket that lacks its
    input or its output. *)
Lemma extract_tests_messages (c : Conf)
    (test_files : gmap Z (gmap string Bucket)) (counts : list Z)
    (msg : string) :
  extract_tests c test_files counts = Raise (LioLoaderException msg) →
  ∃ g og label bucket,
    test_files !! g = Some og ∧ og !! label = Some bucket
    ∧ (input bucket = None ∨ output bucket = None)
    ∧ msg = INCOMPLETE g label.
Proof.
  unfold extract_tests.
  destruct (py_max (keys test_files)) as [largest|] eqn:Hmax; simpl.
  2:{ intros [= ->]. unfold py_max in Hmax. by destruct (keys test_files). }
  intros ([counts1 tcs1] & g & _ & Hgroup)%foldM_Raise.
  unfold extract_group, getitem in Hgroup.
  destruct (test_files !! g) as [og|] eqn:Hog; simpl in Hgroup; [|done].
  apply foldM_Raise in Hgroup as ([counts2 tcs2] & label & _ & Htest).
  unfold extract_test in Htest.
  destruct (increment counts2 g) as [counts3|e] eqn:Hincr; simpl in Htest.
  2:{ apply increment_raises in Hincr. by subst e. }
  destruct (og !! label) as [bucket|] eqn:Hbucket; simpl in Htest; [|done].
  exists g, og, label, bucket. split_and!; [done..| |].
  - destruct (input bucket); [|by left]. destruct (output bucket); [|by right].
    exfalso.
    destruct (zip_open (test_zip c) s ≫= read_ascii) as [ci|e] eqn:Hci;
      simpl in Htest.
    2:{ apply zip_read_raises in Hci as [-> | ->]; done. }
    destruct (zip_open (test_zip c) s0 ≫= read_ascii) as [co|e] eqn:Hco;
      simpl in Htest; [done|].
    apply zip_read_raises in Hco as [-> | ->]; done.
  - destruct (input bucket) as [i|]; [|by injection Htest].
    destruct (output bucket) as [o|]; [|by injection Htest].
    exfalso.
    destruct (zip_open (test_zip c) i ≫= read_ascii) as [ci|e] eqn:Hci;
      simpl in Htest.
    2:{ apply zip_read_raises in Hci as [-> | ->]; done. }
    destruct (zip_open (test_zip c) o ≫= read_ascii) as [co|e] eqn:Hco;
      simpl in Htest; [done|].
    apply zip_read_raises in Hco as [-> | ->]; done.
Qed.

(** The final check raises for a count of zero only. *)
Lemma check_tests_per_group_raises (counts : list Z) (e : exn) :
  check_tests_per_group counts = Raise e →
  ∃ i : nat, counts !! i = Some 0
             ∧ e = LioLoaderException (NO_TESTCASES (Z.of_nat i)).
Proof.
  unfold check_tests_per_group.
  intros ([] & k & Hk%elem_of_range & Hraise)%foldM_Raise.
  destruct (lookup_lt_is_Some_2 counts (Z.to_nat k)) as [x Hx]; [lia|].
  exists (Z.to_nat k). rewrite <-(Z2Nat.id k) in Hraise by lia.
  rewrite (check_group_in_range _ _ x Hx) in Hraise.
  destruct (decide (x = 0)) as [->|]; [|done]. by injection Hraise as <-.
Qed.

(** The exceptions of the score mode and of the checker, or an accepted
    configuration. *)
Lemma get_task_config (c : Conf) :
  (default SCORE_MODE_MAX_TOKENED_LAST (score_mode c) = OtherScoreMode
   ∧ get_task c = Raise (LioLoaderException "Unknown score mode provided"))
  ∨ (default SCORE_MODE_MAX_TOKENED_LAST (score_mode c) ≠ OtherScoreMode
     ∧ (∃ code, checker c = Some code ∧ code ≠ 0)
     ∧ get_task c = Raise (LioLoaderException "Could not compile checker"))
  ∨ config_accepted c.
Proof.
  unfold get_task, config_accepted.
  destruct (default _ (score_mode c)) eqn:Hmode; simpl; [..|by left].
  all: destruct (checker c) as [code|]; [|right; right; split; [done|by left]].
  all: destruct (decide (code ≠ 0)) as [Hcode|Hcode]; simpl;
         [right; left; split_and!; [done|by exists code|done]|].
  all: apply dec_stable in Hcode as ->; right; right; split; [done|by right].
Qed.

(** With an accepted configuration, an exception of the point file, and
    after it one of the member names, ends the import. *)
Lemma get_task_early_exception (c : Conf) (e : exn) :
  config_accepted c →
  parse_point_file (point_file c) = Raise e
  ∨ (∃ d, parse_point_file (point_file c) = Ok d
          ∧ collect_test_files (name c) (namelist (test_zip c)) = Raise e) →
  get_task c = Raise e.
Proof.
  intros [Hmode Hchecker] Hraise. unfold get_task.
  destruct Hraise as [->|(d & Hd & ->)].
  - destruct (default _ (score_mode c)); simpl; [..|done];
      by destruct Hchecker as [-> | ->].
  - rewrite Hd.
    pose proof (mapM_score_parameter d (range 0 (Z.of_nat (size d)))) as Hmap.
    destruct (default _ (score_mode c)); simpl; [..|done];
      destruct Hchecker as [-> | ->]; simpl; rewrite Hmap; try done;
      intros k Hk%elem_of_range; by apply (parse_point_file_inv _ _ Hd).
Qed.

(** X14.  Every [LioLoaderException] that the import raises names a defect
    that is there, found at its place in the order of the source: an
    unknown score mode; with a known score mode, a checker whose
    compilation failed; with an accepted configuration, one of the three
    messages of the point file, raised by [parse_point_file]; with a point
    file that parses, a member name with a path separator or without a
    match; with all names collected, a bucket that lacks its input or its
    output, or a group of the point file without any test. *)
Theorem loader_exception_names_defect (c : Conf) (msg : string) :
  get_task c = Raise (LioLoaderException msg) →
  (msg = "Unknown score mode provided"
   ∧ default SCORE_MODE_MAX_TOKENED_LAST (score_mode c) = OtherScoreMode)
  ∨ (msg = "Could not compile checker"
     ∧ default SCORE_MODE_MAX_TOKENED_LAST (score_mode c) ≠ OtherScoreMode
     ∧ ∃ code, checker c = Some code ∧ code ≠ 0)
  ∨ (config_accepted c
     ∧ msg ∈ [DUPLICATED; MISSING; BAD_SUM]
     ∧ parse_point_file (point_file c) = Raise (LioLoaderException msg))
  ∨ (config_accepted c
     ∧ (∃ d, parse_point_file (point_file c) = Ok d)
     ∧ ∃ n, n ∈ namelist (test_zip c)
            ∧ ((msg = DIRECTORY ∧ ¬ flat n)
               ∨ (msg = UNSUPPORTED (name c) ∧ search n = None)))
  ∨ (config_accepted c
     ∧ ∃ d test_files,
         parse_point_file (point_file c) = Ok d
         ∧ collect_test_files (name c) (namelist (test_zip c)) = Ok test_files
         ∧ ((∃ g og label bucket,
               test_files !! g = Some og ∧ og !! label = Some bucket
               ∧ (input bucket = None ∨ output bucket = None)
               ∧ msg = INCOMPLETE g label)
            ∨ (∃ i, 0 ≤ i < Z.of_nat (size d) ∧ test_files !! i = None
                    ∧ msg = NO_TESTCASES i))).
Proof.
  intros Hraise.
  destruct (get_task_config c)
    as [[Hmode Hc]|[(Hmode & Hcode & Hc)|Hconf]].
  { rewrite Hc in Hraise. injection Hraise as <-. by left. }
  { rewrite Hc in Hraise. injection Hraise as <-. right. by left. }
  do 2 right.
  destruct (parse_point_file (point_file c)) as [d|e] eqn:Hd.
  2:{ rewrite (get_task_early_exception c e Hconf) in Hraise by (by left).
      injection Hraise as ->. left. split_and!; [done| |done].
      by apply (parse_point_file_messages (point_file c)). }
  right.
  destruct (collect_test_files (name c) (namelist (test_zip c)))
    as [tf|e] eqn:Htf.
  2:{ rewrite (get_task_early_exception c e Hconf) in Hraise by (right; eauto).
      injection Hraise as ->. left. split_and!; [done|by exists d|].
      by apply collect_test_files_messages. }
  right. split; [done|]. exists d, tf. split_and!; [done..|].
  rewrite (get_task_stages c d tf Hconf Hd Htf) in Hraise.
  destruct (extract_tests c tf (replicate (size d) 0)) as [st|e] eqn:Hst;
    simpl in Hraise.
  2:{ injection Hraise as ->. left.
      by apply (extract_tests_messages c tf (replicate (size d) 0)). }
  right. unfold finish in Hraise.
  destruct (check_tests_per_group st.1) as [[]|e] eqn:Hcheck;
    simpl in Hraise; [done|].
  injection Hraise as ->.
  apply check_tests_per_group_raises in Hcheck as (i & Hi & [= ->]).
  pose proof (collect_test_files_groups _ _ _ Htf) as Hgroups.
  destruct (extract_tests_counts c tf (size d) st Hgroups Hst)
    as [Hlen Hcounts].
  pose proof (lookup_lt_Some _ _ _ Hi) as Hlt. rewrite Hlen in Hlt.
  exists (Z.of_nat i). split_and!; [lia|lia| |done].
  rewrite (Hcounts i Hlt) in Hi. injection Hi as Hi. unfold tests_of in Hi.
  destruct (tf !! Z.of_nat i) as [og|] eqn:Hog; [exfalso|done].
  destruct (Hgroups _ _ Hog) as [_ Hne]. apply Hne. simpl in Hi.
  apply map_size_empty_iff. lia.
Qed.

Example loader_exception_names_defect_witness :
  let c := example_conf ["0-1 30" +:+ nl; "2-2 40" +:+ nl]
                        (("readme.txt", "") :: archive_012) in
  ∃ n, n ∈ namelist (test_zip c) ∧ search n = None.
Proof.
  intros c.
  destruct (loader_exception_names_defect c (UNSUPPORTED "task"))
    as [[Hmsg _]|[[Hmsg _]|[(_ & _ & Hp)|[(_ & _ & n & Hn & Hdefect)
        |(_ & d & tf & _ & Htf & _)]]]].
  - vm_compute. reflexivity.
  - vm_compute in Hmsg. discriminate.
  - vm_compute in Hmsg. discriminate.
  - vm_compute in Hp. discriminate.
  - exists n. split; [done|].
    destruct Hdefect as [[Hmsg _]|[_ Hsearch]]; [|done].
    vm_compute in Hmsg. discriminate.
  - vm_compute in Htf. discriminate.
Defined.

(** ** [set_if_present] *)

(** X15.  [set_if_present] changes the target at no other key than the
    one it is called for, never removes a key, and two calls for different
    keys that both return give the same target in either order: the order
    of the calls in the loaders has no influence on the arguments built. *)
Theorem set_if_present_frame_commute {V : Type}
    (src trg : gmap string V) (k1 k2 : string)
    (conv1 conv2 : V → result V) (d1 d2 : option V)
    (t1 t12 : gmap string V) :
  k1 ≠ k2 →
  set_if_present src trg k1 conv1 d1 = Ok t1 →
  set_if_present src t1 k2 conv2 d2 = Ok t12 →
  (∀ k, k ≠ k1 → t1 !! k = trg !! k)
  ∧ (∀ k, is_Some (trg !! k) → is_Some (t1 !! k))
  ∧ ∃ t2, set_if_present src trg k2 conv2 d2 = Ok t2
          ∧ set_if_present src t2 k1 conv1 d1 = Ok t12.
Proof.
  intros Hne H1 H2. unfold set_if_present in *.
  destruct (src !! k1) as [v1|], (src !! k2) as [v2|].
  - destruct (conv1 v1) as [v1'|]; [|done].
    destruct (conv2 v2) as [v2'|]; [|done]. simplify_eq/=.
    split_and!.
    + intros k Hk. by rewrite lookup_insert_ne.
    + intros k Hk. rewrite lookup_insert_is_Some'. by right.
    + eexists. split; [done|]. by rewrite insert_insert_ne.
  - destruct (conv1 v1) as [v1'|]; [|done]. simplify_eq/=.
    split_and!.
    + intros k Hk. by rewrite lookup_insert_ne.
    + intros k Hk. rewrite lookup_insert_is_Some'. by right.
    + destruct d2; simplify_eq/=; eexists; split; try done.
      by rewrite insert_insert_ne.
  - destruct (conv2 v2) as [v2'|]; [|done].
    destruct d1; simplify_eq/=; split_and!; try done.
    + intros k Hk. by rewrite lookup_insert_ne.
    + intros k Hk. rewrite lookup_insert_is_Some'. by right.
    + eexists. split; [done|]. by rewrite insert_insert_ne.
    + by eexists.
  - destruct d1 as [v1|], d2 as [v2|]; simplify_eq/=; split_and!; try done;
      try (intros k Hk; by rewrite lookup_insert_ne);
      try (intros k Hk; rewrite lookup_insert_is_Some'; by right);
      try (by eexists).
    eexists. split; [done|]. by rewrite insert_insert_ne.
Qed.

Example set_if_present_frame_commute_witness :
  ∃ t2 : gmap string Z,
    set_if_present {[ "max_submission_number" := 7 ]} ∅
      "max_user_test_number" Ok (Some 40) = Ok t2
    ∧ set_if_present {[ "max_submission_number" := 7 ]} t2
        "max_submission_number" Ok (Some 40)
      = Ok {[ "max_submission_number" := 7; "max_user_test_number" := 40 ]}.
Proof.
  destruct (set_if_present_frame_commute
              ({[ "max_submission_number" := 7 ]} : gmap string Z) ∅
              "max_submission_number" "max_user_test_number" Ok Ok
              (Some 40) (Some 40)
              {[ "max_submission_number" := 7 ]}
              {[ "max_submission_number" := 7; "max_user_test_number" := 40 ]})
    as (_ & _ & t2 & Ht2 & Ht12); [done|vm_compute; reflexivity..|].
  by exists t2.
Defined.

(** ** Where the files of a task are looked up *)

Lemma head_of_file (d f : string) :
  contains "/" f = false → head_of (d +:+ "/" +:+ f) = d +:+ "/".
Proof.
  intros Hf. change ("/" +:+ f) with (String "/" f).
  induction d as [|c d IH].
  - rewrite !append_nil. simpl. by rewrite Hf.
  - rewrite !append_cons.
    change (head_of (String c ?p))
      with (if contains "/" p then String c (head_of p)
            else if is_sep c then "/" else "").
    rewrite IH, contains_app. simpl. by rewrite orb_true_r.
Qed.

Lemma rstrip_sep_slash (s : string) : rstrip_sep (s +:+ "/") = rstrip_sep s.
Proof.
  induction s as [|c s IH]; [done|]. rewrite append_cons. simpl.
  by rewrite IH.
Qed.

Lemma rstrip_sep_id (s : string) : endswith_sep s = false → rstrip_sep s = s.
Proof.
  induction s as [|c s IH]; [done|]. simpl. destruct s as [|c' s].
  - simpl. by intros ->.
  - intros Hs. by rewrite (IH Hs).
Qed.

Lemma not_all_sep (s : string) :
  s ≠ "" → endswith_sep s = false → all_chars is_sep s = false.
Proof.
  induction s as [|c s IH]; [done|]. intros _. simpl. destruct s as [|c' s].
  - intros ->. done.
  - intros Hs. rewrite IH by done. apply andb_false_r.
Qed.

Lemma endswith_sep_app (a b : string) :
  b ≠ "" → endswith_sep (a +:+ b) = endswith_sep b.
Proof.
  intros Hb. induction a as [|c a IH]; [done|]. rewrite append_cons. simpl.
  rewrite IH. destruct (a +:+ b) eqn:Hab; [|done].
  destruct a; [|done]. rewrite append_nil in Hab. by subst b.
Qed.

Lemma dirname_file (d f : string) :
  d ≠ "" → endswith_sep d = false → contains "/" f = false →
  dirname (d +:+ "/" +:+ f) = d.
Proof.
  intros Hd Hend Hf. unfold dirname. rewrite head_of_file by done.
  rewrite all_chars_app, (not_all_sep d) by done. simpl.
  rewrite bool_decide_eq_true_2 by (by destruct d). simpl.
  by rewrite rstrip_sep_slash, rstrip_sep_id.
Qed.

Lemma path_join_relative (a b : string) :
  a ≠ "" → endswith_sep a = false → startswith_sep b = false →
  path_join a b = a +:+ "/" +:+ b.
Proof.
  intros Ha Hend Hb. unfold path_join. rewrite Hb, Hend.
  by rewrite bool_decide_eq_false_2.
Qed.

(** X16.  For a contest file [dir/file] and a task that the contest lists
    without a configuration path of its own (a null entry, or a dict
    without ['config']), the task loader is given [dir/taskname/task.yaml];
    its task directory is [dir/taskname], and the point file is looked up
    at [dir/taskname/punkti.txt] unless the task names another one.  This
    holds for a non-empty [dir] that does not end with a separator and a
    non-empty relative task name that does not end with one. *)
Theorem task_files_layout (dir file taskname : string)
    (tasks : gmap string (option (option string))) :
  dir ≠ "" → endswith_sep dir = false → contains "/" file = false →
  taskname ≠ "" → startswith_sep taskname = false →
  endswith_sep taskname = false →
  tasks !! taskname = Some None ∨ tasks !! taskname = Some (Some None) →
  let task_yaml := dir +:+ "/" +:+ taskname +:+ "/" +:+ "task.yaml" in
  get_task_loader (dir +:+ "/" +:+ file) tasks taskname = Ok task_yaml
  ∧ task_dir task_yaml = dir +:+ "/" +:+ taskname
  ∧ point_file_path task_yaml None
    = dir +:+ "/" +:+ taskname +:+ "/" +:+ "punkti.txt".
Proof.
  intros Hdir Hdend Hfile Htask Hstart Hend Hentry task_yaml.
  assert (Hjoin : path_join taskname "task.yaml" = taskname +:+ "/task.yaml")
    by (by apply path_join_relative).
  assert (Hdt : dir +:+ "/" +:+ taskname ≠ ""
                ∧ endswith_sep (dir +:+ "/" +:+ taskname) = false).
  { split; [by destruct dir|].
    rewrite endswith_sep_app by done.
    change ("/" +:+ taskname) with (String "/" taskname). simpl.
    by destruct taskname. }
  destruct Hdt as [Hdt1 Hdt2].
  assert (Hassoc : ∀ x, dir +:+ "/" +:+ taskname +:+ "/" +:+ x
                        = (dir +:+ "/" +:+ taskname) +:+ "/" +:+ x).
  { intros x. by rewrite !append_assoc. }
  assert (Hdirname : task_dir task_yaml = dir +:+ "/" +:+ taskname).
  { unfold task_dir, task_yaml. rewrite Hassoc. by apply dirname_file. }
  split_and!; [|done|].
  - unfold get_task_loader, getitem. rewrite dirname_file by done.
    rewrite Hjoin.
    assert (path_join dir (taskname +:+ "/task.yaml") = task_yaml) as Hp.
    { rewrite path_join_relative; [done..|]. by destruct taskname. }
    destruct Hentry as [-> | ->]; simpl; by rewrite Hp.
  - unfold point_file_path. rewrite Hdirname. simpl.
    rewrite path_join_relative by done. by rewrite !append_assoc.
Qed.

Example task_files_layout_witness :
  get_task_loader "contests/lio/contest.yaml" {[ "sum" := None ]} "sum"
  = Ok "contests/lio/sum/task.yaml"
  ∧ point_file_path "contests/lio/sum/task.yaml" None
    = "contests/lio/sum/punkti.txt".
Proof.
  destruct (task_files_layout "contests/lio" "contest.yaml" "sum"
              {[ "sum" := None ]}) as (Hloader & _ & Hpoints);
    [done..|by left|].
  split; [exact Hloader|exact Hpoints].
Defined.

(** A task that the contest does not list, and a task with a configuration
    path of its own. *)
Example get_task_loader_edges :
  get_task_loader "c/contest.yaml" {[ "sum" := None ]} "max" = Raise KeyError
  ∧ get_task_loader "c/contest.yaml" {[ "sum" := Some (Some "x/sum.yaml") ]}
      "sum" = Ok "c/x/sum.yaml"
  ∧ get_task_loader "c/contest.yaml" {[ "sum" := Some (Some "/abs/sum.yaml") ]}
      "sum" = Ok "/abs/sum.yaml"
  ∧ dirname "contest.yaml" = "" ∧ dirname "/contest.yaml" = "/"
  ∧ dirname "a//b" = "a".
Proof. by vm_compute. Qed.

(** ** The order of the lines *)

(** The loop over one range returns exactly when its groups are all new,
    and then adds them with the points of the line. *)
Lemma assign_range_Ok (d d' : gmap Z Z) (a b points : Z) :
  assign_range d (a, b, points) = Ok d' ↔
  (∀ g, a ≤ g ≤ b → d !! g = None)
  ∧ ∀ g, d' !! g = if decide (a ≤ g ≤ b) then Some points else d !! g.
Proof.
  unfold assign_range. split.
  - intros Hd'.
    destruct (assign_groups_result points (range a (b + 1)) d)
      as [Hdup|(d1 & Hd1 & _ & _ & Hfresh)]; [congruence|].
    assert (Hfresh' : ∀ g, a ≤ g ≤ b → d !! g = None).
    { intros g Hg. apply Hfresh, elem_of_range. lia. }
    split; [done|].
    destruct (assign_groups_fresh points (range a (b + 1)) d)
      as (d2 & Hd2 & Hcontent); [done|unfold range; apply NoDup_seqZ|].
    rewrite Hd' in Hd2. injection Hd2 as <-. intros g. rewrite Hcontent.
    destruct (decide (g ∈ range a (b + 1))) as [Hg|Hg];
      rewrite elem_of_range in Hg.
    + by rewrite decide_True by lia.
    + by rewrite decide_False by lia.
  - intros [Hfresh Hcontent].
    destruct (assign_groups_fresh points (range a (b + 1)) d)
      as (d2 & Hd2 & Hcontent2); [|unfold range; apply NoDup_seqZ|].
    { intros g Hg%elem_of_range. apply Hfresh. lia. }
    rewrite Hd2. f_equal. apply map_eq. intros g.
    rewrite Hcontent, Hcontent2.
    destruct (decide (g ∈ range a (b + 1))) as [Hg|Hg];
      rewrite elem_of_range in Hg.
    + by rewrite decide_True by lia.
    + by rewrite decide_False by lia.
Qed.

(** Two lines that are read one after the other are read in the other
    order as well, with the same dict. *)
Lemma process_line_swap (d d1 d2 : gmap Z Z) (x y : string) :
  process_line d x = Ok d1 → process_line d1 y = Ok d2 →
  ∃ d1', process_line d y = Ok d1' ∧ process_line d1' x = Ok d2.
Proof.
  unfold process_line.
  intros ([[ax bx] px] & Hx & Hax)%bind_Ok ([[ay by'] py] & Hy & Hay)%bind_Ok.
  rewrite Hx, Hy. simpl.
  apply assign_range_Ok in Hax as [Hfx Hcx].
  apply assign_range_Ok in Hay as [Hfy Hcy].
  assert (Hdisj : ∀ g, ay ≤ g ≤ by' → ¬ ax ≤ g ≤ bx).
  { intros g Hgy Hgx. specialize (Hfy g Hgy). rewrite Hcx in Hfy.
    by rewrite decide_True in Hfy. }
  assert (∃ d1', assign_range d (ay, by', py) = Ok d1'
                 ∧ ∀ g, d1' !! g = if decide (ay ≤ g ≤ by') then Some py
                                   else d !! g) as (d1'' & Hd1 & Hc1).
  { destruct (assign_groups_fresh py (range ay (by' + 1)) d)
      as (d3 & Hd3 & Hc3); [|unfold range; apply NoDup_seqZ|].
    { intros g Hg%elem_of_range. assert (ay ≤ g ≤ by') as Hgy by lia.
      specialize (Hfy g Hgy). rewrite Hcx in Hfy.
      rewrite decide_False in Hfy; [done|by apply Hdisj]. }
    exists d3. split; [done|]. intros g. rewrite Hc3.
    destruct (decide (g ∈ range ay (by' + 1))) as [Hg|Hg];
      rewrite elem_of_range in Hg.
    - by rewrite decide_True by lia.
    - by rewrite decide_False by lia. }
  exists d1''. split; [done|]. apply assign_range_Ok. split.
  - intros g Hg. rewrite Hc1. rewrite decide_False; [by apply Hfx|].
    intros Hgy. by apply (Hdisj g).
  - intros g. rewrite Hcy, Hc1, Hcx.
    destruct (decide (ay ≤ g ≤ by')) as [Hgy|Hgy],
             (decide (ax ≤ g ≤ bx)) as [Hgx|Hgx]; try done.
    by destruct (Hdisj g).
Qed.

Lemma read_lines_Permutation (content content' : list string) :
  content ≡ₚ content' →
  ∀ d r, foldM process_line d content = Ok r →
         foldM process_line d content' = Ok r.
Proof.
  induction 1 as [|x l l' Hperm IH|x y l|l l' l'' _ IH1 _ IH2]; intros d r.
  - done.
  - simpl. intros (d1 & Hx & Hl)%bind_Ok. rewrite Hx. simpl. by apply IH.
  - simpl. intros (d1 & Hy & (d2 & Hx & Hl)%bind_Ok)%bind_Ok.
    destruct (process_line_swap _ _ _ _ _ Hy Hx) as (d1' & -> & Hy').
    simpl. by rewrite Hy'.
  - intros Hl. by apply IH2, IH1.
Qed.

(** X17.  The order of the lines of a point file that parses plays no
    role: every rearrangement of the lines parses, to the same map. *)
Theorem line_order_irrelevant (lines lines' : list string) (d : gmap Z Z) :
  lines ≡ₚ lines' →
  parse_point_file lines = Ok d → parse_point_file lines' = Ok d.
Proof.
  intros Hperm (Hread & Hdense & Hsum)%parse_point_file_inv.
  assert (read_points lines' = Ok d) as Hread'.
  { unfold read_points in *.
    apply (read_lines_Permutation (strip <$> lines)); [|done].
    by apply fmap_Permutation. }
  unfold parse_point_file. rewrite Hread'. simpl.
  assert (foldM (check_group_present d) ()
            (range 0 (Z.of_nat (size d))) = Ok ()) as ->.
  { apply foldM_unit_Ok. intros k Hk%elem_of_range. unfold check_group_present.
    by rewrite decide_True by auto. }
  simpl. rewrite decide_False; [done|]. by intros ?.
Qed.

Example line_order_irrelevant_witness :
  parse_point_file ["2-2 40" +:+ nl; "0-1 30" +:+ nl]
  = Ok {[0 := 30; 1 := 30; 2 := 40]}.
Proof.
  apply (line_order_irrelevant ["0-1 30" +:+ nl; "2-2 40" +:+ nl]);
    [apply perm_swap|vm_compute; reflexivity].
Defined.

(** ** Labels of the groups and codenames of the tests *)

(** X18.  In an archive whose largest group index is below 100, the
    three-digit group label of the score type parameters is never the
    padded group index that starts the codenames of the tests of that
    group: the latter has one or two characters only. *)
Theorem label_longer_than_codename_index (largest g : Z) :
  0 ≤ g ≤ largest → largest < 100 →
  String.length (format_zero 3 g) = 3%nat
  ∧ (String.length (format_zero (String.length (str largest)) g) < 3)%nat
  ∧ format_zero 3 g ≠ format_zero (String.length (str largest)) g.
Proof.
  intros Hg Hlargest.
  assert (String.length (str largest) ≤ 2)%nat as Hwidth
    by (apply (length_str_mono largest 99); lia).
  assert (String.length (str g) ≤ 2)%nat as Hlen
    by (apply (length_str_mono g 99); lia).
  assert (String.length (format_zero 3 g) = 3%nat) as H3.
  { rewrite format_zero_nonneg by lia.
    rewrite length_append, length_zeros. lia. }
  pose proof (length_format_zero g largest Hg) as HW.
  split_and!; [done|lia|]. intros Heq. rewrite Heq in H3. lia.
Qed.

Example label_longer_than_codename_index_witness :
  format_zero 3 2 = "002"
  ∧ format_zero (String.length (str 2)) 2 = "2"
  ∧ format_zero 3 2 ≠ format_zero (String.length (str 2)) 2.
Proof.
  destruct (label_longer_than_codename_index 2 2) as (_ & _ & Hne); [lia..|].
  split_and!; [vm_compute; reflexivity..|exact Hne].
Defined.

(** ** One defective bucket *)

Lemma extract_groups_succeed_length (c : Conf) (width : nat)
    (test_files : gmap Z (gmap string Bucket)) (groups : list Z)
    (counts : list Z) (tcs : gmap string Testcase) :
  (∀ g, g ∈ groups →
     0 ≤ g < Z.of_nat (length counts)
     ∧ ∃ og, test_files !! g = Some og ∧ all_readable c og) →
  ∃ counts' tcs',
    foldM (extract_group c width test_files) (counts, tcs) groups
    = Ok (counts', tcs')
    ∧ length counts' = length counts.
Proof.
  revert counts tcs.
  induction groups as [|g groups IH]; intros counts tcs Hall;
    [by exists counts, tcs|].
  destruct (Hall g) as (Hg & og & Hog & Hread); [apply list_elem_of_here|].
  destruct (lookup_lt_is_Some_2 counts (Z.to_nat g)) as [x Hx]; [lia|].
  destruct (extract_group_in_range c width test_files g og counts tcs x
              Hg Hx Hog Hread) as [tcs1 Hstep].
  simpl. rewrite Hstep. simpl.
  destruct (IH (<[Z.to_nat g := x + Z.of_nat (size og)]> counts) tcs1)
    as (counts' & tcs' & -> & Hlen).
  { intros g' Hg'. rewrite length_insert. apply Hall. by right. }
  exists counts', tcs'. split; [done|]. by rewrite Hlen, length_insert.
Qed.

(** The extraction loop on an archive whose groups are those of the point
    file and where one bucket makes its step raise, all others being
    complete and readable: the loop ends with the exception of that
    step. *)
Lemma extract_tests_one_defect (c : Conf)
    (test_files : gmap Z (gmap string Bucket)) (N : nat) (g : Z)
    (og : gmap string Bucket) (label : string) (e : exn) :
  (∀ g' og', test_files !! g' = Some og' → 0 ≤ g' < Z.of_nat N) →
  test_files !! g = Some og → is_Some (og !! label) →
  (∀ width counts tcs, length counts = N →
     extract_test c width g og (counts, tcs) label = Raise e) →
  (∀ g' og' label' bucket',
     test_files !! g' = Some og' → og' !! label' = Some bucket' →
     (g', label') ≠ (g, label) → readable c bucket') →
  extract_tests c test_files (replicate N 0) = Raise e.
Proof.
  intros Hrange Hog Hlabel Hstep Hothers. unfold extract_tests.
  destruct (py_max (keys test_files)) as [largest|] eqn:Hmax.
  2:{ unfold py_max in Hmax. destruct (keys test_files) eqn:Hkeys; [|done].
      assert (g ∈ keys test_files) as Hin by (apply elem_of_keys; by exists og).
      rewrite Hkeys in Hin. by apply elem_of_nil in Hin. }
  simpl. set (width := String.length (str largest)).
  assert (g ∈ sorted_groups test_files) as Hg
    by (apply elem_of_sorted_groups; by exists og).
  pose proof (NoDup_sorted_groups test_files) as Hnodup.
  assert (Hall : ∀ g', g' ∈ sorted_groups test_files →
                       ∃ og', test_files !! g' = Some og').
  { intros g' [og' Hog']%elem_of_sorted_groups. by exists og'. }
  apply list_elem_of_split in Hg as (before & after & Hsplit).
  rewrite Hsplit in Hnodup, Hall |- *.
  apply NoDup_app in Hnodup as (_ & Hnot & _).
  destruct (extract_groups_succeed_length c width test_files before
              (replicate N 0) ∅) as (counts1 & tcs1 & Hbefore & Hlen).
  { intros g' Hg'. destruct (Hall g') as [og' Hog'];
      [apply elem_of_app; by left|].
    rewrite length_replicate. split; [by apply (Hrange g' og')|].
    exists og'. split; [done|]. intros label' bucket' Hbucket'.
    apply (Hothers g' og' label'); [done..|]. intros [= -> _].
    apply (Hnot g Hg'), list_elem_of_here. }
  rewrite foldM_app, Hbefore. simpl. rewrite length_replicate in Hlen.
  assert (extract_group c width test_files (counts1, tcs1) g = Raise e) as ->;
    [|done].
  unfold extract_group, getitem. rewrite Hog. simpl.
  assert (label ∈ sorted_labels og) as Hin by (by apply elem_of_sorted_labels).
  assert (NoDup (sorted_labels og)) as Hnodup'.
  { unfold sorted_labels, keys. rewrite merge_sort_Permutation.
    apply NoDup_fst_map_to_list. }
  apply list_elem_of_split in Hin as (m1 & m2 & Hm).
  assert (Hlabels : ∀ l, l ∈ sorted_labels og → is_Some (og !! l))
    by (intros l; apply elem_of_sorted_labels).
  rewrite Hm in Hnodup', Hlabels |- *.
  apply NoDup_app in Hnodup' as (_ & Hnot' & _).
  destruct (lookup_lt_is_Some_2 counts1 (Z.to_nat g)) as [x Hx].
  { destruct (Hrange g og Hog). lia. }
  destruct (extract_labels_in_range c width g og m1 counts1 tcs1 x)
    as [tcs2 Hm1]; [destruct (Hrange g og Hog); lia|done| |].
  { intros l Hl. destruct (Hlabels l) as [bucket' Hbucket'];
      [apply elem_of_app; by left|].
    exists bucket'. split; [done|].
    apply (Hothers g og l); [done..|]. intros [= ->].
    apply (Hnot' label Hl), list_elem_of_here. }
  rewrite foldM_app, Hm1. simpl. rewrite Hstep; [done|].
  by rewrite length_insert.
Qed.

(** X19.  When the point file and the names are accepted, the groups of
    the archive are groups of the point file, and exactly one bucket lacks
    its input or its output member while every other bucket is complete
    and readable, the import raises the "Input or output file not found"
    exception naming the group and the sub-index label of that bucket. *)
Theorem incomplete_bucket_rejected (c : Conf) (d : gmap Z Z)
    (test_files : gmap Z (gmap string Bucket)) (g : Z)
    (og : gmap string Bucket) (label : string) (bucket : Bucket) :
  config_accepted c →
  parse_point_file (point_file c) = Ok d →
  collect_test_files (name c) (namelist (test_zip c)) = Ok test_files →
  (∀ g', is_Some (test_files !! g') → g' < Z.of_nat (size d)) →
  test_files !! g = Some og → og !! label = Some bucket →
  input bucket = None ∨ output bucket = None →
  (∀ g' og' label' bucket',
     test_files !! g' = Some og' → og' !! label' = Some bucket' →
     (g', label') ≠ (g, label) → readable c bucket') →
  get_task c = Raise (LioLoaderException (INCOMPLETE g label)).
Proof.
  intros Hconf Hd Htf Hbound Hog Hbucket Hside Hothers.
  pose proof (collect_test_files_groups _ _ _ Htf) as Hgroups.
  rewrite (get_task_stages c d test_files Hconf Hd Htf).
  rewrite (extract_tests_one_defect c test_files (size d) g og label
             (LioLoaderException (INCOMPLETE g label))); try done.
  - intros g' og' Hog'. split; [by apply (Hgroups g' og')|].
    apply Hbound. by exists og'.
  - intros width counts tcs Hlen. unfold extract_test.
    destruct (increment_in_range counts g) as (x & _ & ->).
    { rewrite Hlen. split; [by apply (Hgroups g og)|].
      apply Hbound. by exists og. }
    simpl. rewrite Hbucket. simpl.
    destruct Hside as [-> | ->]; [done|]. by destruct (input bucket).
Qed.

Example incomplete_bucket_rejected_witness :
  get_task (example_conf ["0-0 100" +:+ nl]
              [("t.i0a", "1"); ("t.o0a", "2"); ("t.i0b", "3")])
  = Raise (LioLoaderException "Input or output file not found for test 0b").
Proof.
  apply (incomplete_bucket_rejected
           (example_conf ["0-0 100" +:+ nl]
              [("t.i0a", "1"); ("t.o0a", "2"); ("t.i0b", "3")])
           {[0 := 100]}
           {[ 0 := {[ "a" := {| input := Some "t.i0a"; output := Some "t.o0a" |};
                      "b" := {| input := Some "t.i0b"; output := None |} ]} ]}
           0 {[ "a" := {| input := Some "t.i0a"; output := Some "t.o0a" |};
                "b" := {| input := Some "t.i0b"; output := None |} ]}
           "b" {| input := Some "t.i0b"; output := None |}).
  - split; [done|by left].
  - vm_compute. reflexivity.
  - vm_compute. reflexivity.
  - intros g' [og' [<- _]%lookup_singleton_Some]. vm_compute. reflexivity.
  - reflexivity.
  - reflexivity.
  - by right.
  - intros g' og' label' bucket' [<- <-]%lookup_singleton_Some Hbucket' Hne.
    apply lookup_insert_Some in Hbucket' as [[<- <-]|[_ Hbucket']].
    + exists "t.i0a", "t.o0a", "1", "2". split_and!; vm_compute; reflexivity.
    + apply lookup_singleton_Some in Hbucket' as [<- _]. by destruct Hne.
Defined.

(** X20.  Under the same conditions, when the one defective bucket is
    complete but one of its two members cannot be read (the input, or the
    output after a readable input), the import ends with the exception of
    that read: [UnicodeDecodeError] for a member with a byte outside
    ASCII.  It is not turned into a [LioLoaderException]. *)
Theorem unreadable_member_rejected (c : Conf) (d : gmap Z Z)
    (test_files : gmap Z (gmap string Bucket)) (g : Z)
    (og : gmap string Bucket) (label : string) (bucket : Bucket)
    (input_name output_name bytes : string) :
  config_accepted c →
  parse_point_file (point_file c) = Ok d →
  collect_test_files (name c) (namelist (test_zip c)) = Ok test_files →
  (∀ g', is_Some (test_files !! g') → g' < Z.of_nat (size d)) →
  test_files !! g = Some og → og !! label = Some bucket →
  input bucket = Some input_name → output bucket = Some output_name →
  all_chars is_ascii bytes = false →
  zip_open (test_zip c) input_name = Ok bytes
  ∨ ((∃ content,
        zip_open (test_zip c) input_name ≫= read_ascii = Ok content)
     ∧ zip_open (test_zip c) output_name = Ok bytes) →
  (∀ g' og' label' bucket',
     test_files !! g' = Some og' → og' !! label' = Some bucket' →
     (g', label') ≠ (g, label) → readable c bucket') →
  get_task c = Raise UnicodeDecodeError.
Proof.
  intros Hconf Hd Htf Hbound Hog Hbucket Hi Ho Hbytes Hread Hothers.
  pose proof (collect_test_files_groups _ _ _ Htf) as Hgroups.
  rewrite (get_task_stages c d test_files Hconf Hd Htf).
  rewrite (extract_tests_one_defect c test_files (size d) g og label
             UnicodeDecodeError); try done.
  - intros g' og' Hog'. split; [by apply (Hgroups g' og')|].
    apply Hbound. by exists og'.
  - intros width counts tcs Hlen. unfold extract_test.
    destruct (increment_in_range counts g) as (x & _ & ->).
    { rewrite Hlen. split; [by apply (Hgroups g og)|].
      apply Hbound. by exists og. }
    simpl. rewrite Hbucket. simpl. rewrite Hi, Ho.
    assert (read_ascii bytes = Raise UnicodeDecodeError) as Hraise
      by (unfold read_ascii; by rewrite Hbytes).
    destruct Hread as [Hin|[[content Hin] Hout]].
    + rewrite Hin. simpl. by rewrite Hraise.
    + rewrite Hin. simpl. rewrite Hout. simpl. by rewrite Hraise.
Qed.

Example unreadable_member_rejected_witness :
  get_task (example_conf ["0-0 100" +:+ nl]
              [("t.i0", "1"); ("t.o0", String "233" "")])
  = Raise UnicodeDecodeError.
Proof.
  apply (unreadable_member_rejected
           (example_conf ["0-0 100" +:+ nl]
              [("t.i0", "1"); ("t.o0", String "233" "")])
           {[0 := 100]} {[ 0 := one_test "t.i0" "t.o0" ]}
           0 (one_test "t.i0" "t.o0") ""
           {| input := Some "t.i0"; output := Some "t.o0" |}
           "t.i0" "t.o0" (String "233" "")).
  - split; [done|by left].
  - vm_compute. reflexivity.
  - vm_compute. reflexivity.
  - intros g' [og' [<- _]%lookup_singleton_Some]. vm_compute. reflexivity.
  - reflexivity.
  - reflexivity.
  - reflexivity.
  - reflexivity.
  - reflexivity.
  - right. split; [exists "1"|]; vm_compute; reflexivity.
  - intros g' og' label' bucket' [<- <-]%lookup_singleton_Some Hbucket' Hne.
    unfold one_test in Hbucket'.
    apply lookup_singleton_Some in Hbucket' as [<- _]. by destruct Hne.
Defined.

(** ** The evaluation mode *)

(** X21.  The dataset of a successful import is evaluated with
    ["comparator"] exactly when the configuration names a checker (whose
    compilation then ended with status 0), and with ["diff"] exactly when it
    names none. *)
Theorem evaluation_param_by_checker (c : Conf) (ds : Dataset) :
  get_task c = Ok ds →
  (checker c = None ∧ evaluation_param ds = "diff")
  ∨ (checker c = Some 0 ∧ evaluation_param ds = "comparator").
Proof.
  intros ([_ Hchecker] & d & tf & st & _ & _ & _ & Hfin)%get_task_inv.
  unfold finish in Hfin. apply bind_Ok in Hfin as ([] & _ & [= <-]). simpl.
  destruct Hchecker as [-> | ->]; [by left|by right].
Qed.

Example evaluation_param_by_checker_witness :
  ∃ ds,
    get_task (example_conf ["0-1 30" +:+ nl; "2-2 40" +:+ nl] archive_012)
    = Ok ds
    ∧ evaluation_param ds = "diff".
Proof.
  destruct (get_task
              (example_conf ["0-1 30" +:+ nl; "2-2 40" +:+ nl] archive_012))
    as [ds|e] eqn:Hds.
  2:{ vm_compute in Hds. discriminate. }
  exists ds. split; [done|].
  by destruct (evaluation_param_by_checker _ ds Hds) as [[_ ?]|[[=] _]].
Defined.

(** ** No testcase without a bucket *)

(** X22.  The dataset of a successful import holds nothing but the tests of
    the archive: every testcase sits under the codename of some bucket that
    the names of the archive were collected into, and is the testcase of
    that bucket. *)
Theorem testcases_only_from_buckets (c : Conf) (ds : Dataset) :
  get_task c = Ok ds →
  ∃ test_files largest,
    collect_test_files (name c) (namelist (test_zip c)) = Ok test_files
    ∧ py_max (keys test_files) = Ok largest
    ∧ from_buckets c (String.length (str largest)) test_files (testcases ds).
Proof.
  intros (Hconf & d & tf & [counts tcs] & Hd & Htf & Hst & Hfin)%get_task_inv.
  unfold extract_tests in Hst. apply bind_Ok in Hst as (largest & Hmax & Hloop).
  exists tf, largest. split_and!; [done..|].
  unfold finish in Hfin. apply bind_Ok in Hfin as ([] & _ & [= <-]). simpl.
  apply (extract_groups_from_buckets _ _ _ _ _ _ Hloop).
  intros key tc. simpl. by rewrite lookup_empty.
Qed.

Example testcases_only_from_buckets_witness :
  let c := example_conf ["0-1 30" +:+ nl; "2-2 40" +:+ nl] archive_012 in
  ∃ ds test_files largest,
    get_task c = Ok ds
    ∧ collect_test_files (name c) (namelist (test_zip c)) = Ok test_files
    ∧ py_max (keys test_files) = Ok largest
    ∧ from_buckets c (String.length (str largest)) test_files (testcases ds).
Proof.
  intros c. destruct (get_task c) as [ds|e] eqn:Hds.
  2:{ vm_compute in Hds. discriminate. }
  destruct (testcases_only_from_buckets c ds Hds)
    as (tf & largest & Htf & Hmax & Hfrom).
  exists ds, tf, largest. exact (conj eq_refl (conj Htf (conj Hmax Hfrom))).
Defined.

(** ** The archive in another order *)

Lemma collect_file_put (task : string)
    (test_files test_files' : gmap Z (gmap string Bucket)) (n : string) :
  collect_file task test_files n = Ok test_files' ↔
  flat n ∧ ∃ k, classify n = Some k ∧ test_files' = put test_files n k.
Proof.
  unfold collect_file, flat, classify, put.
  destruct (contains "/" n), (contains "\" n); simpl;
    try (split; [done|by intros [[??] _]]).
  destruct (search n) as [m|]; simpl.
  2:{ split; [done|by intros [_ (k & [=] & _)]]. }
  destruct (int (group2 m)) as [g|e]; simpl.
  2:{ split; [done|by intros [_ (k & [=] & _)]]. }
  split.
  - intros [= <-]. split; [done|]. eexists. split; [done|]. done.
  - intros [_ (k & [= <-] & ->)]. done.
Qed.

(** Two members that differ in direction, group or label are collected in
    either order with the same result. *)
Lemma put_swap (test_files : gmap Z (gmap string Bucket)) (x y : string)
    (kx ky : bool * Z * string) :
  kx ≠ ky →
  put (put test_files x kx) y ky = put (put test_files y ky) x kx.
Proof.
  destruct kx as [[ix gx] lx], ky as [[iy gy] ly]. intros Hne.
  unfold put. simpl.
  destruct (decide (gx = gy)) as [<-|Hg].
  - rewrite !lookup_insert_eq. simpl. rewrite !insert_insert_eq. f_equal.
    destruct (decide (lx = ly)) as [<-|Hl].
    + rewrite !lookup_insert_eq. simpl. rewrite !insert_insert_eq. f_equal.
      destruct ix, iy; simpl; try done. all: by destruct Hne.
    + rewrite !lookup_insert_ne by done. by rewrite insert_insert_ne.
  - rewrite !lookup_insert_ne by done. by rewrite insert_insert_ne.
Qed.

Lemma collect_files_Permutation (task : string) (names names' : list string) :
  names ≡ₚ names' → NoDup (classify <$> names) →
  ∀ test_files r,
    foldM (collect_file task) test_files names = Ok r →
    foldM (collect_file task) test_files names' = Ok r.
Proof.
  induction 1 as [|x l l' Hperm IH|x y l|l l' l'' Hperm IH1 _ IH2];
    intros Hnodup tf r.
  - done.
  - simpl. intros (tf1 & Hx & Hl)%bind_Ok. rewrite Hx. simpl.
    apply IH; [|done]. by apply NoDup_cons in Hnodup as [_ ?].
  - simpl. intros (tf1 & Hy & (tf2 & Hx & Hl)%bind_Ok)%bind_Ok.
    apply collect_file_put in Hy as (Hfy & ky & Hky & ->).
    apply collect_file_put in Hx as (Hfx & kx & Hkx & ->).
    assert (ky ≠ kx) as Hne.
    { intros ->. rewrite !fmap_cons in Hnodup.
      apply NoDup_cons in Hnodup as [Hin _]. apply Hin.
      rewrite Hky, <-Hkx. apply list_elem_of_here. }
    assert (collect_file task tf x = Ok (put tf x kx)) as ->
      by (apply collect_file_put; eauto).
    simpl.
    assert (collect_file task (put tf x kx) y = Ok (put (put tf x kx) y ky))
      as -> by (apply collect_file_put; eauto).
    simpl. by rewrite (put_swap tf x y kx ky).
  - intros Hl. apply IH2; [|by apply IH1].
    by rewrite <-(fmap_Permutation classify _ _ Hperm).
Qed.

Lemma NoDup_fst_elem (zip : list (string * string)) (member b b' : string) :
  NoDup zip.*1 → (member, b) ∈ zip → (member, b') ∈ zip → b = b'.
Proof.
  induction zip as [|[m0 b0] zip IH]; [by intros _ ?%elem_of_nil|].
  rewrite fmap_cons, NoDup_cons. simpl. intros [Hm0 Hzip].
  intros [[= -> ->]|Hb]%elem_of_cons [[= Heq]|Hb']%elem_of_cons.
  - done.
  - destruct Hm0. apply list_elem_of_fmap. by exists (m0, b').
  - subst. destruct Hm0. apply list_elem_of_fmap. by exists (m0, b).
  - by apply IH.
Qed.

(** With member names that are all different, [zip.open] depends on the
    members of the archive only, not on their order. *)
Lemma zip_open_Permutation (zip zip' : list (string * string))
    (member : string) :
  zip ≡ₚ zip' → NoDup zip.*1 → zip_open zip' member = zip_open zip member.
Proof.
  intros Hperm Hnodup.
  assert (NoDup zip'.*1) as Hnodup' by (by rewrite <-Hperm).
  unfold zip_open.
  destruct (list_find _ (reverse zip)) as [[i [m b]]|] eqn:Hfind.
  - apply list_find_Some in Hfind as (Hi & Hm & _). simpl in Hm. subst m.
    apply list_elem_of_lookup_2 in Hi. rewrite elem_of_reverse in Hi.
    rewrite Hperm in Hi.
    destruct (list_find _ (reverse zip')) as [[i' [m' b']]|] eqn:Hfind'.
    + apply list_find_Some in Hfind' as (Hi' & Hm' & _). simpl in Hm'.
      subst m'. apply list_elem_of_lookup_2 in Hi'.
      rewrite elem_of_reverse in Hi'.
      f_equal. by apply (NoDup_fst_elem zip' member).
    + apply list_find_None in Hfind'. rewrite Forall_forall in Hfind'.
      destruct (Hfind' (member, b)); [by apply elem_of_reverse|done].
  - apply list_find_None in Hfind. rewrite Forall_forall in Hfind.
    destruct (list_find _ (reverse zip')) as [[i' [m' b']]|] eqn:Hfind';
      [|done].
    apply list_find_Some in Hfind' as (Hi' & Hm' & _). simpl in Hm'.
    subst m'. apply list_elem_of_lookup_2 in Hi'.
      rewrite elem_of_reverse in Hi'.
    rewrite <-Hperm in Hi'.
    destruct (Hfind (member, b')); [by apply elem_of_reverse|done].
Qed.

Lemma foldM_ext {A B : Type} (f g : B → A → result B) (l : list A) (b : B) :
  (∀ b x, f b x = g b x) → foldM f b l = foldM g b l.
Proof.
  intros Hfg. revert b. induction l as [|x l IH]; intros b; simpl; [done|].
  rewrite Hfg. destruct (g b x); simpl; [apply IH|done].
Qed.

(** The second loop reads the archive through [zip.open] only. *)
Lemma extract_tests_zip_open (c : Conf) (zip' : list (string * string))
    (test_files : gmap Z (gmap string Bucket)) (counts : list Z) :
  (∀ member, zip_open zip' member = zip_open (test_zip c) member) →
  extract_tests (with_test_zip c zip') test_files counts
  = extract_tests c test_files counts.
Proof.
  intros Hzip. unfold extract_tests.
  destruct (py_max (keys test_files)) as [largest|]; simpl; [|done].
  apply foldM_ext. intros st g. unfold extract_group.
  destruct (getitem test_files g) as [og|]; simpl; [|done].
  apply foldM_ext. intros [counts' tcs] label. unfold extract_test.
  destruct (increment counts' g); simpl; [|done].
  destruct (og !! label) as [bucket|]; simpl; [|done].
  destruct (input bucket), (output bucket); try done.
  by rewrite !Hzip.
Qed.

(** X23.  The order of the members in the archive plays no role for an
    import that succeeds, as long as no two members are the same side
    (input or output) of the same bucket: the same members in any other
    order give the same dataset. *)
Theorem member_order_irrelevant (c : Conf) (zip' : list (string * string))
    (ds : Dataset) :
  test_zip c ≡ₚ zip' →
  NoDup (classify <$> namelist (test_zip c)) →
  get_task c = Ok ds → get_task (with_test_zip c zip') = Ok ds.
Proof.
  intros Hperm Hnodup Hds.
  pose proof Hds
    as (Hconf & d & tf & st & Hd & Htf & Hst & Hfin)%get_task_inv.
  assert (NoDup (namelist (test_zip c))) as Hnames
    by (by apply NoDup_fmap_1 in Hnodup).
  rewrite (get_task_stages (with_test_zip c zip') d tf); [|done..|].
  - rewrite extract_tests_zip_open
      by (intros member; by apply zip_open_Permutation).
    rewrite Hst. simpl. exact Hfin.
  - simpl. unfold collect_test_files in *.
    apply (collect_files_Permutation _ (namelist (test_zip c))); [|done..].
    unfold namelist. by apply fmap_Permutation.
Qed.

Example member_order_irrelevant_witness :
  ∃ ds,
    get_task (example_conf ["0-1 30" +:+ nl; "2-2 40" +:+ nl] archive_012)
    = Ok ds
    ∧ get_task (example_conf ["0-1 30" +:+ nl; "2-2 40" +:+ nl]
                             (reverse archive_012))
      = Ok ds.
Proof.
  destruct (get_task
              (example_conf ["0-1 30" +:+ nl; "2-2 40" +:+ nl] archive_012))
    as [ds|e] eqn:Hds.
  2:{ vm_compute in Hds. discriminate. }
  exists ds. split; [done|].
  apply (member_order_irrelevant
           (example_conf ["0-1 30" +:+ nl; "2-2 40" +:+ nl] archive_012)
           (reverse archive_012) ds); [| |exact Hds].
  - symmetry. apply reverse_Permutation.
  - refine (bool_decide_unpack _ _). vm_compute. exact I.
Defined.
